(** * WhisperSTTSession: a shallow embedding of the streaming speech-to-text
      session of [src/features/common/ai/providers] (the Whisper provider)

    The development follows the source top to bottom:

    - [JS]: the JavaScript values the session handles (UTF-16 strings,
      [String.prototype.trim], binary64 numbers);
    - [Resampler]: [resampleAndConvertToFloat32], computed in binary64 as
      the specification of IEEE 754 arithmetic of the Standard Library
      ([SpecFloat]) defines it;
    - [Binary64]: the closed forms in which that arithmetic is analysed;
    - [Session]: the class [WhisperSTTSession]: its fields, the handlers
      that [initialize] installs on the socket, [_handleServerMessage],
      [sendRealtimeInput] and [close], and the event loop that runs them.
    - [Provider]: [WhisperProvider], which creates the sessions;
    - [Zen]: the Zen provider of the same directory (key validation and chat
      requests);
    - [Presets] and [FirestorePresets]: the two repositories of prompt
      presets.

    Calls to [console.log], [console.warn] and [console.error] have no effect
    on the session and are left out.  A call [this.emit(name, payload)] is
    recorded in the list of actions a handler performs; listeners are taken
    to return normally, and the one thing the emitter does on its own account
    (throwing an 'error' nobody listens to) is decided by the runtime.
    A session is initialized once, as the provider does. *)

From Stdlib Require Import ZArith NArith PArith List Bool Lia String Ascii.
From Stdlib Require Import Floats.SpecFloat.
From Stdlib Require Import DecimalString Sorting.Sorted Sorting.Permutation.
Import ListNotations.

Open Scope Z_scope.

(* ===================================================================== *)
(** * JavaScript values *)
(* ===================================================================== *)

Module JS.

(** A JavaScript string is a sequence of UTF-16 code units. *)
Definition jsstring := list N.

(** Literals of the source are ASCII. *)
Definition str (s : string) : jsstring :=
  List.map N_of_ascii (list_ascii_of_string s).

Fixpoint jsstring_eqb (a b : jsstring) : bool :=
  match a, b with
  | [], [] => true
  | x :: a', y :: b' => N.eqb x y && jsstring_eqb a' b'
  | _, _ => false
  end.

(** [s] used as a condition: the empty string is falsy. *)
Definition truthy (s : jsstring) : bool :=
  match s with [] => false | _ :: _ => true end.

(** ECMAScript WhiteSpace and LineTerminator code points, the ones
    [String.prototype.trim] strips. *)
Definition isWhiteSpace (c : N) : bool :=
  ((9 <=? c) && (c <=? 13) || (c =? 32) || (c =? 160) || (c =? 5760)
   || (8192 <=? c) && (c <=? 8202) || (c =? 8232) || (c =? 8233)
   || (c =? 8239) || (c =? 8287) || (c =? 12288) || (c =? 65279))%N.

Fixpoint trimStart (s : jsstring) : jsstring :=
  match s with
  | [] => []
  | c :: r => if isWhiteSpace c then trimStart r else s
  end.

Definition trimEnd (s : jsstring) : jsstring := rev (trimStart (rev s)).

Definition trim (s : jsstring) : jsstring := trimEnd (trimStart s).

(** A JavaScript number is an IEEE 754 binary64 value. *)
Definition number := spec_float.

End JS.
Import JS.

(* ===================================================================== *)
(** * The session: data *)
(* ===================================================================== *)

(** [TranscriptSegment], an element of [msg.segments]. *)
Module Segment.
Record t := {
  text : option jsstring;      (* [None]: the field is missing *)
  completed : bool;
  start : number;
  end_ : number
}.
End Segment.

(** The inbound frame after [JSON.parse].  [message] and [status] are only
    ever compared with string literals, so a value that is not a string is
    [None]; [language] is only tested and logged, [backend] and
    [language_prob] are only logged. *)
Module Msg.
Record t := {
  message : option jsstring;
  status : option jsstring;
  segments : option (list Segment.t);
  language : option jsstring
}.
End Msg.

(** Payload of the 'transcription' event. *)
Module Transcription.
Record t := {
  text : jsstring;
  timestamp : Z;
  confidence : number;
  sessionId : jsstring;
  start : number;
  end_ : number
}.
End Transcription.

(** Error objects that flow through the session. *)
Inductive js_error :=
| ConnectionTimeout            (* new Error('WhisperLive WebSocket connection timeout') *)
| WebSocketClosed (code : Z)   (* new Error(`WebSocket closed: ${code}`) *)
| SocketError (what : jsstring)  (* an error raised by the socket *)
| ServiceError (what : jsstring) (* an error raised by whisperService *)
| RangeError                   (* Buffer read outside the buffer *)
| TypeError.                   (* property access on null *)

(** Events the session emits. *)
Inductive event :=
| transcription (p : Transcription.t)
| error (e : js_error)
| closed (code : Z) (reason : option jsstring).

(** Frames written to the socket. *)
Inductive frame :=
| Config (uid language task model : jsstring) (use_vad : bool)
| Audio (float32 : list number)
| END_OF_AUDIO.

(** What a handler does to the outside: the trace of a run. *)
Inductive action :=
| Emit (e : event)              (* this.emit(...) *)
| WsNew (port : Z)              (* new WebSocket(`ws://localhost:${port}`) *)
| WsSend (f : frame)            (* this.ws.send(f) *)
| WsClose                       (* this.ws.close() *)
| SetTimeout                    (* setTimeout(..., 10000) *)
| ClearTimeout                  (* clearTimeout(timeout) *)
| StartLiveServer               (* whisperService.startLiveServer() *)
| RemoveAllListeners.           (* this.removeAllListeners() *)

Inductive readyState := CONNECTING | OPEN | CLOSING | CLOSED.

(** State of a promise. *)
Inductive promise (A : Type) :=
| Pending
| Fulfilled (v : A)
| Rejected (e : js_error).
Arguments Pending {A}.
Arguments Fulfilled {A} v.
Arguments Rejected {A} e.

(** [audioData] of [sendRealtimeInput]: a base64 string, or bytes (a Buffer,
    an ArrayBuffer or anything [Buffer.from] accepts). *)
Inductive audioData :=
| Base64 (s : jsstring)
| Binary (b : list Byte.byte).

(** What the runtime decides during one handler run.  [unhandled_error]
    says that no listener is registered for 'error': the emitter of Node then
    throws the error out of [emit('error', e)] (the emitter of the browser
    build never does). *)
Record env := {
  Date_now : Z;
  send_throws : frame -> option js_error;  (* does ws.send(f) throw? *)
  close_throws : option js_error;          (* does ws.close() throw? *)
  unhandled_error : bool;
  Buffer_from_base64 : jsstring -> list Byte.byte
}.

(** The collaborator [whisperService] as [initialize] sees it. *)
Record service := {
  isLiveServerRunning : bool;
  startLiveServer : option js_error;       (* [Some e]: the start rejects *)
  getLiveServerPort : Z
}.

(* ===================================================================== *)
(** * The resampler *)
(* ===================================================================== *)

Module Resampler.

(** Arithmetic on numbers is binary64 arithmetic, rounding to nearest even. *)
Definition Fadd : number -> number -> number := SFadd 53 1024.
Definition Fsub : number -> number -> number := SFsub 53 1024.
Definition Fmul : number -> number -> number := SFmul 53 1024.
Definition Fdiv : number -> number -> number := SFdiv 53 1024.

(** The number whose value is the integer [z]. *)
Definition of_Z (z : Z) : number := binary_normalize 53 1024 z 0 false.

(** The integer mantissa of a finite number, with its sign. *)
Definition signed (s : bool) (m : positive) : Z := if s then Zneg m else Zpos m.

(** [Math.floor] of a finite number, as an integer: the value is
    [signed s m * 2^e], and [Z.shiftl] by a negative amount rounds down.
    It is only applied to finite values here. *)
Definition Math_floor (x : number) : Z :=
  match x with
  | S754_finite s m e => Z.shiftl (signed s m) e
  | _ => 0
  end.

(** The integer a number denotes, if it denotes one. *)
Definition to_integer (x : number) : option Z :=
  match x with
  | S754_zero _ => Some 0
  | S754_finite s m e =>
      if 0 <=? e then Some (Z.shiftl (signed s m) e)
      else if Z.land (Zpos m) (Z.ones (- e)) =? 0
           then Some (Z.shiftl (signed s m) e) else None
  | _ => None
  end.

(** [Math.min(a, b)]. *)
Definition Math_min (a b : number) : number :=
  match SFcompare a b with
  | Some Lt => a
  | Some Gt => b
  | Some Eq => match a with S754_zero true => a | _ => b end
  | None => S754_nan
  end.

(** Storing a number into a [Float32Array] rounds it to binary32. *)
Definition Math_fround (x : number) : number :=
  match x with
  | S754_finite s m e => binary_round 24 128 s m e
  | _ => x
  end.

Definition INPUT_SAMPLE_RATE : number := of_Z 24000.
Definition TARGET_SAMPLE_RATE : number := of_Z 16000.

(** [buf.readInt16LE(offset)]: throws when [offset] is not an integer or
    does not leave two bytes to read. *)
Definition readInt16LE (buf : list Byte.byte) (offset : number) : option Z :=
  match to_integer offset with
  | Some o =>
      if (0 <=? o) && (o + 2 <=? Z.of_nat (List.length buf)) then
        match nth_error buf (Z.to_nat o), nth_error buf (Z.to_nat o + 1) with
        | Some lo, Some hi =>
            let u := Z.of_N (Byte.to_N lo) + 256 * Z.of_N (Byte.to_N hi) in
            Some (if u <? 32768 then u else u - 65536)
        | _, _ => None
        end
      else None
  | None => None
  end.

(** One turn of the loop: the sample stored at index [i]. *)
Definition sample (pcmInt16Buffer : list Byte.byte)
    (numInputSamples ratio : number) (i : Z) : option number :=
  let srcIdx := Fdiv (of_Z i) ratio in
  let idx0 := of_Z (Math_floor srcIdx) in
  let idx1 := Math_min (Fadd idx0 (of_Z 1)) (Fsub numInputSamples (of_Z 1)) in
  let frac := Fsub srcIdx idx0 in
  match readInt16LE pcmInt16Buffer (Fmul idx0 (of_Z 2)) with
  | None => None
  | Some r0 =>
      let s0 := Fdiv (of_Z r0) (of_Z 32768) in
      match readInt16LE pcmInt16Buffer (Fmul idx1 (of_Z 2)) with
      | None => None
      | Some r1 =>
          let s1 := Fdiv (of_Z r1) (of_Z 32768) in
          Some (Math_fround (Fadd s0 (Fmul (Fsub s1 s0) frac)))
      end
  end.

(** The loop, from index [i], for [n] more turns; [None] when a read throws. *)
Fixpoint fill (pcmInt16Buffer : list Byte.byte)
    (numInputSamples ratio : number) (i : Z) (n : nat) : option (list number) :=
  match n with
  | O => Some []
  | S n' =>
      match sample pcmInt16Buffer numInputSamples ratio i with
      | None => None
      | Some x =>
          match fill pcmInt16Buffer numInputSamples ratio (i + 1) n' with
          | None => None
          | Some xs => Some (x :: xs)
          end
      end
  end.

Definition numInputSamples (pcmInt16Buffer : list Byte.byte) : number :=
  Fdiv (of_Z (Z.of_nat (List.length pcmInt16Buffer))) (of_Z 2).

Definition ratio : number := Fdiv TARGET_SAMPLE_RATE INPUT_SAMPLE_RATE.

Definition numOutputSamples (pcmInt16Buffer : list Byte.byte) : Z :=
  Math_floor (Fmul (numInputSamples pcmInt16Buffer) ratio).

(** [resampleAndConvertToFloat32]: the contents of the [Float32Array] the
    returned Buffer wraps (four bytes per sample), or [None] when a read
    throws. *)
Definition resampleAndConvertToFloat32 (pcmInt16Buffer : list Byte.byte)
  : option (list number) :=
  fill pcmInt16Buffer (numInputSamples pcmInt16Buffer) ratio 0
       (Z.to_nat (numOutputSamples pcmInt16Buffer)).

End Resampler.

(* ===================================================================== *)
(** * Binary64 numbers in closed form *)
(* ===================================================================== *)

(** The notions in which the resampler's arithmetic is analysed: every index
    the loop computes is an integer or a half-integer, which binary64
    represents exactly. *)
Module Binary64.
Import Resampler.

(** The number of binary digits of a positive integer. *)
Definition digits (z : Z) : Z := Z.log2 z + 1.

(** The binary64 number of value [m * 2^e], for a positive [m] of at most 53
    significant bits: mantissa normalised to 53 digits. *)
Definition enc (m e : Z) : number :=
  S754_finite false (Z.to_pos (Z.shiftl m (53 - digits m))) (e + digits m - 53).

(** Round [m] to a multiple of [2^n], to nearest, ties to even; the result
    is the multiple divided by [2^n]. *)
Definition rne (m n : Z) : Z :=
  let q := m / 2 ^ n in
  match 2 * (m mod 2 ^ n) ?= 2 ^ n with
  | Lt => q
  | Gt => q + 1
  | Eq => if Z.even q then q else q + 1
  end.

(** The normalised mantissa of [enc]. *)
Definition mant (m : Z) : Z := m * 2 ^ (53 - digits m).

(** [readInt16LE] at an integer offset. *)
Definition int16_at (buf : list Byte.byte) (o : Z) : option Z :=
  if (0 <=? o) && (o + 2 <=? Z.of_nat (List.length buf)) then
    match nth_error buf (Z.to_nat o), nth_error buf (Z.to_nat o + 1) with
    | Some lo, Some hi =>
        let u := Z.of_N (Byte.to_N lo) + 256 * Z.of_N (Byte.to_N hi) in
        Some (if u <? 32768 then u else u - 65536)
    | _, _ => None
    end
  else None.

(** The value stored at index [i], from the two samples read. *)
Definition mix (r0 r1 i : Z) : number :=
  let srcIdx := Fdiv (of_Z i) ratio in
  let idx0 := of_Z (Math_floor srcIdx) in
  let frac := Fsub srcIdx idx0 in
  let s0 := Fdiv (of_Z r0) (of_Z 32768) in
  let s1 := Fdiv (of_Z r1) (of_Z 32768) in
  Math_fround (Fadd s0 (Fmul (Fsub s1 s0) frac)).

(** An odd-length buffer of three bytes: the sample 0x4000 and a stray byte. *)
Definition three_bytes : list Byte.byte := [Byte.x00; Byte.x40; Byte.x00].

End Binary64.

(* ===================================================================== *)
(** * The session: state and handlers *)
(* ===================================================================== *)

Module Session.

(** The fields of [WhisperSTTSession], then what the closures created by
    [initialize] share: the timer, the promise [initialize] awaits, and the
    promise [initialize] itself returns.  [ws] is [None] for [null] and
    otherwise holds the socket's [readyState]. *)
Record t := {
  model : jsstring;
  sessionId : jsstring;
  ws : option readyState;
  isRunning : bool;
  serverReady : bool;
  uid : jsstring;
  emittedCompletedCount : nat;
  lastEmittedText : jsstring;
  timeout : bool;                    (* the 10000 ms timer is still armed *)
  connection : promise bool;         (* new Promise((resolve, reject) => ...) *)
  initialized : promise bool         (* the promise initialize() returned *)
}.

Definition set_ws (v : option readyState) (s : t) : t :=
  {| model := model s; sessionId := sessionId s; ws := v;
     isRunning := isRunning s; serverReady := serverReady s; uid := uid s;
     emittedCompletedCount := emittedCompletedCount s;
     lastEmittedText := lastEmittedText s; timeout := timeout s;
     connection := connection s; initialized := initialized s |}.

Definition set_isRunning (v : bool) (s : t) : t :=
  {| model := model s; sessionId := sessionId s; ws := ws s;
     isRunning := v; serverReady := serverReady s; uid := uid s;
     emittedCompletedCount := emittedCompletedCount s;
     lastEmittedText := lastEmittedText s; timeout := timeout s;
     connection := connection s; initialized := initialized s |}.

Definition set_serverReady (v : bool) (s : t) : t :=
  {| model := model s; sessionId := sessionId s; ws := ws s;
     isRunning := isRunning s; serverReady := v; uid := uid s;
     emittedCompletedCount := emittedCompletedCount s;
     lastEmittedText := lastEmittedText s; timeout := timeout s;
     connection := connection s; initialized := initialized s |}.

Definition set_emittedCompletedCount (v : nat) (s : t) : t :=
  {| model := model s; sessionId := sessionId s; ws := ws s;
     isRunning := isRunning s; serverReady := serverReady s; uid := uid s;
     emittedCompletedCount := v;
     lastEmittedText := lastEmittedText s; timeout := timeout s;
     connection := connection s; initialized := initialized s |}.

Definition set_lastEmittedText (v : jsstring) (s : t) : t :=
  {| model := model s; sessionId := sessionId s; ws := ws s;
     isRunning := isRunning s; serverReady := serverReady s; uid := uid s;
     emittedCompletedCount := emittedCompletedCount s;
     lastEmittedText := v; timeout := timeout s;
     connection := connection s; initialized := initialized s |}.

Definition set_timeout (v : bool) (s : t) : t :=
  {| model := model s; sessionId := sessionId s; ws := ws s;
     isRunning := isRunning s; serverReady := serverReady s; uid := uid s;
     emittedCompletedCount := emittedCompletedCount s;
     lastEmittedText := lastEmittedText s; timeout := v;
     connection := connection s; initialized := initialized s |}.

Definition set_connection (v : promise bool) (s : t) : t :=
  {| model := model s; sessionId := sessionId s; ws := ws s;
     isRunning := isRunning s; serverReady := serverReady s; uid := uid s;
     emittedCompletedCount := emittedCompletedCount s;
     lastEmittedText := lastEmittedText s; timeout := timeout s;
     connection := v; initialized := initialized s |}.

Definition set_initialized (v : promise bool) (s : t) : t :=
  {| model := model s; sessionId := sessionId s; ws := ws s;
     isRunning := isRunning s; serverReady := serverReady s; uid := uid s;
     emittedCompletedCount := emittedCompletedCount s;
     lastEmittedText := lastEmittedText s; timeout := timeout s;
     connection := connection s; initialized := v |}.

(** [constructor(model, whisperService, sessionId)], with the [sessionId]
    the provider passes. *)
Definition new (model sessionId : jsstring) : t :=
  {| model := model; sessionId := sessionId; ws := None;
     isRunning := false; serverReady := false; uid := sessionId;
     emittedCompletedCount := 0%nat; lastEmittedText := [];
     timeout := false; connection := Pending; initialized := Pending |}.

(** ** A monad for method bodies

    A body runs on the session, performs actions, and either returns or
    throws. *)
Inductive completion (A : Type) :=
| Return (a : A)
| Throw (e : js_error).
Arguments Return {A} a.
Arguments Throw {A} e.

Definition M (A : Type) : Type := t -> completion A * t * list action.

Definition ret {A} (a : A) : M A := fun s => (Return a, s, []).

Definition throw {A} (e : js_error) : M A := fun s => (Throw e, s, []).

Definition bind {A B} (m : M A) (k : A -> M B) : M B :=
  fun s =>
    match m s with
    | (Return a, s1, tr1) =>
        match k a s1 with
        | (r, s2, tr2) => (r, s2, tr1 ++ tr2)
        end
    | (Throw e, s1, tr1) => (Throw e, s1, tr1)
    end.

(** [try { m } catch (e) { h e }]. *)
Definition try_catch {A} (m : M A) (h : js_error -> M A) : M A :=
  fun s =>
    match m s with
    | (Return a, s1, tr1) => (Return a, s1, tr1)
    | (Throw e, s1, tr1) =>
        match h e s1 with
        | (r, s2, tr2) => (r, s2, tr1 ++ tr2)
        end
    end.

Definition get : M t := fun s => (Return s, s, []).
Definition modify (f : t -> t) : M unit := fun s => (Return tt, f s, []).
Definition perform (a : action) : M unit := fun s => (Return tt, s, [a]).

Declare Scope js_scope.
Delimit Scope js_scope with js.
Notation "x <- m ;; k" := (bind m (fun x => k))
  (at level 61, m at next level, right associativity) : js_scope.
Notation "m ;; k" := (bind m (fun _ => k))
  (at level 61, right associativity) : js_scope.
Open Scope js_scope.

Definition when (b : bool) (m : M unit) : M unit := if b then m else ret tt.

Fixpoint for_of {A} (l : list A) (body : A -> M unit) : M unit :=
  match l with
  | [] => ret tt
  | a :: l' => body a ;; for_of l' body
  end.

(** A call of an [async] function that is not awaited: the body runs, and
    an exception ends up in the promise the call returns, not in the caller. *)
Definition not_awaited (m : M unit) : M unit := try_catch m (fun _ => ret tt).

(** ** Socket calls *)

Definition ws_send (E : env) (f : frame) : M unit :=
  s <- get ;;
  match ws s with
  | None => throw TypeError
  | Some _ =>
      perform (WsSend f) ;;
      match send_throws E f with Some e => throw e | None => ret tt end
  end.

Definition ws_close (E : env) : M unit :=
  s <- get ;;
  match ws s with
  | None => throw TypeError
  | Some _ =>
      perform WsClose ;;
      match close_throws E with Some e => throw e | None => ret tt end
  end.

(** [this.emit(name, payload)]. *)
Definition emit (E : env) (e : event) : M unit :=
  perform (Emit e) ;;
  match e with
  | error err => if unhandled_error E then throw err else ret tt
  | _ => ret tt
  end.

(** ** Settling the promise [initialize] awaits *)

Definition resolve (v : bool) : M unit :=
  modify (fun s => match connection s with
                   | Pending => set_connection (Fulfilled v) s
                   | _ => s
                   end).

Definition reject (e : js_error) : M unit :=
  modify (fun s => match connection s with
                   | Pending => set_connection (Rejected e) s
                   | _ => s
                   end).

Definition clearTimeout : M unit :=
  perform ClearTimeout ;; modify (set_timeout false).

(** ** Methods *)

Definition _mapModelName (model : jsstring) : jsstring :=
  if jsstring_eqb model (str "whisper-tiny") then str "tiny"
  else if jsstring_eqb model (str "whisper-base") then str "base"
  else if jsstring_eqb model (str "whisper-small") then str "small"
  else if jsstring_eqb model (str "whisper-medium") then str "medium"
  else str "small".

Definition equals (field : option jsstring) (literal : string) : bool :=
  match field with
  | Some v => jsstring_eqb v (str literal)
  | None => false
  end.

Definition close (E : env) : M unit :=
  modify (set_isRunning false) ;;
  s <- get ;;
  match ws s with
  | Some state =>
      try_catch
        (when (match state with OPEN => true | _ => false end)
              (ws_send E END_OF_AUDIO) ;;
         ws_close E)
        (fun _ => ret tt) ;;
      modify (set_ws None)
  | None => ret tt
  end ;;
  perform RemoveAllListeners.

(** The body of [for (const seg of newCompleted)]. *)
Definition emitSegment (E : env) (seg : Segment.t) : M unit :=
  let text := trim (match Segment.text seg with Some x => x | None => [] end) in
  s <- get ;;
  if truthy text && negb (jsstring_eqb text (lastEmittedText s)) then
    modify (set_lastEmittedText text) ;;
    emit E (transcription
            {| Transcription.text := text;
               Transcription.timestamp := Date_now E;
               Transcription.confidence := Resampler.of_Z 1;
               Transcription.sessionId := sessionId s;
               Transcription.start := Segment.start seg;
               Transcription.end_ := Segment.end_ seg |})
  else ret tt.

Definition _handleServerMessage (E : env) (msg : Msg.t) : M unit :=
  if equals (Msg.message msg) "SERVER_READY" then ret tt
  else if equals (Msg.status msg) "WAIT" then ret tt
  else if equals (Msg.message msg) "DISCONNECT" then not_awaited (close E)
  else
    match Msg.segments msg with
    | Some ((_ :: _) as segments) =>
        let completedSegments := filter Segment.completed segments in
        s <- get ;;
        let newCompleted := skipn (emittedCompletedCount s) completedSegments in
        for_of newCompleted (emitSegment E) ;;
        modify (set_emittedCompletedCount (List.length completedSegments))
    | _ => ret tt
    end.

Definition sendRealtimeInput (E : env) (audioData0 : audioData) : M unit :=
  s <- get ;;
  if negb (isRunning s)
     || match ws s with Some OPEN => false | _ => true end
  then ret tt
  else
    let audioData :=
      match audioData0 with
      | Base64 text => Buffer_from_base64 E text
      | Binary b => b
      end in
    match audioData with
    | [] => ret tt
    | _ :: _ =>
        match Resampler.resampleAndConvertToFloat32 audioData with
        | None => throw RangeError
        | Some float32Buf =>
            try_catch (ws_send E (Audio float32Buf)) (fun _ => ret tt)
        end
    end.

(** ** The handlers [initialize] installs *)

Definition on_open (E : env) : M unit :=
  clearTimeout ;;
  s <- get ;;
  ws_send E (Config (uid s) (str "en") (str "transcribe")
                    (_mapModelName (model s)) true).

(** [data] is [None] when [JSON.parse] throws. *)
Definition on_message (E : env) (data : option Msg.t) : M unit :=
  try_catch
    (match data with
     | None => throw TypeError
     | Some msg =>
         _handleServerMessage E msg ;;
         when (equals (Msg.message msg) "SERVER_READY")
              (modify (set_isRunning true) ;;
               modify (set_serverReady true) ;;
               clearTimeout ;;
               resolve true)
     end)
    (fun _ => ret tt).

Definition on_error (E : env) (err : js_error) : M unit :=
  clearTimeout ;;
  emit E (error err) ;;
  s <- get ;;
  when (negb (serverReady s)) (reject err).

Definition on_close (E : env) (code : Z) (reason : option jsstring) : M unit :=
  clearTimeout ;;
  modify (set_isRunning false) ;;
  modify (set_serverReady false) ;;
  emit E (closed code reason) ;;
  s <- get ;;
  when (negb (serverReady s)) (reject (WebSocketClosed code)).

(** The callback of [setTimeout]; it runs only while the timer is armed. *)
Definition on_timeout : M unit :=
  s <- get ;;
  when (timeout s) (modify (set_timeout false) ;; reject ConnectionTimeout).

(** [catch (error) { this.emit('error', error); return false; }] *)
Definition initialize_catch (E : env) (e : js_error) : M bool :=
  emit E (error e) ;; ret false.

(** Where [initialize] stops at its second [await]: the part of the [try]
    block up to the construction of the promise and the run of its executor.
    The first [await] (of [startLiveServer]) is taken in one step. *)
Definition initialize_connect (svc : service) : M unit :=
  (if isLiveServerRunning svc then ret tt
   else perform StartLiveServer ;;
        match startLiveServer svc with Some e => throw e | None => ret tt end) ;;
  let port := getLiveServerPort svc in
  perform SetTimeout ;;
  modify (set_timeout true) ;;
  perform (WsNew port) ;;
  modify (set_ws (Some CONNECTING)).

(** Settle the promise [initialize] returned with what a body produced. *)
Definition settle_initialized (m : M bool) : M unit :=
  fun s =>
    match m s with
    | (Return v, s1, tr) => (Return tt, set_initialized (Fulfilled v) s1, tr)
    | (Throw e, s1, tr) => (Return tt, set_initialized (Rejected e) s1, tr)
    end.

(** [initialize] resumes once the awaited promise is settled:
    [return await ...] hands on the value, a rejection enters the [catch]. *)
Definition initialize_resume (E : env) : M unit :=
  s <- get ;;
  match initialized s, connection s with
  | Pending, Fulfilled v => settle_initialized (ret v)
  | Pending, Rejected e => settle_initialized (initialize_catch E e)
  | _, _ => ret tt
  end.

(** The call [initialize()], up to the point where it waits for events. *)
Definition initialize (E : env) (svc : service) : M unit :=
  fun s =>
    match initialize_connect svc s with
    | (Return _, s1, tr) => (Return tt, s1, tr)
    | (Throw e, s1, tr) =>
        match settle_initialized (initialize_catch E e) s1 with
        | (r, s2, tr2) => (r, s2, tr ++ tr2)
        end
    end.

(** ** The event loop *)

Inductive input :=
| ev_open
| ev_message (data : option Msg.t)
| ev_error (err : js_error)
| ev_close (code : Z) (reason : option jsstring)
| ev_timeout                                   (* 10000 ms have passed *)
| call_initialize (svc : service)
| call_sendRealtimeInput (audioData0 : audioData)
| call_close.

(** The socket's own [readyState] moves before its event is delivered. *)
Definition socket_moves (i : input) (s : t) : t :=
  match i, ws s with
  | ev_open, Some _ => set_ws (Some OPEN) s
  | ev_close _ _, Some _ => set_ws (Some CLOSED) s
  | _, _ => s
  end.

Definition handler (E : env) (i : input) : M unit :=
  match i with
  | ev_open => on_open E
  | ev_message data => on_message E data
  | ev_error err => on_error E err
  | ev_close code reason => on_close E code reason
  | ev_timeout => on_timeout
  | call_initialize svc => initialize E svc
  | call_sendRealtimeInput a => sendRealtimeInput E a
  | call_close => close E
  end.

(** One turn: the handler runs to completion, then [initialize] resumes if
    the promise it awaits has been settled. *)
Definition step (E : env) (i : input) : M unit :=
  fun s =>
    match handler E i (socket_moves i s) with
    | (r, s1, tr1) =>
        match initialize_resume E s1 with
        | (_, s2, tr2) => (r, s2, tr1 ++ tr2)
        end
    end.

(** A run: the state reached and everything done on the way. *)
Fixpoint run (s : t) (ins : list (env * input)) : t * list action :=
  match ins with
  | [] => (s, [])
  | (E, i) :: rest =>
      match step E i s with
      | (_, s1, tr1) =>
          match run s1 rest with
          | (s2, tr2) => (s2, tr1 ++ tr2)
          end
      end
  end.

(** The texts of the transcription events in a trace, in order. *)
Fixpoint transcriptions (tr : list action) : list jsstring :=
  match tr with
  | [] => []
  | Emit (transcription p) :: tr' => Transcription.text p :: transcriptions tr'
  | _ :: tr' => transcriptions tr'
  end.

End Session.

(* ===================================================================== *)
(** * Notions the statements use *)
(* ===================================================================== *)

Import Session.

(** The completed-filtered segment list of a message (empty when the message
    has no segment list). *)
Definition completedOf (msg : Msg.t) : list Segment.t :=
  match Msg.segments msg with
  | Some segments => filter Segment.completed segments
  | None => []
  end.

(** The message is one of the three control messages that
    [_handleServerMessage] returns on before it looks at the segments. *)
Definition isControl (msg : Msg.t) : bool :=
  equals (Msg.message msg) "SERVER_READY"
  || equals (Msg.status msg) "WAIT"
  || equals (Msg.message msg) "DISCONNECT".

(** Every element differs from the one before it, the first from [prev]. *)
Fixpoint chain (prev : jsstring) (l : list jsstring) : Prop :=
  match l with
  | [] => True
  | x :: r => x <> prev /\ chain x r
  end.

(** No two neighbours of the list are equal. *)
Fixpoint no_adjacent_dup (l : list jsstring) : Prop :=
  match l with
  | [] => True
  | x :: r => match r with [] => True | y :: _ => x <> y end /\ no_adjacent_dup r
  end.

(** The state and the trace of a computation. *)
Definition state_of {A} (x : completion A * Session.t * list action) : Session.t :=
  snd (fst x).
Definition trace_of {A} (x : completion A * Session.t * list action) : list action :=
  snd x.
Definition result_of {A} (x : completion A * Session.t * list action) : completion A :=
  fst (fst x).

(** The message shrinks the completed history the session has counted:
    it reaches the reconciler with a non-empty segment list whose completed
    part is shorter than [emittedCompletedCount]. *)
Definition shrinks (s : Session.t) (msg : Msg.t) : bool :=
  negb (isControl msg)
  && match Msg.segments msg with
     | Some ((_ :: _) as segments) =>
         (List.length (filter Segment.completed segments) <? emittedCompletedCount s)%nat
     | _ => false
     end.

(** ** Data of the scenarios *)

Definition segment (text : string) (completed : bool) (start end_ : Z) : Segment.t :=
  {| Segment.text := Some (str text);
     Segment.completed := completed;
     Segment.start := Resampler.of_Z start;
     Segment.end_ := Resampler.of_Z end_ |}.

(** [{segments: l}] *)
Definition segments_message (l : list Segment.t) : Msg.t :=
  {| Msg.message := None; Msg.status := None;
     Msg.segments := Some l; Msg.language := None |}.

Definition scenarioB_first : Msg.t :=
  segments_message [segment "hi" true 0 1].

Definition scenarioB_second : Msg.t :=
  segments_message [segment "hi" true 0 1; segment "there" true 1 2].

(** A runtime in which no socket call throws and 'error' has a listener. *)
Definition calm : env :=
  {| Date_now := 0;
     send_throws := fun _ => None;
     close_throws := None;
     unhandled_error := false;
     Buffer_from_base64 := fun _ => [] |}.

(** The same runtime with no listener for 'error', as it is while the
    provider's [createSTT] awaits [initialize]. *)
Definition unheard : env :=
  {| Date_now := 0;
     send_throws := fun _ => None;
     close_throws := None;
     unhandled_error := true;
     Buffer_from_base64 := fun _ => [] |}.

(** A service that is already running. *)
Definition running_service : service :=
  {| isLiveServerRunning := true; startLiveServer := None;
     getLiveServerPort := 9090 |}.

Definition session0 : Session.t := Session.new (str "whisper-base") (str "s1").

(** ** Lifecycle notions *)

(** [isRunning] is only ever set together with [serverReady]. *)
Definition running_implies_ready (s : Session.t) : Prop :=
  isRunning s = true -> serverReady s = true.

Definition keeps_running_implies_ready
  : Session.t -> list action -> Session.t -> Prop :=
  fun s _ s' => running_implies_ready s -> running_implies_ready s'.

(** The turn delivers the readiness message. *)
Definition delivers_ready (i : input) : bool :=
  match i with
  | ev_message (Some msg) => equals (Msg.message msg) "SERVER_READY"
  | _ => false
  end.

Definition stays_unready : Session.t -> list action -> Session.t -> Prop :=
  fun s _ s' => serverReady s = false -> serverReady s' = false.

(** [initialize] is waiting for the connection promise. *)
Definition awaiting (s : Session.t) : Prop :=
  connection s = Pending /\ initialized s = Pending /\ serverReady s = false.

(** The inputs that make a pending initialization fail, with the cause. *)
Inductive failure (s : Session.t) : input -> js_error -> Prop :=
| failure_error (err : js_error) :
    failure s (ev_error err) err
| failure_close (code : Z) (reason : option jsstring) :
    failure s (ev_close code reason) (WebSocketClosed code)
| failure_timeout :
    timeout s = true -> failure s ev_timeout ConnectionTimeout.

(** The promise [initialize] returned has not been rejected. *)
Definition not_rejected (s : Session.t) : Prop :=
  forall e, initialized s <> Rejected e.

(** A body respects a relation between the state before, the trace and the
    state after. *)
Definition respects (R : Session.t -> list action -> Session.t -> Prop)
    {A} (m : M A) : Prop :=
  forall s, R s (trace_of (m s)) (state_of (m s)).

(** What a body does to [lastEmittedText]: it ends as the last text emitted,
    and the texts emitted form a chain from the text it started with. *)
Definition extends_chain (s : Session.t) (tr : list action) (s' : Session.t) : Prop :=
  lastEmittedText s' = last (transcriptions tr) (lastEmittedText s)
  /\ chain (lastEmittedText s) (transcriptions tr).

(** A body leaves a component of the session as it found it. *)
Definition keeps {X} (f : Session.t -> X)
  : Session.t -> list action -> Session.t -> Prop :=
  fun s _ s' => f s' = f s.

(** A body emits no transcription event. *)
Definition silent : Session.t -> list action -> Session.t -> Prop :=
  fun _ tr _ => transcriptions tr = [].

(* ===================================================================== *)
(** * The provider of sessions *)
(* ===================================================================== *)

(** [WhisperProvider]: [initialize] and [createSTT]. *)
Module Provider.

(** [config.callbacks]: which of the three callbacks are given. *)
Record callbacks := {
  onmessage : bool;
  onerror : bool;
  onclose : bool
}.

(** The argument of [createSTT].  A string that is missing is [None]. *)
Record config := {
  model : option jsstring;
  sessionType : option jsstring;
  callbacks_ : option callbacks
}.

(** [x || d] on a string that may be missing: the empty string is falsy. *)
Definition or_else (x : option jsstring) (d : string) : jsstring :=
  match x with
  | Some (c :: r) => c :: r
  | _ => str d
  end.

(** The module [whisperService] as the provider sees it: its flag
    [isInitialized] and whether its [initialize()] rejects. *)
Record whisper := {
  isInitialized : bool;
  initialize_rejects : option js_error
}.

(** The field [this.whisperService]: [false] for [null]. *)
Record t := { whisperService : bool }.

Definition new : t := {| whisperService := false |}.

(** [initialize()]: the result, the provider, and whether
    [whisperService.initialize()] was called. *)
Definition initialize (W : whisper) (p : t) : completion unit * t * bool :=
  if whisperService p then (Return tt, p, false)
  else
    let p' := {| whisperService := true |} in
    if isInitialized W then (Return tt, p', false)
    else
      match initialize_rejects W with
      | Some e => (Throw e, p', true)
      | None => (Return tt, p', true)
      end.

(** [`${sessionType}_${Date.now()}_${random}`]; [random] stands for
    [Math.random().toString(36).substr(2, 6)]. *)
Definition sessionId_of (sessionType : jsstring) (now : Z) (random : jsstring) : jsstring :=
  sessionType ++ str "_" ++ str (NilZero.string_of_int (Z.to_int now))
              ++ str "_" ++ random.

(** [await session.initialize()]: the turns of the session go by until the
    promise is settled. *)
Fixpoint await (s : Session.t) (events : list (env * input)) : Session.t :=
  match initialized s, events with
  | Pending, (E, i) :: rest => await (state_of (step E i s)) rest
  | _, _ => s
  end.

(** How a call of [createSTT] ends. *)
Inductive outcome :=
| Waiting                                    (* still awaiting [initialize] *)
| Created (session : Session.t) (listeners : callbacks)
| Failed_to_initialize      (* new Error('Failed to initialize Whisper STT session') *)
| Raised (e : js_error).    (* an awaited promise rejected *)

Definition listeners_of (cfg : config) : callbacks :=
  match callbacks_ cfg with
  | Some c => c
  | None => {| onmessage := false; onerror := false; onclose := false |}
  end.

(** [createSTT(config)].  [E] is the runtime at the call, [events] what
    happens to the session while [createSTT] awaits its initialization. *)
Definition createSTT (W : whisper) (svc : service) (cfg : config) (E : env)
    (random : jsstring) (events : list (env * input)) (p : t) : outcome * t :=
  match initialize W p with
  | (Throw e, p', _) => (Raised e, p')
  | (Return _, p', _) =>
      let model := or_else (model cfg) "whisper-tiny" in
      let sessionType := or_else (sessionType cfg) "unknown" in
      let sessionId := sessionId_of sessionType (Date_now E) random in
      let session := Session.new model sessionId in
      let s := await (state_of (step E (call_initialize svc) session)) events in
      (match initialized s with
       | Pending => Waiting
       | Fulfilled true => Created s (listeners_of cfg)
       | Fulfilled false => Failed_to_initialize
       | Rejected e => Raised e
       end, p')
  end.

End Provider.

(* ===================================================================== *)
(** * The Zen provider *)
(* ===================================================================== *)

(** [ZenProvider.validateApiKey], [createLLM] and [createStreamingLLM]: the
    requests they make and what they make of the answers. *)
Module Zen.

(** A value read from JSON. *)
#[local] Unset Elimination Schemes.
Inductive json :=
| JNull
| JBool (b : bool)
| JNumber (n : number)
| JString (s : jsstring)
| JArray (items : list json)
| JObject (fields : list (jsstring * json)).
#[local] Set Elimination Schemes.

(** A JavaScript value here is [undefined] ([None]) or a JSON value. *)
Definition value := option json.

Definition string_value (s : string) : value := Some (JString (str s)).

(** The value used as a condition. *)
Definition truthy (v : value) : bool :=
  match v with
  | None | Some JNull => false
  | Some (JBool b) => b
  | Some (JNumber (S754_zero _)) | Some (JNumber S754_nan) => false
  | Some (JNumber _) => true
  | Some (JString s) => JS.truthy s
  | Some (JArray _) | Some (JObject _) => true
  end.

(** [a || b] *)
Definition or_else (a b : value) : value := if truthy a then a else b.

Fixpoint assoc (k : jsstring) (fields : list (jsstring * json)) : value :=
  match fields with
  | [] => None
  | (k', v) :: rest => if jsstring_eqb k k' then Some v else assoc k rest
  end.

(** [x?.k] for the keys the code reads ("error", "message", "choices",
    "content"): none of them is a property of a string, a number, a boolean
    or an array, nor inherited by an object. *)
Definition get (k : string) (x : value) : value :=
  match x with
  | Some (JObject fields) => assoc (str k) fields
  | _ => None
  end.

(** [x?.[0]] *)
Definition item0 (x : value) : value :=
  match x with
  | Some (JArray items) => hd_error items
  | Some (JObject fields) => assoc (str "0") fields
  | Some (JString (c :: _)) => Some (JString [c])
  | _ => None
  end.

(** The decimal numeral of a status code. *)
Definition decimal (n : Z) : jsstring := str (NilZero.string_of_int (Z.to_int n)).

(** What [fetch] resolved to.  [json] is [None] when [response.json()]
    rejects. *)
Record response := {
  ok : bool;
  status : Z;
  statusText : jsstring;
  json_ : value
}.

Inductive item :=
| text_item (text : jsstring)              (* { type: 'text', text } *)
| image_url (url : jsstring).              (* { type: 'image_url', image_url: { url } } *)

Inductive message :=
| system (content : jsstring)              (* { role: 'system', content } *)
| user (content : list item).              (* { role: 'user', content } *)

(** The [messages] of a request: built by [generateContent], or whatever the
    caller of [chat] and [streamChat] passed. *)
Inductive messages :=
| Built (l : list message)
| Given (v : value).

(** The body of a chat request, before [JSON.stringify]. *)
Record body := {
  model : jsstring;
  messages_ : messages;
  temperature : number;
  max_tokens : number;
  stream : bool
}.

Inductive request :=
| GetModels (authorization : jsstring)                (* GET  .../zen/v1/models *)
| PostChat (authorization : jsstring) (b : body).     (* POST .../zen/v1/chat/completions *)

(** The argument of [createLLM] and [createStreamingLLM]; a field that is
    [undefined] is [None] and takes its default. *)
Record config := {
  apiKey : jsstring;
  model_ : option jsstring;
  temperature_ : option number;
  maxTokens : option number
}.

Definition bodyOf (cfg : config) (m : messages) (stream : bool) : body :=
  {| model := match model_ cfg with Some x => x | None => str "opencode/big-pickle" end;
     messages_ := m;
     temperature := match temperature_ cfg with
                    | Some x => x
                    | None => Resampler.Fdiv (Resampler.of_Z 7) (Resampler.of_Z 10)
                    end;
     max_tokens := match maxTokens cfg with Some x => x | None => Resampler.of_Z 2048 end;
     stream := stream |}.

(** [fetch] as the runtime provides it: [None] when it rejects. *)
Definition network := request -> option response.

(** [await response.json().catch(() => ({}))] *)
Definition errorData (r : response) : value :=
  match json_ r with
  | Some v => Some v
  | None => Some (JObject [])
  end.

(** [errorData?.error?.message || errorData?.message || fallback] *)
Definition errorMessage (r : response) (fallback : jsstring) : value :=
  or_else (get "message" (get "error" (errorData r)))
          (or_else (get "message" (errorData r)) (Some (JString fallback))).

Inductive validation :=
| Success                        (* { success: true } *)
| Failure (error : value).       (* { success: false, error } *)

(** [ZenProvider.validateApiKey(key)]: the result and the requests made. *)
Definition validateApiKey (fetch : network) (key : value) : validation * list request :=
  match key with
  | Some (JString k) =>
      if jsstring_eqb (trim k) [] then
        (Failure (string_value "API key cannot be empty."), [])
      else
        let req := GetModels (str "Bearer " ++ k) in
        match fetch req with
        | None =>
            (Failure (string_value "A network error occurred during validation."), [req])
        | Some r =>
            if ok r then (Success, [req])
            else
              (Failure (errorMessage r (str "Validation failed with status: "
                                         ++ decimal (status r))),
               [req])
        end
  | _ => (Failure (string_value "API key cannot be empty."), [])
  end.

(** Errors of [callApi] and [streamChat]. *)
Inductive zen_error :=
| ApiError (message : value)     (* new Error(`Zen API error: ${message}`) *)
| InvalidJson                    (* response.json() rejected *)
| TypeError_                     (* String(content) threw *)
| NetworkError.                  (* fetch rejected *)

(** [String(v)].  [ToString] is the runtime's conversion of a value that is
    not a string; it is [None] when the conversion throws. *)
Definition String_ (ToString : json -> option jsstring) (v : value) : option jsstring :=
  match v with
  | Some (JString s) => Some s
  | Some j => ToString j
  | None => Some (str "undefined")
  end.

(** [callApi(messages)] of [createLLM({ apiKey, ... })]: the content and the
    raw result, or the error thrown. *)
Definition callApi (ToString : json -> option jsstring) (fetch : network)
    (cfg : config) (m : messages)
  : (jsstring * json + zen_error) * list request :=
  let req := PostChat (str "Bearer " ++ apiKey cfg) (bodyOf cfg m false) in
  match fetch req with
  | None => (inr NetworkError, [req])
  | Some r =>
      if negb (ok r) then
        (inr (ApiError (errorMessage r (decimal (status r) ++ str " " ++ statusText r))),
         [req])
      else
        match json_ r with
        | None => (inr InvalidJson, [req])
        | Some result =>
            let content :=
              get "content" (get "message" (item0 (get "choices" (Some result)))) in
            match content with
            | Some (JString s) => (inl (trim s, result), [req])
            | _ =>
                match String_ ToString (or_else content (string_value "")) with
                | Some s => (inl (trim s, result), [req])
                | None => (inr TypeError_, [req])
                end
            end
        end
  end.

(** [streamChat(messages)] of [createStreamingLLM]. *)
Definition streamChat (fetch : network) (cfg : config) (m : value)
  : (response + zen_error) * list request :=
  let req := PostChat (str "Bearer " ++ apiKey cfg) (bodyOf cfg (Given m) true) in
  match fetch req with
  | None => (inr NetworkError, [req])
  | Some r =>
      if negb (ok r) then
        (inr (ApiError (errorMessage r (decimal (status r) ++ str " " ++ statusText r))),
         [req])
      else (inl r, [req])
  end.

(** An element of [parts]: a string, an object with [inlineData] (its
    [mimeType] and [data] as the template literal renders them), or anything
    else. *)
Inductive part :=
| Text (s : jsstring)
| InlineData (mimeType data : jsstring)
| Other.

Fixpoint startsWith (s pattern : jsstring) : bool :=
  match pattern, s with
  | [], _ => true
  | p :: pattern', c :: s' => N.eqb p c && startsWith s' pattern'
  | _ :: _, [] => false
  end.

(** [s.includes(pattern)] *)
Fixpoint includes (s pattern : jsstring) : bool :=
  startsWith s pattern
  || match s with
     | [] => false
     | _ :: s' => includes s' pattern
     end.

(** One turn of [for (const part of parts)], on [systemPrompt] and
    [userContent]. *)
Definition collect (acc : jsstring * list item) (p : part) : jsstring * list item :=
  let '(systemPrompt, userContent) := acc in
  match p with
  | Text s =>
      if jsstring_eqb systemPrompt [] && includes s (str "You are")
      then (s, userContent)
      else (systemPrompt, userContent ++ [text_item s])
  | InlineData mimeType data =>
      (systemPrompt,
       userContent ++ [image_url (str "data:" ++ mimeType ++ str ";base64," ++ data)])
  | Other => (systemPrompt, userContent)
  end.

(** The [messages] that [generateContent(parts)] hands to [callApi]. *)
Definition messagesOf (parts : list part) : list message :=
  let '(systemPrompt, userContent) := fold_left collect parts ([], []) in
  (if JS.truthy systemPrompt then [system systemPrompt] else [])
  ++ (match userContent with [] => [] | _ :: _ => [user userContent] end).

(** [generateContent(parts)]: the text of the answer and the raw result. *)
Definition generateContent (ToString : json -> option jsstring) (fetch : network)
    (cfg : config) (parts : list part)
  : (jsstring * json + zen_error) * list request :=
  callApi ToString fetch cfg (Built (messagesOf parts)).

(** [chat(messages)] *)
Definition chat (ToString : json -> option jsstring) (fetch : network)
    (cfg : config) (m : value)
  : (jsstring * json + zen_error) * list request :=
  callApi ToString fetch cfg (Given m).

End Zen.

(** The key is not a string, or holds white space only. *)
Definition blank (key : Zen.value) : bool :=
  match key with
  | Some (Zen.JString k) => forallb isWhiteSpace k
  | _ => true
  end.

(** The part becomes the system prompt if none is set. *)
Definition is_prompt (p : Zen.part) : bool :=
  match p with
  | Zen.Text s => Zen.includes s (str "You are")
  | _ => false
  end.

(** The items a part contributes to the user message. *)
Definition itemsOf (p : Zen.part) : list Zen.item :=
  match p with
  | Zen.Text s => [Zen.text_item s]
  | Zen.InlineData mimeType data =>
      [Zen.image_url (str "data:" ++ mimeType ++ str ";base64," ++ data)]
  | Zen.Other => []
  end.

(** [if (userContent.length > 0) messages.push({ role: 'user', ... })] *)
Definition user_message (l : list Zen.item) : list Zen.message :=
  match l with
  | [] => []
  | _ :: _ => [Zen.user l]
  end.

(* ===================================================================== *)
(** * The preset repositories *)
(* ===================================================================== *)

(** The repository on SQLite: each function by the statement it runs. *)
Module Presets.

(** A row of the table [prompt_presets], by the columns the statements name. *)
Record row := {
  id : jsstring;
  uid : jsstring;
  title : jsstring;
  prompt : jsstring;
  is_default : Z;
  created_at : Z;
  sync_state : jsstring
}.

(** The table, in the order of insertion. *)
Definition table := list row.

(** What a call returns or throws. *)
Inductive result (A : Type) :=
| Returns (a : A)
| Throws_not_found.      (* new Error("Preset not found or permission denied.") *)
Arguments Returns {A} a.
Arguments Throws_not_found {A}.

(** [WHERE id = ? AND uid = ?] *)
Definition selected (id0 uid0 : jsstring) (r : row) : bool :=
  jsstring_eqb (id r) id0 && jsstring_eqb (uid r) uid0.

Section Collation.

(** The order of the column [title] that [ORDER BY title ASC] sorts by. *)
Variable title_leb : jsstring -> jsstring -> bool.

Fixpoint insert (r : row) (l : list row) : list row :=
  match l with
  | [] => [r]
  | x :: l' => if title_leb (title r) (title x) then r :: l else x :: insert r l'
  end.

Definition order_by_title (l : list row) : list row := fold_right insert [] l.

(** [getPresets(uid)]:
    [SELECT * FROM prompt_presets WHERE uid = ? ORDER BY title ASC] *)
Definition getPresets (uid0 : jsstring) (db : table) : list row :=
  order_by_title (filter (fun r => jsstring_eqb (uid r) uid0) db).

End Collation.

(** [getPresetTemplates()] *)
Definition getPresetTemplates : list row := [].

(** [create({ uid, title, prompt })]; [presetId] is what [randomUUID()]
    returned and [now] is [Date.now()]:
    [INSERT INTO prompt_presets (id, uid, title, prompt, is_default,
     created_at, sync_state) VALUES (?, ?, ?, ?, 0, ?, 'dirty')] *)
Definition create (presetId : jsstring) (now : Z) (uid0 title0 prompt0 : jsstring)
    (db : table) : jsstring * table :=
  (presetId,
   db ++ [{| id := presetId; uid := uid0; title := title0; prompt := prompt0;
             is_default := 0; created_at := now / 1000;
             sync_state := str "dirty" |}]).

(** [SET title = ?, prompt = ?, sync_state = 'dirty'] *)
Definition set_title_prompt (title0 prompt0 : jsstring) (r : row) : row :=
  {| id := id r; uid := uid r; title := title0; prompt := prompt0;
     is_default := is_default r; created_at := created_at r;
     sync_state := str "dirty" |}.

(** [update(id, { title, prompt }, uid)]:
    [UPDATE prompt_presets SET title = ?, prompt = ?, sync_state = 'dirty'
     WHERE id = ? AND uid = ?] *)
Definition update (id0 title0 prompt0 uid0 : jsstring) (db : table)
  : result nat * table :=
  let db' := map (fun r => if selected id0 uid0 r
                           then set_title_prompt title0 prompt0 r else r) db in
  let changes := List.length (filter (selected id0 uid0) db) in
  (if Nat.eqb changes 0 then Throws_not_found else Returns changes, db').

(** [delete(id, uid)]:
    [DELETE FROM prompt_presets WHERE id = ? AND uid = ?] *)
Definition del (id0 uid0 : jsstring) (db : table) : result nat * table :=
  let db' := filter (fun r => negb (selected id0 uid0 r)) db in
  let changes := List.length (filter (selected id0 uid0) db) in
  (if Nat.eqb changes 0 then Throws_not_found else Returns changes, db').

End Presets.

(** Code units compared one by one, as the collation BINARY does for text
    without surrogate pairs. *)
Fixpoint binary_leb (a b : jsstring) : bool :=
  match a, b with
  | [], _ => true
  | _ :: _, [] => false
  | x :: a', y :: b' => (x <? y)%N || ((x =? y)%N && binary_leb a' b')
  end.

(** One user's operation on the table. *)
Inductive operation :=
| op_create (presetId : jsstring) (now : Z) (title prompt : jsstring)
| op_update (id title prompt : jsstring)
| op_delete (id : jsstring).

Definition run_operation (uid : jsstring) (o : operation) (db : Presets.table) : Presets.table :=
  match o with
  | op_create presetId now title prompt =>
      snd (Presets.create presetId now uid title prompt db)
  | op_update id title prompt => snd (Presets.update id title prompt uid db)
  | op_delete id => snd (Presets.del id uid db)
  end.

(** The rows are in the order of their titles. *)
Definition by_title (title_leb : jsstring -> jsstring -> bool) (a b : Presets.row) : Prop :=
  title_leb (Presets.title a) (Presets.title b) = true.

(** Data of the examples. *)
Definition preset (id uid title : string) : Presets.row :=
  {| Presets.id := str id; Presets.uid := str uid; Presets.title := str title;
     Presets.prompt := []; Presets.is_default := 0; Presets.created_at := 0;
     Presets.sync_state := str "clean" |}.

Definition two_users : Presets.table :=
  [preset "1" "ann" "zebra"; preset "2" "bob" "mole"; preset "3" "ann" "ant"].

(** The repository on Firestore: [update] and [delete] read the document and
    check its owner before they write.  The converter of the collection
    encrypts [prompt] and [title] only, so [data().uid] is the [uid] stored. *)
Module FirestorePresets.

(** A document of the collection [prompt_presets] as it is stored: [title]
    and [prompt] are kept encrypted, [updated_at] is absent until the first
    update. *)
Record doc := {
  uid : jsstring;
  title : jsstring;
  prompt : jsstring;
  is_default : Z;
  created_at : Z;
  updated_at : option Z
}.

(** The collection: what [getDoc] finds under a document id. *)
Definition collection := jsstring -> option doc.

Definition write (id : jsstring) (d : option doc) (db : collection) : collection :=
  fun k => if jsstring_eqb k id then d else db k.

Inductive result :=
| Changes_1                         (* { changes: 1 } *)
| Denied_update   (* new Error("Preset not found or permission denied to update.") *)
| Denied_delete.  (* new Error("Preset not found or permission denied to delete.") *)

Section Encryption.

(** [encryptionService.encrypt] *)
Variable encrypt : jsstring -> jsstring.

(** The [updates] object applied by [updateDoc]; a field that is [undefined]
    in the call is [None] and is left as it is. *)
Definition updated (now : Z) (title0 prompt0 : option jsstring) (d : doc) : doc :=
  {| uid := uid d;
     title := match title0 with Some t => encrypt t | None => title d end;
     prompt := match prompt0 with Some p => encrypt p | None => prompt d end;
     is_default := is_default d;
     created_at := created_at d;
     updated_at := Some now |}.

(** [update(id, { title, prompt }, uid)]; [now] is [Timestamp.now()]. *)
Definition update (now : Z) (id : jsstring) (title0 prompt0 : option jsstring)
    (uid0 : jsstring) (db : collection) : result * collection :=
  match db id with
  | Some d =>
      if jsstring_eqb (uid d) uid0
      then (Changes_1, write id (Some (updated now title0 prompt0 d)) db)
      else (Denied_update, db)
  | None => (Denied_update, db)
  end.

End Encryption.

(** [delete(id, uid)] *)
Definition del (id uid0 : jsstring) (db : collection) : result * collection :=
  match db id with
  | Some d =>
      if jsstring_eqb (uid d) uid0
      then (Changes_1, write id None db)
      else (Denied_delete, db)
  | None => (Denied_delete, db)
  end.

(** [getPresetTemplates()] *)
Definition getPresetTemplates : list doc := [].

End FirestorePresets.

(** A call of [update] or [delete] by a user. *)
Inductive firestore_call :=
| fs_update (now : Z) (id : jsstring) (title prompt : option jsstring)
| fs_delete (id : jsstring).

Definition run_firestore_call (encrypt : jsstring -> jsstring) (uid : jsstring)
    (c : firestore_call) (db : FirestorePresets.collection)
  : FirestorePresets.result * FirestorePresets.collection :=
  match c with
  | fs_update now id title prompt =>
      FirestorePresets.update encrypt now id title prompt uid db
  | fs_delete id => FirestorePresets.del id uid db
  end.

(* ===================================================================== *)
(** * Notions of the further properties *)
(* ===================================================================== *)

(** The payloads of the 'transcription' events in a trace, in order. *)
Fixpoint payloads (tr : list action) : list Transcription.t :=
  match tr with
  | [] => []
  | Emit (transcription p) :: tr' => p :: payloads tr'
  | _ :: tr' => payloads tr'
  end.

(** The text [emitSegment] works with: [(seg.text || '').trim()]. *)
Definition textOf (seg : Segment.t) : jsstring :=
  trim (match Segment.text seg with Some x => x | None => [] end).

(** The payload [emitSegment] builds for a segment. *)
Definition transcription_of (E : env) (s : Session.t) (seg : Segment.t) : Transcription.t :=
  {| Transcription.text := textOf seg;
     Transcription.timestamp := Date_now E;
     Transcription.confidence := Resampler.of_Z 1;
     Transcription.sessionId := sessionId s;
     Transcription.start := Segment.start seg;
     Transcription.end_ := Segment.end_ seg |}.

(** [l1] is [l2] with some elements left out. *)
Inductive subseq {A : Type} : list A -> list A -> Prop :=
| subseq_nil : subseq [] []
| subseq_keep (a : A) (l1 l2 : list A) : subseq l1 l2 -> subseq (a :: l1) (a :: l2)
| subseq_drop (a : A) (l1 l2 : list A) : subseq l1 l2 -> subseq l1 (a :: l2).

(** A string with no white space at either end. *)
Definition bare (t : jsstring) : Prop :=
  match t with
  | [] => True
  | c :: _ => isWhiteSpace c = false /\ isWhiteSpace (last t c) = false
  end.

(** The segments the loop of [_handleServerMessage] emits, as a function of
    the text emitted last. *)
Fixpoint kept (prev : jsstring) (l : list Segment.t) : list Segment.t :=
  match l with
  | [] => []
  | seg :: r =>
      if truthy (textOf seg) && negb (jsstring_eqb (textOf seg) prev)
      then seg :: kept (textOf seg) r
      else kept prev r
  end.

(** What a transcription event of a session with id [sid] looks like. *)
Definition well_formed (sid : jsstring) (p : Transcription.t) : Prop :=
  Transcription.sessionId p = sid
  /\ Transcription.text p <> []
  /\ bare (Transcription.text p)
  /\ Transcription.confidence p = Resampler.of_Z 1.

Definition well_tagged (s : Session.t) (tr : list action) (s' : Session.t) : Prop :=
  sessionId s' = sessionId s /\ Forall (well_formed (sessionId s)) (payloads tr).

(** The bytes [sendRealtimeInput] resamples. *)
Definition bytesOf (E : env) (a : audioData) : list Byte.byte :=
  match a with
  | Base64 text => Buffer_from_base64 E text
  | Binary b => b
  end.

(** The guard of [sendRealtimeInput] lets the call through. *)
Definition accepting (s : Session.t) : bool :=
  isRunning s && match ws s with Some OPEN => true | _ => false end.

(** The calls made on the socket, in order. *)
Definition socket_calls (tr : list action) : list action :=
  filter (fun a => match a with WsSend _ | WsClose => true | _ => false end) tr.

Definition is_initialize (i : input) : bool :=
  match i with call_initialize _ => true | _ => false end.

(** With no socket, a body makes no socket call and creates no socket. *)
Definition stays_closed (s : Session.t) (tr : list action) (s' : Session.t) : Prop :=
  ws s = None -> ws s' = None /\ socket_calls tr = [].

(** An audio frame is only written once the configuration frame has been
    written: [ok] says that the configuration has gone out. *)
Fixpoint config_first (ok : bool) (tr : list action) : Prop :=
  match tr with
  | [] => True
  | WsSend (Config _ _ _ _ _) :: tr' => config_first true tr'
  | WsSend (Audio _) :: tr' => ok = true /\ config_first ok tr'
  | _ :: tr' => config_first ok tr'
  end.

Definition has_config (tr : list action) : bool :=
  existsb (fun a => match a with WsSend (Config _ _ _ _ _) => true | _ => false end) tr.

Definition is_open (s : Session.t) : bool :=
  match ws s with Some OPEN => true | _ => false end.

Definition configured (s : Session.t) (tr : list action) (s' : Session.t) : Prop :=
  config_first (is_open s) tr
  /\ (is_open s' = true -> is_open s = true \/ has_config tr = true).



(** A body settles the awaited promise by rejection only. *)
Definition unresolved : Session.t -> list action -> Session.t -> Prop :=
  fun s _ s' =>
    (forall v, connection s <> Fulfilled v) -> (forall v, connection s' <> Fulfilled v).

(** While [initialize] is pending so is the promise it awaits, and once it
    has resolved to [true] the session is running and ready. *)
Definition settled_right (s : Session.t) : Prop :=
  (initialized s = Pending -> connection s = Pending)
  /\ (initialized s = Fulfilled true -> isRunning s = true /\ serverReady s = true).

(** The binary64 number of value [k * 2^e], for an integer [k] of at most 53
    significant bits. *)
Definition dyadic (k e : Z) : number :=
  match k with
  | Z0 => S754_zero false
  | Zpos _ => Binary64.enc k e
  | Zneg p => SFopp (Binary64.enc (Zpos p) e)
  end.

(** The integer [x * 2^n], when [x * 2^n] is an integer. *)
Definition scaled (n : Z) (x : number) : option Z :=
  match x with
  | S754_zero _ => Some 0
  | S754_finite s m e =>
      if 0 <=? e + n then Some (Resampler.signed s m * 2 ^ (e + n))
      else if Zpos m mod 2 ^ (- (e + n)) =? 0
           then Some (Resampler.signed s m / 2 ^ (- (e + n))) else None
  | _ => None
  end.

(** The [k]-th 16-bit sample of a buffer. *)
Definition pcm (buf : list Byte.byte) (k : Z) : option Z :=
  Binary64.int16_at buf (2 * k).

(* ===================================================================== *)
(** * The embedding at work *)
(* ===================================================================== *)

Example trim_strips_both_ends :
  trim (str "  hi there
 ") = str "hi there".
Proof. reflexivity. Qed.

Example ratio_is_two_thirds_rounded :
  Resampler.ratio = S754_finite false 6004799503160661 (-53).
Proof. vm_compute. reflexivity. Qed.

(** 0x4000, 0x2000, 0x7fff resample to 0.5 and 0.25 + (0.99997 - 0.25) / 2. *)
Example resample_three_samples :
  Resampler.resampleAndConvertToFloat32
    [Byte.x00; Byte.x40; Byte.x00; Byte.x20; Byte.xff; Byte.x7f]
  = Some [S754_finite false 8388608 (-24); S754_finite false 10485504 (-24)].
Proof. vm_compute. reflexivity. Qed.

(** Ten milliseconds of audio: 240 samples in, 160 out. *)
Example resample_ten_milliseconds :
  option_map (@List.length number)
    (Resampler.resampleAndConvertToFloat32 (repeat Byte.x01 480))
  = Some 160%nat.
Proof. vm_compute. reflexivity. Qed.

(** The handshake of a session for "whisper-base" names the model "base". *)
Example handshake_maps_the_model :
  snd (run session0 [(calm, call_initialize running_service); (calm, ev_open)])
  = [SetTimeout; WsNew 9090; ClearTimeout;
     WsSend (Config (str "s1") (str "en") (str "transcribe") (str "base") true)].
Proof. reflexivity. Qed.

(** A session that becomes ready sends audio, float32 at 16 kHz. *)
Example ready_session_sends_audio :
  snd (run session0
         [(calm, call_initialize running_service);
          (calm, ev_open);
          (calm, ev_message (Some {| Msg.message := Some (str "SERVER_READY");
                                     Msg.status := None;
                                     Msg.segments := None;
                                     Msg.language := None |}));
          (calm, call_sendRealtimeInput
                   (Binary [Byte.x00; Byte.x40; Byte.x00; Byte.x20;
                            Byte.xff; Byte.x7f]))])
  = [SetTimeout; WsNew 9090; ClearTimeout;
     WsSend (Config (str "s1") (str "en") (str "transcribe") (str "base") true);
     ClearTimeout;
     WsSend (Audio [S754_finite false 8388608 (-24);
                    S754_finite false 10485504 (-24)])].
Proof. vm_compute. reflexivity. Qed.

(* ===================================================================== *)
(** * Reasoning about method bodies *)
(* ===================================================================== *)

(** A relation between the state before, the trace and the state after that
    holds of the empty computation and composes is respected by a body as soon
    as its leaves respect it. *)
Section Respects.

Variable R : Session.t -> list action -> Session.t -> Prop.
Hypothesis R_refl : forall s, R s [] s.
Hypothesis R_trans : forall s tr1 s1 tr2 s2,
  R s tr1 s1 -> R s1 tr2 s2 -> R s (tr1 ++ tr2) s2.

Lemma respects_ret {A} (a : A) : respects R (ret a).
Proof. intros s; apply R_refl. Qed.

Lemma respects_throw {A} (e : js_error) : respects R (@throw A e).
Proof. intros s; apply R_refl. Qed.

Lemma respects_get : respects R get.
Proof. intros s; apply R_refl. Qed.

Lemma respects_bind {A B} (m : M A) (k : A -> M B) :
  respects R m -> (forall a, respects R (k a)) -> respects R (bind m k).
Proof.
  intros Hm Hk s. unfold bind, trace_of, state_of.
  specialize (Hm s). unfold trace_of, state_of in Hm.
  destruct (m s) as [[[a|e] s1] tr1]; simpl in *; auto.
  specialize (Hk a s1). unfold trace_of, state_of in Hk.
  destruct (k a s1) as [[r s2] tr2]; simpl in *. eapply R_trans; eauto.
Qed.

Lemma respects_try_catch {A} (m : M A) (h : js_error -> M A) :
  respects R m -> (forall e, respects R (h e)) -> respects R (try_catch m h).
Proof.
  intros Hm Hh s. unfold try_catch, trace_of, state_of.
  specialize (Hm s). unfold trace_of, state_of in Hm.
  destruct (m s) as [[[a|e] s1] tr1]; simpl in *; auto.
  specialize (Hh e s1). unfold trace_of, state_of in Hh.
  destruct (h e s1) as [[r s2] tr2]; simpl in *. eapply R_trans; eauto.
Qed.

Lemma respects_when (b : bool) (m : M unit) : respects R m -> respects R (when b m).
Proof. intros Hm; destruct b; simpl; auto using respects_ret. Qed.

Lemma respects_not_awaited (m : M unit) : respects R m -> respects R (not_awaited m).
Proof. intros Hm; apply respects_try_catch; auto using respects_ret. Qed.

Lemma respects_for_of {A} (l : list A) (body : A -> M unit) :
  (forall a, respects R (body a)) -> respects R (for_of l body).
Proof.
  intros Hb; induction l as [|a l IH]; simpl.
  - apply respects_ret.
  - apply respects_bind; auto.
Qed.

Lemma respects_settle_initialized (m : M bool) :
  (forall v, respects R (modify (set_initialized v))) ->
  respects R m -> respects R (settle_initialized m).
Proof.
  intros Hset Hm s. unfold settle_initialized, trace_of, state_of.
  specialize (Hm s). unfold trace_of, state_of in Hm.
  destruct (m s) as [[[v|e] s1] tr1]; simpl in *.
  - rewrite <- (app_nil_r tr1). eapply R_trans; eauto.
    apply (Hset (Fulfilled v) s1).
  - rewrite <- (app_nil_r tr1). eapply R_trans; eauto.
    apply (Hset (Rejected e) s1).
Qed.

End Respects.
Lemma jsstring_eqb_eq (a b : jsstring) : jsstring_eqb a b = true <-> a = b.
Proof.
  revert b; induction a as [|x a IH]; intros [|y b]; simpl;
    try (split; congruence).
  rewrite andb_true_iff, N.eqb_eq, IH. split.
  - intros [-> ->]; reflexivity.
  - intros E; inversion E; auto.
Qed.

Lemma jsstring_eqb_refl (a : jsstring) : jsstring_eqb a a = true.
Proof. apply jsstring_eqb_eq; reflexivity. Qed.

Lemma jsstring_eqb_neq (a b : jsstring) : jsstring_eqb a b = false <-> a <> b.
Proof.
  rewrite <- jsstring_eqb_eq. destruct (jsstring_eqb a b); split; congruence.
Qed.

(** Structural steps through a method body. *)
Ltac respects_step Rr Rt :=
  first
    [ apply (@respects_ret _ Rr)
    | apply (@respects_throw _ Rr)
    | apply (@respects_get _ Rr)
    | apply (@respects_bind _ Rt); [ | intros ? ]
    | apply (@respects_try_catch _ Rt); [ | intros ? ]
    | apply (@respects_when _ Rr)
    | apply (@respects_not_awaited _ Rr Rt)
    | apply (@respects_for_of _ Rr Rt); intros ?
    | match goal with
      | |- respects _ (match ?x with _ => _ end) => destruct x
      end ].

(* ===================================================================== *)
(** * The reconciler: no adjacent duplicates *)
(* ===================================================================== *)

Lemma transcriptions_app (a b : list action) :
  transcriptions (a ++ b) = transcriptions a ++ transcriptions b.
Proof.
  induction a as [|x a IH]; simpl; auto.
  destruct x as [[p| |]| | | | | | |]; simpl; rewrite ?IH; auto.
Qed.

Lemma last_cons_default (x prev : jsstring) (a : list jsstring) :
  last (x :: a) prev = last a x.
Proof.
  revert x prev; induction a as [|y a IH]; intros x prev; auto.
  change (last (x :: y :: a) prev) with (last (y :: a) prev).
  rewrite !(IH y). reflexivity.
Qed.

Lemma chain_app (prev : jsstring) (a b : list jsstring) :
  chain prev a -> chain (last a prev) b -> chain prev (a ++ b).
Proof.
  revert prev; induction a as [|x a IH]; simpl app; intros prev Ha Hb; auto.
  destruct Ha as [Hx Ha]. split; auto. apply IH; auto.
  rewrite last_cons_default in Hb. exact Hb.
Qed.

Lemma last_app_default (prev : jsstring) (a b : list jsstring) :
  last (a ++ b) prev = last b (last a prev).
Proof.
  revert prev; induction a as [|x a IH]; intros prev; auto.
  simpl app. rewrite !last_cons_default. apply IH.
Qed.

Lemma extends_chain_refl s : extends_chain s [] s.
Proof. split; simpl; auto. Qed.

Lemma extends_chain_trans s tr1 s1 tr2 s2 :
  extends_chain s tr1 s1 -> extends_chain s1 tr2 s2 ->
  extends_chain s (tr1 ++ tr2) s2.
Proof.
  intros [E1 C1] [E2 C2]. split; rewrite transcriptions_app.
  - rewrite last_app_default, <- E1. exact E2.
  - apply chain_app; auto. rewrite <- E1. exact C2.
Qed.

Lemma chain_no_adjacent_dup (prev : jsstring) (l : list jsstring) :
  chain prev l -> no_adjacent_dup l.
Proof.
  revert prev; induction l as [|x l IH]; simpl; intros prev H; auto.
  destruct H as [_ H]. split; eauto.
  destruct l; simpl in *; auto. destruct H as [H _]. congruence.
Qed.

Lemma chain_modify (f : Session.t -> Session.t) :
  (forall s, lastEmittedText (f s) = lastEmittedText s) ->
  respects extends_chain (modify f).
Proof.
  intros H s; unfold extends_chain, trace_of, state_of, modify; simpl.
  rewrite H. auto.
Qed.

Lemma chain_perform (a : action) :
  transcriptions [a] = [] -> respects extends_chain (perform a).
Proof.
  intros H s; unfold extends_chain, trace_of, state_of, perform; simpl snd; simpl fst.
  rewrite H. split; simpl; auto.
Qed.

Lemma chain_emitSegment (E : env) (seg : Segment.t) :
  respects extends_chain (emitSegment E seg).
Proof.
  intros s. unfold emitSegment, bind, get.
  set (text := trim _).
  destruct (truthy text && negb (jsstring_eqb text (lastEmittedText s))) eqn:C.
  - apply andb_true_iff in C. destruct C as [_ C].
    apply negb_true_iff, jsstring_eqb_neq in C.
    split; simpl; auto.
  - apply extends_chain_refl.
Qed.

Ltac chain_leaf :=
  first
    [ apply chain_emitSegment
    | apply chain_modify; intros ?; reflexivity
    | apply chain_modify; intros s0; destruct (connection s0); reflexivity
    | apply chain_perform; reflexivity ].

Ltac chain_body :=
  repeat first [ chain_leaf | respects_step extends_chain_refl extends_chain_trans ].

Lemma chain_ws_send (E : env) (f : frame) : respects extends_chain (ws_send E f).
Proof. unfold ws_send. chain_body. Qed.

Lemma chain_ws_close (E : env) : respects extends_chain (ws_close E).
Proof. unfold ws_close. chain_body. Qed.

Lemma chain_close (E : env) : respects extends_chain (close E).
Proof.
  unfold close. chain_body; first [ apply chain_ws_send | apply chain_ws_close ].
Qed.

Lemma chain_handleServerMessage (E : env) (msg : Msg.t) :
  respects extends_chain (_handleServerMessage E msg).
Proof.
  unfold _handleServerMessage.
  destruct (equals (Msg.message msg) "SERVER_READY"); [chain_body|].
  destruct (equals (Msg.status msg) "WAIT"); [chain_body|].
  destruct (equals (Msg.message msg) "DISCONNECT").
  - apply (@respects_not_awaited _ extends_chain_refl extends_chain_trans), chain_close.
  - chain_body.
Qed.

Lemma chain_settle (m : M bool) :
  respects extends_chain m -> respects extends_chain (settle_initialized m).
Proof.
  apply (@respects_settle_initialized _ extends_chain_trans).
  intros v. chain_body.
Qed.

Lemma chain_initialize_resume (E : env) :
  respects extends_chain (initialize_resume E).
Proof.
  unfold initialize_resume. chain_body.
  all: apply chain_settle; unfold initialize_catch, emit; chain_body.
Qed.

Lemma chain_initialize (E : env) (svc : service) :
  respects extends_chain (initialize E svc).
Proof.
  intros s. unfold initialize.
  assert (H : respects extends_chain (initialize_connect svc))
    by (unfold initialize_connect; chain_body).
  specialize (H s). unfold trace_of, state_of in *.
  destruct (initialize_connect svc s) as [[[u|e] s1] tr1]; simpl in *; auto.
  assert (H2 : respects extends_chain (settle_initialized (initialize_catch E e)))
    by (apply chain_settle; unfold initialize_catch, emit; chain_body).
  specialize (H2 s1). unfold trace_of, state_of in H2.
  destruct (settle_initialized (initialize_catch E e) s1) as [[r s2] tr2].
  simpl in *. eapply extends_chain_trans; eauto.
Qed.

Lemma chain_handler (E : env) (i : input) : respects extends_chain (handler E i).
Proof.
  destruct i; simpl.
  - unfold on_open, clearTimeout. chain_body.
  - unfold on_message, clearTimeout, resolve.
    chain_body; try apply chain_handleServerMessage.
  - unfold on_error, clearTimeout, reject, emit. chain_body.
  - unfold on_close, clearTimeout, reject, emit. chain_body.
  - unfold on_timeout, reject. chain_body.
  - apply chain_initialize.
  - unfold sendRealtimeInput. chain_body.
  - apply chain_close.
Qed.

Lemma socket_moves_lastEmittedText (i : input) (s : Session.t) :
  lastEmittedText (socket_moves i s) = lastEmittedText s.
Proof. destruct i; simpl; destruct (ws s); reflexivity. Qed.

Lemma chain_step (E : env) (i : input) : respects extends_chain (step E i).
Proof.
  intros s. unfold step, trace_of, state_of.
  pose proof (chain_handler E i (socket_moves i s)) as H.
  unfold trace_of, state_of in H.
  destruct (handler E i (socket_moves i s)) as [[r s1] tr1]; simpl in *.
  pose proof (chain_initialize_resume E s1) as H2.
  unfold trace_of, state_of in H2.
  destruct (initialize_resume E s1) as [[r2 s2] tr2]; simpl in *.
  unfold extends_chain in H. rewrite socket_moves_lastEmittedText in H.
  eapply extends_chain_trans; eauto.
Qed.

Lemma chain_run (ins : list (env * input)) (s : Session.t) :
  extends_chain s (snd (run s ins)) (fst (run s ins)).
Proof.
  revert s; induction ins as [|[E i] ins IH]; intros s; simpl.
  - apply extends_chain_refl.
  - pose proof (chain_step E i s) as H. unfold trace_of, state_of in H.
    destruct (step E i s) as [[r s1] tr1]; simpl in *.
    specialize (IH s1). destruct (run s1 ins) as [s2 tr2]; simpl in *.
    eapply extends_chain_trans; eauto.
Qed.

(** C5. Whatever happens to a session from its construction on (socket
    events, timer, method calls, in any order and with any content), no two
    transcription events emitted one after the other carry the same text. *)
Theorem no_consecutive_identical_transcriptions
    (model sessionId : jsstring) (ins : list (env * input)) :
  no_adjacent_dup (transcriptions (snd (run (Session.new model sessionId) ins))).
Proof.
  destruct (chain_run ins (Session.new model sessionId)) as [_ H].
  eapply chain_no_adjacent_dup; eauto.
Qed.

(* ===================================================================== *)
(** * The reconciler: the counter *)
(* ===================================================================== *)

Lemma keeps_refl {X} (f : Session.t -> X) s : keeps f s [] s.
Proof. reflexivity. Qed.

Lemma keeps_trans {X} (f : Session.t -> X) s tr1 s1 tr2 s2 :
  keeps f s tr1 s1 -> keeps f s1 tr2 s2 -> keeps f s (tr1 ++ tr2) s2.
Proof. unfold keeps; congruence. Qed.

Lemma silent_refl s : silent s [] s.
Proof. reflexivity. Qed.

Lemma silent_trans s tr1 s1 tr2 s2 :
  silent s tr1 s1 -> silent s1 tr2 s2 -> silent s (tr1 ++ tr2) s2.
Proof.
  unfold silent; intros H1 H2. rewrite transcriptions_app, H1, H2. reflexivity.
Qed.

Ltac keeps_body f :=
  repeat first
    [ respects_step (@keeps_refl _ f) (@keeps_trans _ f)
    | match goal with
      | |- respects _ (modify _) =>
          let s0 := fresh "s" in
          intros s0; unfold keeps, state_of, modify; simpl;
          try reflexivity; destruct (connection s0); reflexivity
      | |- respects _ (perform _) => intros ?; reflexivity
      | |- respects _ (emit _ _) => unfold emit
      | |- respects _ (settle_initialized _) =>
          apply (@respects_settle_initialized _ (@keeps_trans _ f));
          [ intros ? | unfold initialize_catch ]
      end ].

Ltac silent_body :=
  repeat first
    [ respects_step silent_refl silent_trans
    | match goal with
      | |- respects _ (modify _) => intros ?; reflexivity
      | |- respects _ (perform _) => intros ?; reflexivity
      end ].

Lemma close_keeps_count (E : env) : respects (keeps emittedCompletedCount) (close E).
Proof. unfold close, ws_send, ws_close. keeps_body emittedCompletedCount. Qed.

Lemma close_silent (E : env) : respects silent (close E).
Proof. unfold close, ws_send, ws_close. silent_body. Qed.

Lemma emitSegment_keeps_count (E : env) (seg : Segment.t) :
  respects (keeps emittedCompletedCount) (emitSegment E seg).
Proof. unfold emitSegment. keeps_body emittedCompletedCount. Qed.

Lemma for_of_emitSegment_keeps_count (E : env) (l : list Segment.t) :
  respects (keeps emittedCompletedCount) (for_of l (emitSegment E)).
Proof.
  apply (@respects_for_of _ (@keeps_refl _ _) (@keeps_trans _ _)).
  apply emitSegment_keeps_count.
Qed.

Lemma emitSegment_returns (E : env) (seg : Segment.t) (s : Session.t) :
  result_of (emitSegment E seg s) = Return tt.
Proof.
  unfold emitSegment, bind, get, result_of.
  destruct (truthy _ && negb _); reflexivity.
Qed.

Lemma for_of_emitSegment_returns (E : env) (l : list Segment.t) (s : Session.t) :
  result_of (for_of l (emitSegment E) s) = Return tt.
Proof.
  revert s; induction l as [|a l IH]; intros s; [reflexivity|].
  simpl. unfold bind at 1.
  pose proof (emitSegment_returns E a s) as H. unfold result_of in H.
  destruct (emitSegment E a s) as [[r s1] tr1]; simpl in H; subst r.
  specialize (IH s1). unfold result_of in *.
  destruct (for_of l (emitSegment E) s1) as [[r s2] tr2]; simpl in *. exact IH.
Qed.

(** What [_handleServerMessage] makes of the counter. *)
Lemma handleServerMessage_count (E : env) (msg : Msg.t) (s : Session.t) :
  emittedCompletedCount (state_of (_handleServerMessage E msg s)) =
  if isControl msg then emittedCompletedCount s
  else match Msg.segments msg with
       | Some ((_ :: _) as segments) => List.length (filter Segment.completed segments)
       | _ => emittedCompletedCount s
       end.
Proof.
  unfold _handleServerMessage, isControl.
  destruct (equals (Msg.message msg) "SERVER_READY"); [reflexivity|].
  destruct (equals (Msg.status msg) "WAIT"); [reflexivity|].
  destruct (equals (Msg.message msg) "DISCONNECT"); simpl orb; cbv iota.
  - apply (@respects_not_awaited _ (@keeps_refl _ _) (@keeps_trans _ _)).
    apply close_keeps_count.
  - destruct (Msg.segments msg) as [[|x l]|]; try reflexivity.
    unfold bind, get, state_of.
    pose proof (for_of_emitSegment_returns E
      (skipn (emittedCompletedCount s) (filter Segment.completed (x :: l))) s) as F.
    unfold result_of in F.
    destruct (for_of _ _ s) as [[r s1] tr1]; simpl in F; subst r. reflexivity.
Qed.

Lemma bind_keeps {X A B} (f : Session.t -> X) (m : M A) (k : A -> M B) :
  (forall a, respects (keeps f) (k a)) ->
  forall s, f (state_of (bind m k s)) = f (state_of (m s)).
Proof.
  intros Hk s. unfold bind, state_of.
  destruct (m s) as [[[a|e] s1] tr1]; simpl; auto.
  specialize (Hk a s1). unfold keeps, state_of in Hk.
  destruct (k a s1) as [[r s2] tr2]; simpl in *. exact Hk.
Qed.

Lemma try_catch_keeps {X A} (f : Session.t -> X) (m : M A) (h : js_error -> M A) :
  (forall e, respects (keeps f) (h e)) ->
  forall s, f (state_of (try_catch m h s)) = f (state_of (m s)).
Proof.
  intros Hh s. unfold try_catch, state_of.
  destruct (m s) as [[[a|e] s1] tr1]; simpl; auto.
  specialize (Hh e s1). unfold keeps, state_of in Hh.
  destruct (h e s1) as [[r s2] tr2]; simpl in *. exact Hh.
Qed.

Lemma initialize_resume_keeps_count (E : env) :
  respects (keeps emittedCompletedCount) (initialize_resume E).
Proof. unfold initialize_resume. keeps_body emittedCompletedCount. Qed.

Lemma initialize_keeps_count (E : env) (svc : service) :
  respects (keeps emittedCompletedCount) (initialize E svc).
Proof.
  intros s. unfold initialize.
  assert (H : respects (keeps emittedCompletedCount) (initialize_connect svc))
    by (unfold initialize_connect; keeps_body emittedCompletedCount).
  specialize (H s). unfold keeps, trace_of, state_of in *.
  destruct (initialize_connect svc s) as [[[u|e] s1] tr1]; simpl in *; auto.
  assert (H2 : respects (keeps emittedCompletedCount)
                 (settle_initialized (initialize_catch E e)))
    by keeps_body emittedCompletedCount.
  specialize (H2 s1). unfold keeps, trace_of, state_of in H2.
  destruct (settle_initialized (initialize_catch E e) s1) as [[r s2] tr2].
  simpl in *. congruence.
Qed.

Lemma socket_moves_count (i : input) (s : Session.t) :
  emittedCompletedCount (socket_moves i s) = emittedCompletedCount s.
Proof. destruct i; simpl; destruct (ws s); reflexivity. Qed.

(** Only a message changes the counter, and it does so in
    [_handleServerMessage]. *)
Lemma step_count (E : env) (i : input) (s : Session.t) :
  emittedCompletedCount (state_of (step E i s)) =
  match i with
  | ev_message (Some msg) =>
      emittedCompletedCount (state_of (_handleServerMessage E msg s))
  | _ => emittedCompletedCount s
  end.
Proof.
  unfold step, state_of at 1.
  destruct (handler E i (socket_moves i s)) as [[r s1] tr1] eqn:H.
  pose proof (initialize_resume_keeps_count E s1) as H2.
  unfold keeps, state_of in H2.
  destruct (initialize_resume E s1) as [[r2 s2] tr2]; simpl in *. rewrite H2.
  change s1 with (state_of (r, s1, tr1)). rewrite <- H. clear.
  assert (K : forall m : M unit, respects (keeps emittedCompletedCount) m ->
              emittedCompletedCount (state_of (m (socket_moves i s)))
              = emittedCompletedCount s).
  { intros m Hm. rewrite <- (socket_moves_count i s). apply Hm. }
  destruct i as [|[msg|]| | | | | |]; simpl handler.
  - apply K. unfold on_open, clearTimeout, ws_send. keeps_body emittedCompletedCount.
  - unfold on_message. rewrite try_catch_keeps
      by (intros; keeps_body emittedCompletedCount).
    rewrite bind_keeps
      by (intros; unfold clearTimeout, resolve; keeps_body emittedCompletedCount).
    rewrite !handleServerMessage_count. simpl. reflexivity.
  - apply K. unfold on_message. keeps_body emittedCompletedCount.
  - apply K. unfold on_error, clearTimeout, reject. keeps_body emittedCompletedCount.
  - apply K. unfold on_close, clearTimeout, reject. keeps_body emittedCompletedCount.
  - apply K. unfold on_timeout, reject. keeps_body emittedCompletedCount.
  - apply K. apply initialize_keeps_count.
  - apply K. unfold sendRealtimeInput, ws_send. keeps_body emittedCompletedCount.
  - apply K. apply close_keeps_count.
Qed.

(** C7, as stated, fails on a message whose segment list is empty: the guard
    [msg.segments.length > 0] skips the block, so the counter keeps the value
    1 it got from the first message of Scenario B although the completed list
    of [{segments: []}] has length 0. *)
Lemma empty_segments_leave_emittedCount :
  let s1 := state_of (_handleServerMessage calm scenarioB_first session0) in
  let msg := segments_message [] in
  emittedCompletedCount s1 = 1%nat
  /\ emittedCompletedCount (state_of (_handleServerMessage calm msg s1)) = 1%nat
  /\ List.length (completedOf msg) = 0%nat.
Proof. vm_compute. auto. Qed.

(** C7, amended. A message that is not a control message and carries a
    non-empty segment list leaves [emittedCompletedCount] at the length of its
    completed-filtered list, whatever was emitted and whatever the counter was
    before; a message with an empty or absent segment list leaves the counter
    as it was. *)
Theorem emittedCount_after_segments_message
    (E : env) (msg : Msg.t) (s : Session.t) :
  isControl msg = false ->
  emittedCompletedCount (state_of (_handleServerMessage E msg s)) =
  match Msg.segments msg with
  | Some (_ :: _) => List.length (completedOf msg)
  | _ => emittedCompletedCount s
  end.
Proof.
  intros H. rewrite handleServerMessage_count, H. unfold completedOf.
  destruct (Msg.segments msg) as [[|x l]|]; reflexivity.
Qed.

Lemma emittedCount_after_segments_message_witness :
  isControl scenarioB_second = false
  /\ emittedCompletedCount
       (state_of (_handleServerMessage calm scenarioB_second session0)) = 2%nat.
Proof.
  split; [reflexivity|].
  exact (emittedCount_after_segments_message calm scenarioB_second session0
           (eq_refl false)).
Defined.

(** C3, as stated, fails when the server shrinks its completed history: after
    the second message of Scenario B the counter is 2, and processing the
    first message again sets it to 1. *)
Lemma emittedCount_decreases :
  let s2 := state_of (step calm (ev_message (Some scenarioB_second)) session0) in
  let s3 := state_of (step calm (ev_message (Some scenarioB_first)) s2) in
  emittedCompletedCount s2 = 2%nat /\ emittedCompletedCount s3 = 1%nat.
Proof. vm_compute. auto. Qed.

(** C3, amended. Across any one turn of the session (an inbound message or
    anything else) [emittedCompletedCount] does not decrease, unless the turn
    is a message that shrinks the completed history: one that reaches the
    reconciler with a non-empty segment list whose completed part is shorter
    than the counter. *)
Theorem emittedCount_nondecreasing_unless_shrunk
    (E : env) (i : input) (s : Session.t) :
  (forall msg, i = ev_message (Some msg) -> shrinks s msg = false) ->
  (emittedCompletedCount s <= emittedCompletedCount (state_of (step E i s)))%nat.
Proof.
  intros H. rewrite step_count.
  destruct i as [|[msg|]| | | | | |]; auto.
  specialize (H msg eq_refl). rewrite handleServerMessage_count.
  unfold shrinks in H. destruct (isControl msg); auto.
  destruct (Msg.segments msg) as [[|x l]|]; auto.
  simpl negb in H. rewrite andb_true_l in H.
  apply Nat.ltb_ge in H. exact H.
Qed.

Lemma emittedCount_nondecreasing_unless_shrunk_witness :
  let s1 := state_of (step calm (ev_message (Some scenarioB_first)) session0) in
  (emittedCompletedCount s1
   <= emittedCompletedCount
        (state_of (step calm (ev_message (Some scenarioB_second)) s1)))%nat.
Proof.
  intros s1.
  apply (emittedCount_nondecreasing_unless_shrunk calm
           (ev_message (Some scenarioB_second)) s1).
  intros msg H. injection H as <-. reflexivity.
Defined.

(* ===================================================================== *)
(** * The reconciler: replays *)
(* ===================================================================== *)

Lemma for_of_emitSegment_nil (E : env) (s : Session.t) :
  trace_of (for_of [] (emitSegment E) s) = [].
Proof. reflexivity. Qed.

Lemma skipn_length_nil {A} (l : list A) : skipn (List.length l) l = [].
Proof. apply skipn_all. Qed.

(** C1. A message that reaches the reconciler fixes the counter to its
    completed list; a message with the same completed list processed next
    emits no transcription event.  And the two messages of Scenario B, fed to
    a new session, emit exactly the texts "hi" and "there", in this order. *)
Theorem replay_is_silent_and_scenarioB :
  (forall (E1 E2 : env) (m1 m2 : Msg.t) (s : Session.t),
      isControl m1 = false ->
      completedOf m2 = completedOf m1 ->
      transcriptions
        (trace_of (_handleServerMessage E2 m2
                     (state_of (_handleServerMessage E1 m1 s)))) = [])
  /\ (forall (E1 E2 : env) (model sessionId : jsstring),
        transcriptions
          (snd (run (Session.new model sessionId)
                    [(E1, ev_message (Some scenarioB_first));
                     (E2, ev_message (Some scenarioB_second))]))
        = [str "hi"; str "there"]).
Proof.
  split.
  - intros E1 E2 m1 m2 s C1 Eq.
    pose proof (handleServerMessage_count E1 m1 s) as Hc. rewrite C1 in Hc.
    set (s1 := state_of (_handleServerMessage E1 m1 s)) in *.
    unfold _handleServerMessage.
    destruct (equals (Msg.message m2) "SERVER_READY"); [reflexivity|].
    destruct (equals (Msg.status m2) "WAIT"); [reflexivity|].
    destruct (equals (Msg.message m2) "DISCONNECT").
    + apply (@respects_not_awaited _ silent_refl silent_trans), close_silent.
    + unfold completedOf in Eq.
      destruct (Msg.segments m2) as [[|x2 l2]|]; try reflexivity.
      assert (N : skipn (emittedCompletedCount s1)
                    (filter Segment.completed (x2 :: l2)) = []).
      { rewrite Eq. destruct (Msg.segments m1) as [[|x1 l1]|].
        - apply skipn_nil.
        - rewrite Hc. apply skipn_length_nil.
        - apply skipn_nil. }
      unfold bind, get. rewrite N. reflexivity.
  - intros E1 E2 model sessionId. vm_compute. reflexivity.
Qed.

Lemma replay_is_silent_and_scenarioB_witness :
  isControl scenarioB_second = false
  /\ completedOf scenarioB_second = completedOf scenarioB_second
  /\ transcriptions
       (trace_of (_handleServerMessage calm scenarioB_second
                    (state_of (_handleServerMessage calm scenarioB_second session0))))
     = [].
Proof.
  split; [reflexivity|]. split; [reflexivity|].
  exact (proj1 replay_is_silent_and_scenarioB calm calm
           scenarioB_second scenarioB_second session0 eq_refl eq_refl).
Defined.

(* ===================================================================== *)
(** * Lifecycle: sending before readiness *)
(* ===================================================================== *)

Lemma respects_ext {A} (R : Session.t -> list action -> Session.t -> Prop)
    (m m' : M A) :
  (forall s, m s = m' s) -> respects R m' -> respects R m.
Proof. intros H Hm s. rewrite H. apply Hm. Qed.

Lemma modify_modify {B} (f g : Session.t -> Session.t) (k : M B) (s : Session.t) :
  (modify f ;; modify g ;; k) s = (modify (fun x => g (f x)) ;; k) s.
Proof.
  unfold bind, modify. simpl. destruct (k (g (f s))) as [[r s2] tr2]. reflexivity.
Qed.

Lemma kri_refl s : keeps_running_implies_ready s [] s.
Proof. intros H; exact H. Qed.

Lemma kri_trans s tr1 s1 tr2 s2 :
  keeps_running_implies_ready s tr1 s1 -> keeps_running_implies_ready s1 tr2 s2 ->
  keeps_running_implies_ready s (tr1 ++ tr2) s2.
Proof. unfold keeps_running_implies_ready; auto. Qed.

Lemma kri_modify (f : Session.t -> Session.t) :
  (forall s, running_implies_ready s -> running_implies_ready (f s)) ->
  respects keeps_running_implies_ready (modify f).
Proof.
  intros H s. unfold keeps_running_implies_ready, state_of, modify; simpl.
  exact (H s).
Qed.

Ltac kri_leaf :=
  match goal with
  | |- respects _ (modify _) =>
      apply kri_modify; unfold running_implies_ready;
      let s0 := fresh "s" in let H := fresh "H" in
      intros s0 H; try (destruct (connection s0)); simpl in *;
      solve [ auto | discriminate ]
  | |- respects _ (perform _) => intros ? H; exact H
  | |- respects _ (emit _ _) => unfold emit
  | |- respects _ (settle_initialized _) =>
      apply (@respects_settle_initialized _ kri_trans);
      [ intros ? | unfold initialize_catch ]
  end.

Ltac kri_body :=
  repeat first [ kri_leaf | respects_step kri_refl kri_trans ].

Lemma kri_close (E : env) : respects keeps_running_implies_ready (close E).
Proof. unfold close, ws_send, ws_close. kri_body. Qed.

Lemma kri_handleServerMessage (E : env) (msg : Msg.t) :
  respects keeps_running_implies_ready (_handleServerMessage E msg).
Proof.
  unfold _handleServerMessage.
  destruct (equals (Msg.message msg) "SERVER_READY"); [kri_body|].
  destruct (equals (Msg.status msg) "WAIT"); [kri_body|].
  destruct (equals (Msg.message msg) "DISCONNECT").
  - apply (@respects_not_awaited _ kri_refl kri_trans), kri_close.
  - unfold emitSegment. kri_body.
Qed.

Lemma kri_initialize (E : env) (svc : service) :
  respects keeps_running_implies_ready (initialize E svc).
Proof.
  intros s. unfold initialize.
  assert (H : respects keeps_running_implies_ready (initialize_connect svc))
    by (unfold initialize_connect; kri_body).
  specialize (H s). unfold trace_of, state_of in *.
  destruct (initialize_connect svc s) as [[[u|e] s1] tr1]; simpl in *; auto.
  assert (H2 : respects keeps_running_implies_ready
                 (settle_initialized (initialize_catch E e))) by kri_body.
  specialize (H2 s1). unfold trace_of, state_of in H2.
  destruct (settle_initialized (initialize_catch E e) s1) as [[r s2] tr2].
  simpl in *. intros I0. apply H2, H, I0.
Qed.

Lemma kri_handler (E : env) (i : input) :
  respects keeps_running_implies_ready (handler E i).
Proof.
  destruct i as [|[msg|]| | | | | |]; simpl handler.
  - unfold on_open, clearTimeout, ws_send. kri_body.
  - unfold on_message.
    apply (@respects_try_catch _ kri_trans); [|intros; kri_body].
    apply (@respects_bind _ kri_trans); [apply kri_handleServerMessage|intros _].
    destruct (equals (Msg.message msg) "SERVER_READY"); simpl when; [|kri_body].
    eapply respects_ext; [intros s; apply modify_modify|].
    unfold clearTimeout, resolve. kri_body.
  - unfold on_message. kri_body.
  - unfold on_error, clearTimeout, reject. kri_body.
  - unfold on_close. apply (@respects_bind _ kri_trans);
      [unfold clearTimeout; kri_body|intros _].
    eapply respects_ext; [intros s; apply modify_modify|].
    unfold reject. kri_body.
  - unfold on_timeout, reject. kri_body.
  - apply kri_initialize.
  - unfold sendRealtimeInput, ws_send. kri_body.
  - apply kri_close.
Qed.

Lemma kri_step (E : env) (i : input) :
  respects keeps_running_implies_ready (step E i).
Proof.
  intros s. unfold step, trace_of, state_of.
  pose proof (kri_handler E i (socket_moves i s)) as H.
  unfold trace_of, state_of in H.
  destruct (handler E i (socket_moves i s)) as [[r s1] tr1]; simpl in *.
  assert (H2 : respects keeps_running_implies_ready (initialize_resume E))
    by (unfold initialize_resume; kri_body).
  specialize (H2 s1). unfold trace_of, state_of in H2.
  destruct (initialize_resume E s1) as [[r2 s2] tr2]; simpl in *.
  intros I0. apply H2, H. clear - I0.
  destruct i; simpl; destruct (ws s); exact I0.
Qed.

Lemma run_running_implies_ready (ins : list (env * input)) (s : Session.t) :
  running_implies_ready s -> running_implies_ready (fst (run s ins)).
Proof.
  revert s; induction ins as [|[E i] ins IH]; intros s I0; simpl; auto.
  pose proof (kri_step E i s I0) as H. unfold state_of in H.
  destruct (step E i s) as [[r s1] tr1]; simpl in *.
  specialize (IH s1 H). destruct (run s1 ins) as [s2 tr2]; exact IH.
Qed.

Lemma initialize_resume_keeps_ws (E : env) :
  respects (keeps ws) (initialize_resume E).
Proof. unfold initialize_resume. keeps_body ws. Qed.

(** [close] in closed form. *)
Lemma close_unfold (E : env) (s : Session.t) :
  close E s =
  (Return tt,
   match ws s with
   | Some _ => set_ws None (set_isRunning false s)
   | None => set_isRunning false s
   end,
   match ws s with
   | Some OPEN =>
       WsSend END_OF_AUDIO
       :: match send_throws E END_OF_AUDIO with
          | Some _ => []
          | None => [WsClose]
          end ++ [RemoveAllListeners]
   | Some _ => [WsClose; RemoveAllListeners]
   | None => [RemoveAllListeners]
   end).
Proof.
  unfold close, ws_send, ws_close, try_catch, when, bind, get, modify, perform,
    ret, throw.
  destruct s as [m sid [[]|] run rdy u cnt txt tmo con ini]; simpl; try reflexivity;
    repeat match goal with
           | |- context [send_throws ?e ?f] => destruct (send_throws e f); simpl
           | |- context [close_throws ?e] => destruct (close_throws e); simpl
           end;
    reflexivity.
Qed.

Lemma unready_refl s : stays_unready s [] s.
Proof. intros H; exact H. Qed.

Lemma unready_trans s tr1 s1 tr2 s2 :
  stays_unready s tr1 s1 -> stays_unready s1 tr2 s2 ->
  stays_unready s (tr1 ++ tr2) s2.
Proof. unfold stays_unready; auto. Qed.

Ltac unready_body :=
  repeat first
    [ respects_step unready_refl unready_trans
    | match goal with
      | |- respects _ (modify _) =>
          let s0 := fresh "s" in let H := fresh "H" in
          intros s0 H; unfold state_of, modify; simpl;
          try (destruct (connection s0)); simpl; solve [ exact H | reflexivity ]
      | |- respects _ (perform _) => intros ? H; exact H
      | |- respects _ (emit _ _) => unfold emit
      | |- respects _ (settle_initialized _) =>
          apply (@respects_settle_initialized _ unready_trans);
          [ intros ? | unfold initialize_catch ]
      end ].

Lemma unready_handler (E : env) (i : input) :
  delivers_ready i = false -> respects stays_unready (handler E i).
Proof.
  intros D. destruct i as [|[msg|]| | | | | |]; simpl handler.
  - unfold on_open, clearTimeout, ws_send. unready_body.
  - simpl in D. unfold on_message. rewrite D. simpl when.
    unfold _handleServerMessage, not_awaited, close, ws_send, ws_close, emitSegment.
    unready_body.
  - unfold on_message. unready_body.
  - unfold on_error, clearTimeout, reject. unready_body.
  - unfold on_close, clearTimeout, reject. unready_body.
  - unfold on_timeout, reject. unready_body.
  - intros s. unfold initialize.
    assert (H : respects stays_unready (initialize_connect svc))
      by (unfold initialize_connect; unready_body).
    specialize (H s). unfold trace_of, state_of in *.
    destruct (initialize_connect svc s) as [[[u|e] s1] tr1]; simpl in *; auto.
    assert (H2 : respects stays_unready (settle_initialized (initialize_catch E e)))
      by unready_body.
    specialize (H2 s1). unfold trace_of, state_of in H2.
    destruct (settle_initialized (initialize_catch E e) s1) as [[r s2] tr2].
    simpl in *. intros I0. apply H2, H, I0.
  - unfold sendRealtimeInput, ws_send. unready_body.
  - unfold close, ws_send, ws_close. unready_body.
Qed.

Lemma unready_run (ins : list (env * input)) (s : Session.t) :
  Forall (fun turn => delivers_ready (snd turn) = false) ins ->
  serverReady s = false -> serverReady (fst (run s ins)) = false.
Proof.
  revert s; induction ins as [|[E i] ins IH]; intros s HF H; simpl; auto.
  inversion HF as [|x l HD HF']; subst. simpl in HD.
  assert (H1 : serverReady (state_of (step E i s)) = false).
  { unfold step, state_of.
    pose proof (unready_handler E i HD (socket_moves i s)) as K.
    unfold stays_unready, trace_of, state_of in K.
    destruct (handler E i (socket_moves i s)) as [[r s1] tr1]; simpl in *.
    assert (K2 : respects stays_unready (initialize_resume E))
      by (unfold initialize_resume; unready_body).
    specialize (K2 s1). unfold stays_unready, trace_of, state_of in K2.
    destruct (initialize_resume E s1) as [[r2 s2] tr2]; simpl in *.
    apply K2, K. destruct i; simpl; destruct (ws s); exact H. }
  unfold state_of in H1. destruct (step E i s) as [[r s1] tr1]; simpl in *.
  specialize (IH s1 HF' H1). destruct (run s1 ins) as [s2 tr2]; exact IH.
Qed.

(** C6. In any state a session can reach, a call of [sendRealtimeInput] made
    while the session is not ready ([serverReady] is false) or after [close]
    (which leaves [ws] null) writes nothing to the socket, changes nothing
    and returns normally.  [serverReady] is false as long as no SERVER_READY
    message has been delivered, and [ws] is null after every [close]. *)
Theorem sendRealtimeInput_dropped_when_not_ready
    (model sessionId : jsstring) (ins : list (env * input))
    (E : env) (audioData0 : audioData) :
  let s := fst (run (Session.new model sessionId) ins) in
  (serverReady s = false \/ ws s = None ->
   sendRealtimeInput E audioData0 s = (Return tt, s, []))
  /\ (Forall (fun turn => delivers_ready (snd turn) = false) ins ->
      serverReady s = false)
  /\ (forall E' s', ws (state_of (step E' call_close s')) = None).
Proof.
  intros s. split; [|split].
  2:{ intros HF. apply unready_run; [exact HF|reflexivity]. }
  - intros H. unfold sendRealtimeInput, bind, get.
    assert (I0 : running_implies_ready s)
      by (apply run_running_implies_ready; intros C; discriminate C).
    destruct H as [H|H].
    + destruct (isRunning s) eqn:R; [|reflexivity].
      rewrite (I0 R) in H. discriminate.
    + rewrite H. rewrite orb_true_r. reflexivity.
  - intros E' s'. unfold step.
    change (handler E' call_close (socket_moves call_close s'))
      with (close E' s').
    rewrite close_unfold.
    set (s1 := match ws s' with
               | Some _ => set_ws None (set_isRunning false s')
               | None => set_isRunning false s'
               end).
    assert (C : ws s1 = None)
      by (subst s1; destruct (ws s') eqn:W; simpl; auto).
    pose proof (initialize_resume_keeps_ws E' s1) as K. unfold keeps, state_of in K.
    unfold state_of.
    destruct (initialize_resume E' s1) as [[r2 s2] tr2]; simpl in *. congruence.
Qed.

Lemma sendRealtimeInput_dropped_when_not_ready_witness :
  let s := fst (run session0 [(calm, call_initialize running_service); (calm, ev_open)]) in
  serverReady s = false
  /\ sendRealtimeInput calm (Binary [Byte.x00; Byte.x40]) s = (Return tt, s, []).
Proof.
  intros s. split; [reflexivity|].
  apply (sendRealtimeInput_dropped_when_not_ready (str "whisper-base") (str "s1")
           [(calm, call_initialize running_service); (calm, ev_open)]
           calm (Binary [Byte.x00; Byte.x40])).
  left. reflexivity.
Defined.

(* ===================================================================== *)
(** * Lifecycle: close *)
(* ===================================================================== *)

(** C9. In every state and whatever the socket calls do, [close] returns
    without raising.  On an open socket it sends END_OF_AUDIO and then closes
    the socket (the close is skipped when the send throws, and either
    exception is swallowed); on a socket that is not open it only closes it;
    with no socket it performs no socket call.  In all cases the last thing it
    does is [removeAllListeners]. *)
Theorem close_never_raises (E : env) (s : Session.t) :
  result_of (close E s) = Return tt
  /\ trace_of (close E s) =
     match ws s with
     | Some OPEN =>
         WsSend END_OF_AUDIO
         :: match send_throws E END_OF_AUDIO with
            | Some _ => []
            | None => [WsClose]
            end ++ [RemoveAllListeners]
     | Some _ => [WsClose; RemoveAllListeners]
     | None => [RemoveAllListeners]
     end
  /\ last (trace_of (close E s)) WsClose = RemoveAllListeners.
Proof.
  rewrite close_unfold. unfold result_of, trace_of. simpl.
  repeat split.
  destruct (ws s) as [[]|]; try reflexivity.
  destruct (send_throws E END_OF_AUDIO); reflexivity.
Qed.

(* ===================================================================== *)
(** * Lifecycle: initialize *)
(* ===================================================================== *)

Lemma step_state (E : env) (i : input) (s : Session.t) :
  state_of (step E i s)
  = state_of (initialize_resume E (state_of (handler E i (socket_moves i s)))).
Proof.
  unfold step, state_of.
  destruct (handler E i (socket_moves i s)) as [[r s1] tr1]; simpl.
  destruct (initialize_resume E s1) as [[r2 s2] tr2]; reflexivity.
Qed.

(** C4, as stated, fails twice.  When the socket opens the timer is cleared,
    so with no readiness message the ten seconds pass and [initialize] is
    still pending; and when the timer does fire (before the socket opens)
    while 'error' has a listener, [initialize] catches the rejection and
    resolves to [false] instead of rejecting. *)
Lemma initialize_pending_after_open_and_timeout :
  initialized
    (fst (run session0 [(calm, call_initialize running_service);
                        (calm, ev_open);
                        (calm, ev_timeout)])) = Pending
  /\ initialized
       (fst (run session0 [(calm, call_initialize running_service);
                           (calm, ev_timeout)])) = Fulfilled false.
Proof. vm_compute. auto. Qed.

(** C4, amended. After a call of [initialize] that gets as far as the
    connection attempt, the timer is armed and [initialize] waits.  If the ten
    seconds pass while it is still armed (no 'open', 'error' or 'close' has
    been delivered), the awaited promise is rejected with the timeout error;
    [initialize] catches it and emits 'error' with that error: with a listener
    for 'error' it resolves to [false], with none the emitter throws the error
    and [initialize] rejects with it.  The 'open' handler clears the timer:
    after it the passing of the ten seconds changes nothing and [initialize]
    stays pending. *)
Theorem timeout_applies_until_open :
  (forall E model sessionId svc,
      startLiveServer svc = None ->
      let s := state_of (step E (call_initialize svc) (Session.new model sessionId)) in
      timeout s = true /\ awaiting s)
  /\ (forall E s,
        timeout s = true -> awaiting s ->
        result_of (step E ev_timeout s) = Return tt
        /\ trace_of (step E ev_timeout s) = [Emit (error ConnectionTimeout)]
        /\ initialized (state_of (step E ev_timeout s))
           = if unhandled_error E then Rejected ConnectionTimeout
             else Fulfilled false)
  /\ (forall E E' s,
        awaiting s ->
        let s' := state_of (step E ev_open s) in
        initialized s' = Pending
        /\ step E' ev_timeout s' = (Return tt, s', [])).
Proof.
  split; [|split].
  - intros E model sessionId svc H s. subst s. unfold awaiting.
    destruct svc as [r [e|] p]; simpl in H; [discriminate|].
    destruct r; cbv; auto.
  - intros E s T (C & I & R).
    destruct s as [m sid w run rdy u cnt txt tmo con ini]; simpl in *; subst.
    destruct E as [now st ct [|] b64]; cbv; auto.
  - intros E E' s (C & I & R) s'.
    assert (K : initialized s' = Pending /\ connection s' = Pending /\ timeout s' = false).
    { subst s'. destruct s as [m sid w run rdy u cnt txt tmo con ini]; simpl in *; subst.
      unfold step, state_of; simpl. unfold on_open, ws_send, clearTimeout, bind, get,
        perform, modify, ret, throw; simpl.
      destruct w as [w|]; simpl; auto.
      destruct (send_throws E _); simpl; auto. }
    destruct K as (K1 & K2 & K3). split; [exact K1|].
    generalize dependent s'. intros s' K1 K2 K3.
    destruct s' as [m sid w run rdy u cnt txt tmo con ini]; simpl in *; subst.
    destruct E' as [now st ct [|] b64]; reflexivity.
Qed.

Lemma timeout_applies_until_open_witness :
  let s := state_of (step calm (call_initialize running_service) session0) in
  timeout s = true /\ awaiting s
  /\ initialized (state_of (step calm ev_timeout s)) = Fulfilled false.
Proof.
  intros s.
  assert (H : timeout s = true /\ awaiting s)
    by (apply (proj1 timeout_applies_until_open calm (str "whisper-base") (str "s1")
                 running_service eq_refl)).
  destruct H as [T A]. split; [exact T|]. split; [exact A|].
  apply (proj1 (proj2 timeout_applies_until_open) calm s T A).
Defined.

Lemma not_rejected_keeps (s s' : Session.t) :
  initialized s' = initialized s -> not_rejected s -> not_rejected s'.
Proof. unfold not_rejected. intros -> H; exact H. Qed.

Lemma initialize_resume_not_rejected (E : env) (s : Session.t) :
  unhandled_error E = false ->
  not_rejected s -> not_rejected (state_of (initialize_resume E s)).
Proof.
  intros HE.
  destruct s as [m sid w run rdy u cnt txt tmo [|v|e] [|v'|e']];
    unfold not_rejected, initialize_resume, initialize_catch, emit, state_of,
      settle_initialized, bind, get, perform, ret, throw; simpl;
    rewrite ?HE; simpl; intros H e0; try apply H; discriminate.
Qed.

Lemma initialize_not_rejected (E : env) (svc : service) (s : Session.t) :
  unhandled_error E = false ->
  not_rejected s -> not_rejected (state_of (initialize E svc s)).
Proof.
  intros HE H. unfold initialize.
  assert (K : respects (keeps initialized) (initialize_connect svc))
    by (unfold initialize_connect; keeps_body initialized).
  specialize (K s). unfold keeps, state_of in *.
  destruct (initialize_connect svc s) as [[[u|e] s1] tr1]; simpl in *.
  - eapply not_rejected_keeps; eauto.
  - unfold settle_initialized, initialize_catch, emit, bind, perform, ret, throw.
    simpl. rewrite HE. simpl. intros e0; discriminate.
Qed.

Lemma handler_not_rejected (E : env) (i : input) (s : Session.t) :
  unhandled_error E = false ->
  not_rejected s -> not_rejected (state_of (handler E i s)).
Proof.
  intros HE H.
  assert (K : forall m : M unit, respects (keeps initialized) m ->
              not_rejected (state_of (m s)))
    by (intros m Hm; eapply not_rejected_keeps; [apply Hm|exact H]).
  destruct i; simpl handler.
  - apply K. unfold on_open, clearTimeout, ws_send. keeps_body initialized.
  - apply K. unfold on_message, _handleServerMessage, not_awaited, close,
      emitSegment, clearTimeout, resolve, ws_send, ws_close.
    keeps_body initialized.
  - apply K. unfold on_error, clearTimeout, reject. keeps_body initialized.
  - apply K. unfold on_close, clearTimeout, reject. keeps_body initialized.
  - apply K. unfold on_timeout, reject. keeps_body initialized.
  - apply initialize_not_rejected; assumption.
  - apply K. unfold sendRealtimeInput, ws_send. keeps_body initialized.
  - apply K. unfold close, ws_send, ws_close. keeps_body initialized.
Qed.

Lemma run_not_rejected (ins : list (env * input)) (s : Session.t) :
  Forall (fun turn => unhandled_error (fst turn) = false) ins ->
  not_rejected s -> not_rejected (fst (run s ins)).
Proof.
  revert s; induction ins as [|[E i] ins IH]; intros s HF H; simpl; auto.
  inversion HF as [|x l HE HF']; subst. simpl in HE.
  assert (H1 : not_rejected (state_of (step E i s))).
  { rewrite step_state.
    apply initialize_resume_not_rejected, handler_not_rejected; try assumption.
    eapply not_rejected_keeps; [|exact H].
    destruct i; simpl; destruct (ws s); reflexivity. }
  unfold state_of in H1. destruct (step E i s) as [[r s1] tr1]; simpl in *.
  specialize (IH s1 HF' H1). destruct (run s1 ins) as [s2 tr2]; exact IH.
Qed.

(** C8, as stated, fails: with a listener registered for 'error', a
    transport error before readiness does emit the event, but it does not
    reject [initialize]; the [catch] block turns it into the value [false]. *)
Lemma transport_error_resolves_initialize :
  initialized
    (fst (run session0 [(calm, call_initialize running_service);
                        (calm, ev_error (SocketError (str "ECONNREFUSED")))]))
  = Fulfilled false.
Proof. vm_compute. reflexivity. Qed.

(** C8, amended. While a listener is registered for 'error', every
    initialization failure makes [initialize] emit an 'error' event carrying
    the cause and resolve to [false]: a failing start of the backend, and,
    while [initialize] waits for the connection, a transport error, a
    transport closure, or the timer firing (which it can only do before the
    socket opens).  No exception escapes these turns, and the promise
    [initialize] returned is never rejected, in any run. *)
Theorem initialization_failure_resolves_false :
  (forall E svc cause s,
      unhandled_error E = false ->
      isLiveServerRunning svc = false -> startLiveServer svc = Some cause ->
      result_of (step E (call_initialize svc) s) = Return tt
      /\ initialized (state_of (step E (call_initialize svc) s)) = Fulfilled false
      /\ In (Emit (error cause)) (trace_of (step E (call_initialize svc) s)))
  /\ (forall E s i cause,
        unhandled_error E = false ->
        awaiting s -> failure s i cause ->
        result_of (step E i s) = Return tt
        /\ initialized (state_of (step E i s)) = Fulfilled false
        /\ In (Emit (error cause)) (trace_of (step E i s)))
  /\ (forall model sessionId ins,
        Forall (fun turn => unhandled_error (fst turn) = false) ins ->
        not_rejected (fst (run (Session.new model sessionId) ins))).
Proof.
  split; [|split].
  - intros E [r st p] cause s HE R S. simpl in R, S. subst r st.
    destruct s as [m sid w run rdy u cnt txt tmo con [|v|e]];
      destruct E as [now sth ct ue b64]; simpl in HE; subst ue;
      destruct con; cbv; auto.
  - intros E s i cause HE (C & I & R) F.
    destruct s as [m sid w run rdy u cnt txt tmo con ini]; simpl in *; subst.
    destruct E as [now sth ct ue b64]; simpl in HE; subst ue.
    destruct F as [err|code reason|T]; simpl in *; subst;
      destruct w; cbv; auto 10.
  - intros model sessionId ins HF. apply run_not_rejected; [exact HF|].
    intros e; discriminate.
Qed.

Lemma initialization_failure_resolves_false_witness :
  let s := state_of (step calm (call_initialize running_service) session0) in
  awaiting s
  /\ failure s (ev_close 1006 None) (WebSocketClosed 1006)
  /\ initialized (state_of (step calm (ev_close 1006 None) s)) = Fulfilled false.
Proof.
  intros s.
  assert (A : awaiting s) by (repeat split).
  assert (F : failure s (ev_close 1006 None) (WebSocketClosed 1006))
    by constructor.
  split; [exact A|]. split; [exact F|].
  apply (proj1 (proj2 initialization_failure_resolves_false) calm s _ _ eq_refl A F).
Defined.

(** With no listener for 'error' the same failures end otherwise: the
    emitter throws the error out of [emit].  Out of the [catch] block this
    rejects [initialize]; out of the socket's 'error' handler it escapes the
    handler before [reject] is reached, and [initialize] keeps waiting. *)
Lemma initialization_failure_with_error_unheard (E : env) (s : Session.t) :
  unhandled_error E = true -> awaiting s ->
  (forall code reason,
      initialized (state_of (step E (ev_close code reason) s))
      = Rejected (WebSocketClosed code))
  /\ (forall err,
        result_of (step E (ev_error err) s) = Throw err
        /\ initialized (state_of (step E (ev_error err) s)) = Pending).
Proof.
  intros HE (C & I & R).
  destruct s as [m sid w run rdy u cnt txt tmo con ini]; simpl in *; subst.
  destruct E as [now sth ct ue b64]; simpl in HE; subst ue.
  split.
  - intros code reason. destruct w; reflexivity.
  - intros err. destruct w; split; reflexivity.
Qed.

(* ===================================================================== *)
(** * The resampler: binary64 arithmetic on its indices *)
(* ===================================================================== *)

Import Resampler Binary64.

Lemma digits2_pos_digits (p : positive) : Zpos (digits2_pos p) = digits (Zpos p).
Proof.
  unfold digits. induction p as [p IH|p IH|]; simpl digits2_pos.
  - rewrite Pos2Z.inj_succ, IH.
    replace (Zpos p~1) with (2 * Zpos p + 1) by reflexivity.
    rewrite Z.log2_succ_double by lia. lia.
  - rewrite Pos2Z.inj_succ, IH.
    replace (Zpos p~0) with (2 * Zpos p) by reflexivity.
    rewrite Z.log2_double by lia. lia.
  - reflexivity.
Qed.

Lemma Zdigits2_digits (m : Z) : 0 < m -> Zdigits2 m = digits m.
Proof. destruct m; try lia. intros _. apply digits2_pos_digits. Qed.

Lemma digits_bounds (m : Z) : 0 < m -> 2 ^ (digits m - 1) <= m < 2 ^ digits m.
Proof.
  intros H. unfold digits. pose proof (Z.log2_spec m H) as L.
  replace (Z.log2 m + 1 - 1) with (Z.log2 m) by lia.
  replace (Z.log2 m + 1) with (Z.succ (Z.log2 m)) by lia. exact L.
Qed.

Lemma digits_unique (m d : Z) : 0 < d -> 2 ^ (d - 1) <= m < 2 ^ d -> digits m = d.
Proof.
  intros Hd H. unfold digits. rewrite (Z.log2_unique m (d - 1)); try lia.
  replace (Z.succ (d - 1)) with d by lia. exact H.
Qed.

Lemma digits_pos (m : Z) : 0 < m -> 0 < digits m.
Proof. intros H. unfold digits. pose proof (Z.log2_nonneg m). lia. Qed.

Lemma digits_mul_pow2 (m k : Z) : 0 < m -> 0 <= k -> digits (m * 2 ^ k) = digits m + k.
Proof. intros. unfold digits. rewrite Z.log2_mul_pow2 by lia. lia. Qed.

Lemma iter_pos_iter {A} (f : A -> A) (p : positive) (x : A) :
  iter_pos f p x = Pos.iter f x p.
Proof.
  revert x; induction p as [p IH|p IH|]; intros x; simpl.
  - rewrite !IH. rewrite <- !Pos.iter_swap. reflexivity.
  - rewrite !IH. reflexivity.
  - reflexivity.
Qed.

Lemma shr_1_spec (m : Z) (r s : bool) :
  0 <= m ->
  shr_1 {| shr_m := m; shr_r := r; shr_s := s |}
  = {| shr_m := m / 2; shr_r := Z.odd m; shr_s := r || s |}.
Proof.
  intros H. destruct m as [|p|p]; try lia; [reflexivity|].
  destruct p as [p|p|]; simpl shr_1; f_equal.
  - rewrite Pos2Z.inj_xI. Z.div_mod_to_equations. lia.
  - rewrite Pos2Z.inj_xO. Z.div_mod_to_equations. lia.
Qed.

Lemma sticky_step (m n : Z) :
  0 < n ->
  Z.testbit m (n - 1) || negb (m mod 2 ^ (n - 1) =? 0) = negb (m mod 2 ^ n =? 0).
Proof.
  intros Hn.
  assert (P : 0 < 2 ^ (n - 1)) by (apply Z.pow_pos_nonneg; lia).
  assert (E0 : 2 ^ n = 2 ^ (n - 1) * 2).
  { replace n with (n - 1 + 1) at 1 by lia. rewrite Z.pow_add_r by lia. reflexivity. }
  rewrite E0.
  rewrite Z.rem_mul_r by lia.
  rewrite Z.testbit_eqb by lia.
  pose proof (Z.mod_pos_bound m (2 ^ (n - 1)) P).
  pose proof (Z.mod_pos_bound (m / 2 ^ (n - 1)) 2 ltac:(lia)).
  destruct (Z.eqb_spec ((m / 2 ^ (n - 1)) mod 2) 1) as [E|E];
    destruct (Z.eqb_spec (m mod 2 ^ (n - 1)) 0) as [E2|E2]; simpl;
    symmetry; rewrite ?negb_true_iff, ?negb_false_iff, ?Z.eqb_neq, ?Z.eqb_eq; nia.
Qed.

Lemma iter_shr_1 (n : positive) (m : Z) (r s : bool) :
  0 <= m ->
  iter_pos shr_1 n {| shr_m := m; shr_r := r; shr_s := s |}
  = {| shr_m := m / 2 ^ Zpos n;
       shr_r := Z.testbit m (Zpos n - 1);
       shr_s := r || s || negb (m mod 2 ^ (Zpos n - 1) =? 0) |}.
Proof.
  intros H. rewrite iter_pos_iter. induction n as [|n IH] using Pos.peano_ind.
  - cbv [Pos.iter]. rewrite shr_1_spec by lia.
    change (Z.pos 1 - 1) with 0. change (2 ^ 0) with 1. change (2 ^ 1) with 2.
    rewrite Z.bit0_odd, Z.mod_1_r. simpl. rewrite orb_false_r. reflexivity.
  - rewrite Pos.iter_succ, IH.
    assert (P : 0 < 2 ^ Zpos n) by (apply Z.pow_pos_nonneg; lia).
    rewrite shr_1_spec by (apply Z.div_pos; lia).
    rewrite Pos2Z.inj_succ. f_equal.
    + rewrite Z.pow_succ_r by lia. rewrite Z.div_div by lia. f_equal. lia.
    + rewrite <- Z.bit0_odd. rewrite Z.div_pow2_bits by lia.
      f_equal. lia.
    + replace (Z.succ (Zpos n) - 1) with (Zpos n) by lia.
      rewrite <- (sticky_step m (Zpos n)) by lia.
      destruct r, s, (Z.testbit m (Zpos n - 1)), (m mod 2 ^ (Zpos n - 1) =? 0); reflexivity.
Qed.

Lemma fexp_normal (x : Z) : -1074 <= x - 53 -> fexp 53 1024 x = x - 53.
Proof. intros H. unfold fexp, emin. lia. Qed.

Lemma enc_shift (m k e : Z) : 0 < m -> 0 <= k -> enc (m * 2 ^ k) e = enc m (e + k).
Proof.
  intros Hm Hk. unfold enc. rewrite digits_mul_pow2 by lia.
  rewrite <- Z.shiftl_mul_pow2 by lia. rewrite Z.shiftl_shiftl by lia.
  f_equal; [f_equal; f_equal; lia | lia].
Qed.

Lemma enc_53 (m e : Z) : digits m = 53 -> 0 < m -> enc m e = S754_finite false (Z.to_pos m) e.
Proof.
  intros D H. unfold enc. rewrite D. simpl Z.sub. rewrite Z.shiftl_0_r.
  f_equal. lia.
Qed.

Lemma round_loc_rne (m n : Z) :
  0 <= m -> 0 < n ->
  round_nearest_even (m / 2 ^ n)
    (loc_of_shr_record
       {| shr_m := m / 2 ^ n;
          shr_r := Z.testbit m (n - 1);
          shr_s := false || false || negb (m mod 2 ^ (n - 1) =? 0) |})
  = rne m n.
Proof.
  intros Hm Hn. unfold rne.
  assert (P : 0 < 2 ^ (n - 1)) by (apply Z.pow_pos_nonneg; lia).
  assert (E0 : 2 ^ n = 2 ^ (n - 1) * 2).
  { replace n with (n - 1 + 1) at 1 by lia. rewrite Z.pow_add_r by lia. reflexivity. }
  rewrite (Z.testbit_eqb m (n - 1)) by lia.
  assert (R : m mod 2 ^ n = m mod 2 ^ (n - 1) + 2 ^ (n - 1) * ((m / 2 ^ (n - 1)) mod 2)).
  { rewrite E0. apply Z.rem_mul_r; lia. }
  pose proof (Z.mod_pos_bound m (2 ^ (n - 1)) P) as B1.
  pose proof (Z.mod_pos_bound (m / 2 ^ (n - 1)) 2 ltac:(lia)) as B2.
  set (q := m / 2 ^ n). clearbody q.
  rewrite R, E0. clear R E0.
  set (low := m mod 2 ^ (n - 1)) in *. set (b := (m / 2 ^ (n - 1)) mod 2) in *.
  set (h := 2 ^ (n - 1)) in *. clearbody low b h.
  assert (C : (2 * (low + h * b) ?= h * 2) =
              if b =? 1 then (if low =? 0 then Eq else Gt) else Lt).
  { destruct (Z.eqb_spec b 1) as [E|E]; [destruct (Z.eqb_spec low 0) as [E2|E2]|].
    - apply Z.compare_eq_iff. subst. lia.
    - apply Z.compare_gt_iff. nia.
    - apply Z.compare_lt_iff. nia. }
  rewrite C. clear C.
  destruct (b =? 1); destruct (low =? 0); reflexivity.
Qed.

Lemma rne_bounds (m n : Z) :
  0 <= m -> 0 <= n -> m / 2 ^ n <= rne m n <= m / 2 ^ n + 1.
Proof.
  intros. unfold rne. destruct (_ ?= _); try destruct (Z.even _); lia.
Qed.

(** The second normalisation of [binary_round_aux]: the rounded mantissa has
    53 digits or is [2^53]. *)
Lemma stage2 (m1 e1 : Z) :
  2 ^ 52 <= m1 <= 2 ^ 53 -> -1074 <= e1 -> e1 + 1 <= 971 ->
  (let '(mrs'', e'') := shr_fexp 53 1024 m1 e1 loc_Exact in
   match shr_m mrs'' with
   | Z0 => S754_zero false
   | Zpos m => if e'' <=? 1024 - 53 then S754_finite false m e'' else S754_infinity false
   | Zneg _ => S754_nan
   end) = enc m1 e1.
Proof.
  intros B L U.
  assert (C : m1 < 2 ^ 53 \/ m1 = 2 ^ 53) by lia. destruct C as [C|C].
  - assert (D : digits m1 = 53) by (apply digits_unique; simpl; lia).
    unfold shr_fexp. rewrite Zdigits2_digits by lia. rewrite D.
    rewrite fexp_normal by lia.
    replace (53 + e1 - 53 - e1) with 0 by lia. simpl shr. cbv beta iota.
    simpl shr_m. rewrite enc_53 by lia.
    destruct m1 as [|p|p]; try lia.
    replace (e1 <=? 1024 - 53) with true by (symmetry; apply Z.leb_le; lia).
    reflexivity.
  - subst m1. unfold shr_fexp. change (Zdigits2 (2 ^ 53)) with 54.
    rewrite fexp_normal by lia.
    replace (54 + e1 - 53 - e1) with 1 by lia. 
    cbv [shr shr_record_of_loc iter_pos shr_1 shr_m Z.pow Z.pow_pos Pos.iter Z.mul Pos.mul].
    unfold enc.
    replace (e1 + 1 <=? 1024 - 53) with true by (symmetry; apply Z.leb_le; lia).
    change (digits 9007199254740992) with 54. f_equal. lia.
Qed.

Lemma bra_round (m e : Z) :
  0 < m -> 53 <= digits m -> -1074 <= e + (digits m - 53) ->
  e + (digits m - 53) + 1 <= 971 ->
  binary_round_aux 53 1024 false m e loc_Exact = enc (rne m (digits m - 53)) (e + (digits m - 53)).
Proof.
  intros Hm Hd L U. unfold binary_round_aux.
  unfold shr_fexp at 1. rewrite Zdigits2_digits by lia.
  rewrite fexp_normal by lia.
  replace (digits m + e - 53 - e) with (digits m - 53) by lia.
  set (n := digits m - 53) in *.
  pose proof (digits_bounds m Hm) as B.
  assert (N : n = 0 \/ 0 < n) by lia. destruct N as [N|N].
  - rewrite N in *. rewrite Z.add_0_r in *. simpl shr. cbv beta iota. simpl shr_m. simpl loc_of_shr_record.
    simpl round_nearest_even.
    replace (rne m 0) with m.
    2:{ unfold rne. change (2 ^ 0) with 1. rewrite Z.mod_1_r, Z.div_1_r. reflexivity. }
    apply stage2; try lia. replace (digits m) with 53 in B by lia. simpl in B. simpl. lia.
  - destruct n as [|pn|pn] eqn:En; try lia.
    change (shr_record_of_loc m loc_Exact)
      with {| shr_m := m; shr_r := false; shr_s := false |}.
    unfold shr. rewrite iter_shr_1 by lia. cbv beta iota.
    cbv [shr_m].
    rewrite round_loc_rne by lia.
    apply stage2; try lia.
    pose proof (rne_bounds m (Zpos pn) ltac:(lia) ltac:(lia)) as RB.
    assert (P : 0 < 2 ^ Zpos pn) by (apply Z.pow_pos_nonneg; lia).
    assert (E1 : 2 ^ digits m = 2 ^ 53 * 2 ^ Zpos pn).
    { rewrite <- Z.pow_add_r by lia. f_equal. lia. }
    assert (E2 : 2 ^ (digits m - 1) = 2 ^ 52 * 2 ^ Zpos pn).
    { rewrite <- Z.pow_add_r by lia. f_equal. lia. }
    rewrite E1, E2 in B.
    assert (Q1 : 2 ^ 52 <= m / 2 ^ Zpos pn).
    { apply Z.div_le_lower_bound; lia. }
    assert (Q2 : m / 2 ^ Zpos pn < 2 ^ 53).
    { apply Z.div_lt_upper_bound; lia. }
    lia.
Qed.

Lemma mant_facts (m : Z) :
  0 < m -> digits m <= 53 ->
  0 < mant m /\ digits (mant m) = 53 /\ Z.shiftl m (53 - digits m) = mant m.
Proof.
  intros H D. unfold mant.
  assert (P : 0 < 2 ^ (53 - digits m)) by (apply Z.pow_pos_nonneg; lia).
  split; [nia|]. split.
  - rewrite digits_mul_pow2 by lia. lia.
  - apply Z.shiftl_mul_pow2. lia.
Qed.

Lemma enc_mant (m e : Z) :
  0 < m -> digits m <= 53 ->
  enc m e = S754_finite false (Z.to_pos (mant m)) (e + digits m - 53).
Proof.
  intros H D. unfold enc. destruct (mant_facts m H D) as (_ & _ & ->). reflexivity.
Qed.

Lemma bra_exact (c k e : Z) :
  0 < c -> 0 <= k -> digits c <= 53 -> 53 <= digits c + k ->
  -1074 <= e + k + digits c - 53 -> e + k + digits c - 53 + 1 <= 971 ->
  binary_round_aux 53 1024 false (c * 2 ^ k) e loc_Exact = enc c (e + k).
Proof.
  intros Hc Hk D1 D2 L U.
  assert (P : 0 < 2 ^ k) by (apply Z.pow_pos_nonneg; lia).
  assert (D : digits (c * 2 ^ k) = digits c + k) by (apply digits_mul_pow2; lia).
  rewrite bra_round; rewrite ?D; try lia; try nia.
  set (n := digits c + k - 53).
  assert (Pn : 0 < 2 ^ n) by (apply Z.pow_pos_nonneg; lia).
  assert (E : c * 2 ^ k = c * 2 ^ (k - n) * 2 ^ n).
  { rewrite <- Z.mul_assoc. rewrite <- Z.pow_add_r by lia. do 2 f_equal. lia. }
  assert (R : rne (c * 2 ^ k) n = c * 2 ^ (k - n)).
  { unfold rne. rewrite E. rewrite Z.mod_mul by lia. rewrite Z.div_mul by lia.
    assert (C : (2 * 0 ?= 2 ^ n) = Lt) by (apply Z.compare_lt_iff; lia).
    rewrite C. reflexivity. }
  rewrite R. rewrite enc_shift by lia. f_equal. lia.
Qed.

Lemma pos_iter_xO (p n : positive) : Zpos (Pos.iter xO p n) = Zpos p * 2 ^ Zpos n.
Proof.
  induction n as [|n IH] using Pos.peano_ind.
  - simpl. lia.
  - rewrite Pos.iter_succ, Pos2Z.inj_xO, IH, Pos2Z.inj_succ, Z.pow_succ_r by lia. lia.
Qed.

Lemma shl_align_le (p : positive) (e e' : Z) :
  e' <= e ->
  Zpos (fst (shl_align p e e')) = Zpos p * 2 ^ (e - e') /\ snd (shl_align p e e') = e'.
Proof.
  intros H. unfold shl_align. destruct (e' - e) as [|d|d] eqn:E; try lia.
  - cbn [fst snd]. replace (e - e') with 0 by lia. split; lia.
  - cbn [fst snd]. rewrite pos_iter_xO. pose proof (Pos2Z.opp_pos d).
    replace (e - e') with (Zpos d) by lia. split; lia.
Qed.

Lemma normalize_exact (c k e : Z) :
  0 < c -> 0 <= k -> digits c <= 53 ->
  -1074 <= e + k + digits c - 53 -> e + k + digits c - 53 + 1 <= 971 ->
  binary_normalize 53 1024 (c * 2 ^ k) e false = enc c (e + k).
Proof.
  intros Hc Hk D L U.
  assert (P : 0 < 2 ^ k) by (apply Z.pow_pos_nonneg; lia).
  assert (Hm : 0 < c * 2 ^ k) by nia.
  assert (Dm : digits (c * 2 ^ k) = digits c + k) by (apply digits_mul_pow2; lia).
  destruct (c * 2 ^ k) as [|p|p] eqn:Em; try lia.
  unfold binary_normalize, binary_round.
  rewrite digits2_pos_digits, Dm. rewrite fexp_normal by lia.
  assert (C : digits c + k < 53 \/ 53 <= digits c + k) by lia.
  destruct C as [C|C].
  - destruct (shl_align_le p e (digits c + k + e - 53) ltac:(lia)) as [A1 A2].
    destruct (shl_align p e (digits c + k + e - 53)) as [mz ez]. cbn [fst snd] in A1, A2.
    subst ez. rewrite A1, <- Em.
    rewrite <- Z.mul_assoc. rewrite <- Z.pow_add_r by lia.
    rewrite bra_exact; try lia. f_equal. lia.
  - unfold shl_align. destruct (digits c + k + e - 53 - e) as [|d|d] eqn:E; try lia.
    + rewrite <- Em. apply bra_exact; lia.
    + rewrite <- Em. apply bra_exact; lia.
Qed.

Lemma of_Z_enc (z : Z) : 0 < z -> digits z <= 53 -> of_Z z = enc z 0.
Proof.
  intros H D. unfold of_Z. pose proof (digits_pos z H).
  replace z with (z * 2 ^ 0) at 1 by (change (2 ^ 0) with 1; lia).
  rewrite normalize_exact by lia. reflexivity.
Qed.

Lemma of_Z_2 : of_Z 2 = S754_finite false 4503599627370496 (-51).
Proof. reflexivity. Qed.

Lemma ratio_eq : ratio = S754_finite false 6004799503160661 (-53).
Proof. vm_compute. reflexivity. Qed.

Lemma Fmul_two (a e : Z) :
  0 < a -> digits a <= 53 -> -900 <= e <= 900 ->
  Fmul (enc a e) (of_Z 2) = enc a (e + 1).
Proof.
  intros Ha D He. pose proof (digits_pos a Ha) as Dp.
  destruct (mant_facts a Ha D) as (M1 & M2 & M3).
  rewrite enc_mant, of_Z_2 by assumption. unfold Fmul, SFmul. simpl xorb.
  rewrite Pos2Z.inj_mul, Z2Pos.id by lia.
  change (Z.pos 4503599627370496) with (2 ^ 52).
  rewrite bra_exact; rewrite ?M2; try lia.
  unfold mant. rewrite enc_shift by lia. f_equal. lia.
Qed.

Lemma div_eucl_div_mod (a b : Z) : Z.div_eucl a b = (a / b, a mod b).
Proof. unfold Z.div, Z.modulo. destruct (Z.div_eucl a b); reflexivity. Qed.

Lemma Fdiv_two (a e : Z) :
  0 < a -> digits a <= 53 -> -900 <= e <= 900 ->
  Fdiv (enc a e) (of_Z 2) = enc a (e - 1).
Proof.
  intros Ha D He. pose proof (digits_pos a Ha) as Dp.
  destruct (mant_facts a Ha D) as (M1 & M2 & M3).
  rewrite enc_mant, of_Z_2 by assumption. unfold Fdiv, SFdiv, SFdiv_core_binary.
  rewrite Z2Pos.id by lia.
  rewrite (Zdigits2_digits (mant a)) by lia. rewrite M2.
  change (Zdigits2 (Z.pos 4503599627370496)) with 53.
  set (e1 := e + digits a - 53).
  rewrite fexp_normal by lia.
  replace (Z.min (53 + e1 - (53 + -51) - 53) (e1 - -51)) with (e1 - 2) by lia.
  replace (e1 - -51 - (e1 - 2)) with 53 by lia.
  rewrite Z.shiftl_mul_pow2 by lia.
  rewrite div_eucl_div_mod.
  change (Z.pos 4503599627370496) with (2 ^ 52).
  replace (mant a * 2 ^ 53) with (mant a * 2 * 2 ^ 52)
    by (change (2 ^ 53) with (2 * 2 ^ 52); lia).
  rewrite Z.div_mul, Z.mod_mul by (simpl; lia).
  change (new_location (2 ^ 52) 0) with loc_Exact. simpl xorb.
  replace (mant a * 2) with (mant a * 2 ^ 1) by (change (2 ^ 1) with 2; lia).
  rewrite bra_exact; rewrite ?M2; try lia.
  unfold mant. rewrite enc_shift by lia. f_equal. subst e1. lia.
Qed.

Lemma Fadd_same (a b e : Z) :
  0 < a -> 0 < b -> digits (a + b) <= 53 -> -900 <= e <= 900 ->
  Fadd (enc a e) (enc b e) = enc (a + b) e.
Proof.
  intros Ha Hb D He.
  assert (Da : digits a <= digits (a + b)) by (apply Z.add_le_mono_r, Z.log2_le_mono; lia).
  assert (Db : digits b <= digits (a + b)) by (apply Z.add_le_mono_r, Z.log2_le_mono; lia).
  pose proof (digits_pos a Ha). pose proof (digits_pos b Hb).
  destruct (mant_facts a Ha ltac:(lia)) as (A1 & A2 & A3).
  destruct (mant_facts b Hb ltac:(lia)) as (B1 & B2 & B3).
  rewrite (enc_mant a), (enc_mant b) by lia. unfold Fadd, SFadd.
  set (ea := e + digits a - 53). set (eb := e + digits b - 53).
  set (ez := Z.min ea eb).
  destruct (shl_align_le (Z.to_pos (mant a)) ea ez ltac:(lia)) as [SA _].
  destruct (shl_align_le (Z.to_pos (mant b)) eb ez ltac:(lia)) as [SB _].
  unfold cond_Zopp. rewrite SA, SB. rewrite !Z2Pos.id by lia.
  assert (Ea : mant a * 2 ^ (ea - ez) = a * 2 ^ (e - ez)).
  { unfold mant. rewrite <- Z.mul_assoc. rewrite <- Z.pow_add_r by lia.
    do 2 f_equal. lia. }
  assert (Eb : mant b * 2 ^ (eb - ez) = b * 2 ^ (e - ez)).
  { unfold mant. rewrite <- Z.mul_assoc. rewrite <- Z.pow_add_r by lia.
    do 2 f_equal. lia. }
  rewrite Ea, Eb, <- Z.mul_add_distr_r.
  pose proof (digits_pos (a + b) ltac:(lia)).
  assert (Hz : ez <= e /\ e - 53 < ez) by (subst ez ea eb; lia).
  rewrite normalize_exact; try lia. f_equal. lia.
Qed.

Lemma Fsub_same (a b e : Z) :
  0 < b -> b < a -> digits a <= 53 -> -900 <= e <= 900 ->
  Fsub (enc a e) (enc b e) = enc (a - b) e.
Proof.
  intros Hb Hab D He.
  assert (Db : digits b <= digits a) by (apply Z.add_le_mono_r, Z.log2_le_mono; lia).
  assert (Dc : digits (a - b) <= digits a) by (apply Z.add_le_mono_r, Z.log2_le_mono; lia).
  pose proof (digits_pos (a - b) ltac:(lia)). pose proof (digits_pos b Hb).
  destruct (mant_facts a ltac:(lia) ltac:(lia)) as (A1 & A2 & A3).
  destruct (mant_facts b Hb ltac:(lia)) as (B1 & B2 & B3).
  rewrite (enc_mant a), (enc_mant b) by lia. unfold Fsub, SFsub.
  set (ea := e + digits a - 53). set (eb := e + digits b - 53).
  set (ez := Z.min ea eb).
  destruct (shl_align_le (Z.to_pos (mant a)) ea ez ltac:(lia)) as [SA _].
  destruct (shl_align_le (Z.to_pos (mant b)) eb ez ltac:(lia)) as [SB _].
  unfold cond_Zopp. rewrite SA, SB. rewrite !Z2Pos.id by lia.
  assert (Ea : mant a * 2 ^ (ea - ez) = a * 2 ^ (e - ez)).
  { unfold mant. rewrite <- Z.mul_assoc. rewrite <- Z.pow_add_r by lia.
    do 2 f_equal. lia. }
  assert (Eb : mant b * 2 ^ (eb - ez) = b * 2 ^ (e - ez)).
  { unfold mant. rewrite <- Z.mul_assoc. rewrite <- Z.pow_add_r by lia.
    do 2 f_equal. lia. }
  rewrite Ea, Eb, <- Z.mul_sub_distr_r.
  assert (Hz : ez <= e /\ e - 53 < ez) by (subst ez ea eb; lia).
  rewrite normalize_exact; try lia. f_equal. lia.
Qed.

Lemma digits_le_lt (a b : Z) : 0 < a -> 0 < b -> digits a < digits b -> a < b.
Proof.
  intros Ha Hb H. pose proof (digits_bounds a Ha). pose proof (digits_bounds b Hb).
  assert (2 ^ digits a <= 2 ^ (digits b - 1)) by (apply Z.pow_le_mono_r; lia). lia.
Qed.

Lemma compare_enc (a b e : Z) :
  0 < a -> 0 < b -> digits a <= 53 -> digits b <= 53 ->
  SFcompare (enc a e) (enc b e) = Some (a ?= b).
Proof.
  intros Ha Hb Da Db.
  destruct (mant_facts a Ha Da) as (A1 & A2 & A3).
  destruct (mant_facts b Hb Db) as (B1 & B2 & B3).
  rewrite !enc_mant by lia. unfold SFcompare. f_equal.
  destruct (Z.compare_spec (e + digits a - 53) (e + digits b - 53)) as [E|E|E].
  - rewrite Pos.compare_cont_spec.
    match goal with
    | |- Pos.switch_Eq Eq ?c = _ => transitivity c; [destruct c; reflexivity|]
    end.
    rewrite Pos2Z.inj_compare, !Z2Pos.id by lia.
    unfold mant. replace (digits b) with (digits a) by lia.
    assert (P : 0 < 2 ^ (53 - digits a)) by (apply Z.pow_pos_nonneg; lia).
    destruct (Z.compare_spec a b) as [C|C|C].
    + subst. apply Z.compare_refl.
    + apply Z.compare_lt_iff. nia.
    + apply Z.compare_gt_iff. nia.
  - symmetry. apply Z.compare_lt_iff. apply digits_le_lt; lia.
  - symmetry. apply Z.compare_gt_iff. apply digits_le_lt; lia.
Qed.

Lemma floor_enc (a e : Z) :
  0 < a -> digits a <= 53 -> Math_floor (enc a e) = Z.shiftl a e.
Proof.
  intros Ha D. destruct (mant_facts a Ha D) as (A1 & A2 & A3).
  rewrite enc_mant by lia. unfold Math_floor, signed.
  rewrite Z2Pos.id by lia. rewrite <- A3. rewrite Z.shiftl_shiftl by lia.
  f_equal. lia.
Qed.

Lemma to_integer_enc (a e : Z) :
  0 < a -> digits a <= 53 -> 0 <= e -> to_integer (enc a e) = Some (a * 2 ^ e).
Proof.
  intros Ha D He. destruct (mant_facts a Ha D) as (A1 & A2 & A3).
  pose proof (floor_enc a e Ha D) as F.
  rewrite enc_mant in * by lia. unfold Math_floor in F. unfold to_integer.
  rewrite F. rewrite Z.shiftl_mul_pow2 by lia.
  destruct (0 <=? e + digits a - 53) eqn:C; [reflexivity|].
  apply Z.leb_gt in C.
  rewrite Z2Pos.id by lia. rewrite Z.land_ones by lia.
  assert (E : mant a = a * 2 ^ e * 2 ^ (- (e + digits a - 53))).
  { unfold mant. rewrite <- Z.mul_assoc. rewrite <- Z.pow_add_r by lia.
    do 2 f_equal. lia. }
  rewrite E at 1. rewrite Z.mod_mul by (apply Z.pow_nonzero; lia). reflexivity.
Qed.

Lemma small_cases (P : Z -> Prop) (k : nat) (n : Z) :
  (forall j, (j <= k)%nat -> P (Z.of_nat j)) -> 0 <= n <= Z.of_nat k -> P n.
Proof.
  intros H B. rewrite <- (Z2Nat.id n) by lia. apply H. lia.
Qed.

Ltac pow2_consts :=
  repeat match goal with
         | |- context [2 ^ ?e] =>
             let v := eval vm_compute in (2 ^ e) in change (2 ^ e) with v
         | H : context [2 ^ ?e] |- _ =>
             let v := eval vm_compute in (2 ^ e) in change (2 ^ e) with v in H
         end.

Lemma rne_ratio_floor (L n0 : Z) :
  0 < L < 2 ^ 48 -> 0 <= n0 <= 48 ->
  2 ^ (n0 + 52) <= L * 6004799503160661 < 2 ^ (n0 + 53) ->
  rne (L * 6004799503160661) n0 / 2 ^ (54 - n0) = L / 3.
Proof.
  intros HL Hn. pattern n0. apply (small_cases _ 48); [|simpl; lia].
  clear n0 Hn. intros j Hj B. change (2 ^ 48) with 281474976710656 in HL.
  unfold rne.
  do 49 (destruct j as [|j];
         [ simpl Z.of_nat in *; pow2_consts;
           match goal with
           | |- context [Z.even ?q] => rewrite (Zeven_mod q)
           end;
           match goal with
           | |- context [?a ?= ?b] => destruct (Z.compare_spec a b)
           end;
           try match goal with
               | |- context [?a =? 0] => destruct (Z.eqb_spec a 0)
               end;
           Z.div_mod_to_equations; lia
         | ]).
  lia.
Qed.

Lemma rne_shift (x n t : Z) :
  0 <= n -> 0 <= t -> rne (x * 2 ^ t) (n + t) = rne x n.
Proof.
  intros Hn Ht. unfold rne.
  assert (Pt : 0 < 2 ^ t) by (apply Z.pow_pos_nonneg; lia).
  assert (Pn : 0 < 2 ^ n) by (apply Z.pow_pos_nonneg; lia).
  rewrite Z.pow_add_r by lia.
  rewrite Z.div_mul_cancel_r by lia.
  rewrite Z.mul_mod_distr_r by lia.
  assert (C : (2 * (x mod 2 ^ n * 2 ^ t) ?= 2 ^ n * 2 ^ t) = (2 * (x mod 2 ^ n) ?= 2 ^ n)).
  { destruct (Z.compare_spec (2 * (x mod 2 ^ n)) (2 ^ n)) as [C|C|C].
    - apply Z.compare_eq_iff. nia.
    - apply Z.compare_lt_iff. nia.
    - apply Z.compare_gt_iff. nia. }
  rewrite C. reflexivity.
Qed.

Lemma floor_enc_rounded (R e : Z) :
  2 ^ 52 <= R <= 2 ^ 53 -> e <= 0 -> Math_floor (enc R e) = R / 2 ^ (- e).
Proof.
  intros B He. assert (C : R < 2 ^ 53 \/ R = 2 ^ 53) by lia. destruct C as [C|C].
  - assert (D : digits R = 53) by (apply digits_unique; simpl; lia).
    rewrite floor_enc by lia. apply Z.shiftl_div_pow2. lia.
  - subst R. change (2 ^ 53) with (2 ^ 52 * 2 ^ 1).
    rewrite enc_shift by (simpl; lia).
    assert (D : digits (2 ^ 52) = 53) by reflexivity.
    rewrite floor_enc by (rewrite ?D; simpl; lia).
    assert (D' : e = 0 \/ e < 0) by lia. destruct D' as [D'|D'].
    + subst e. reflexivity.
    + rewrite Z.shiftl_div_pow2 by lia.
      replace (- e) with (- (e + 1) + 1) by lia.
      rewrite Z.pow_add_r by lia.
      assert (P : 2 ^ 1 <> 0) by (simpl; lia).
      rewrite Z.div_mul_cancel_r by (try apply Z.pow_nonzero; lia).
      reflexivity.
Qed.

Lemma Fmul_ratio (L : Z) :
  0 < L < 2 ^ 48 ->
  Math_floor (Fmul (enc L (-1)) ratio) = L / 3.
Proof.
  intros HL.
  assert (DL : digits L <= 48).
  { pose proof (digits_bounds L ltac:(lia)) as B.
    destruct (Z_le_gt_dec (digits L) 48) as [C|C]; [exact C|exfalso].
    assert (2 ^ 48 <= 2 ^ (digits L - 1)) by (apply Z.pow_le_mono_r; lia). lia. }
  pose proof (digits_pos L ltac:(lia)) as DP.
  destruct (mant_facts L ltac:(lia) ltac:(lia)) as (M1 & M2 & M3).
  rewrite enc_mant, ratio_eq by lia. unfold Fmul, SFmul. simpl xorb.
  rewrite Pos2Z.inj_mul, Z2Pos.id by lia.
  set (M := Z.pos 6004799503160661).
  assert (BM : 2 ^ digits L * 2 ^ 51 <= L * M < 2 ^ digits L * 2 ^ 53).
  { pose proof (digits_bounds L ltac:(lia)) as B.
    assert (E : 2 ^ digits L = 2 * 2 ^ (digits L - 1)).
    { rewrite <- Z.pow_succ_r by lia. f_equal. lia. }
    subst M. change (2 ^ 51) with 2251799813685248. change (2 ^ 53) with 9007199254740992.
    nia. }
  set (n0 := digits (L * M) - 53).
  assert (Hn0 : digits L - 2 <= n0 <= digits L).
  { subst n0. pose proof (digits_bounds (L * M) ltac:(subst M; lia)) as B.
    rewrite <- !Z.pow_add_r in BM by lia.
    destruct (Z_lt_ge_dec (digits (L * M)) (digits L + 51)) as [C|C].
    - exfalso. assert (2 ^ digits (L * M) <= 2 ^ (digits L + 51))
        by (apply Z.pow_le_mono_r; lia). lia.
    - destruct (Z_le_gt_dec (digits (L * M)) (digits L + 53)) as [C2|C2]; [lia|].
      exfalso. assert (2 ^ (digits L + 53) <= 2 ^ (digits (L * M) - 1))
        by (apply Z.pow_le_mono_r; lia). lia. }
  assert (Hn0' : 0 <= n0).
  { subst n0. assert (52 <= Z.log2 (L * M)); [|unfold digits; lia].
    apply Z.log2_le_pow2; subst M; lia. }
  set (t := 53 - digits L) in *.
  assert (Dm : digits (mant L * M) = n0 + t + 53).
  { unfold mant. fold t. replace (L * 2 ^ t * M) with (L * M * 2 ^ t) by lia.
    rewrite digits_mul_pow2 by (subst M t; lia). subst n0. lia. }
  rewrite bra_round; rewrite ?Dm; try (subst M t; lia).
  replace (n0 + t + 53 - 53) with (n0 + t) by lia.
  unfold mant at 1. fold t. replace (L * 2 ^ t * M) with (L * M * 2 ^ t) by lia.
  rewrite rne_shift by (subst t; lia).
  pose proof (digits_bounds (L * M) ltac:(subst M; lia)) as B.
  replace (digits (L * M)) with (n0 + 53) in B by (subst n0; lia).
  replace (n0 + 53 - 1) with (n0 + 52) in B by lia.
  rewrite floor_enc_rounded.
  - replace (- (-1 + digits L - 53 + -53 + (n0 + t))) with (54 - n0) by (subst t; lia).
    apply rne_ratio_floor; first [lia | exact B].
  - pose proof (rne_bounds (L * M) n0 ltac:(subst M; lia) Hn0') as RB.
    assert (Pn : 0 < 2 ^ n0) by (apply Z.pow_pos_nonneg; lia).
    rewrite !Z.pow_add_r in B by lia.
    assert (Q1 : 2 ^ 52 <= (L * M) / 2 ^ n0) by (apply Z.div_le_lower_bound; lia).
    assert (Q2 : (L * M) / 2 ^ n0 < 2 ^ 53) by (apply Z.div_lt_upper_bound; lia).
    lia.
  - subst t. lia.
Qed.

Lemma bra_inexact (q e : Z) (c : comparison) :
  0 < q -> -1000 <= e <= 900 ->
  (digits q = 53 /\ c = Lt) \/ (digits q = 54 /\ q mod 2 = 0) ->
  binary_round_aux 53 1024 false q e (loc_Inexact c) = enc q e.
Proof.
  intros Hq He [[D C]|[D C]].
  - subst c. unfold binary_round_aux. unfold shr_fexp at 1.
    rewrite Zdigits2_digits, D by lia. rewrite fexp_normal by lia.
    replace (53 + e - 53 - e) with 0 by lia. simpl shr. cbv beta iota.
    cbv [shr_m loc_of_shr_record shr_record_of_loc round_nearest_even].
    pose proof (digits_bounds q Hq) as B. rewrite D in B.
    apply stage2; simpl in *; lia.
  - unfold binary_round_aux. unfold shr_fexp at 1.
    rewrite Zdigits2_digits, D by lia. rewrite fexp_normal by lia.
    replace (54 + e - 53 - e) with 1 by lia.
    pose proof (digits_bounds q Hq) as B. rewrite D in B.
    change (2 ^ (54 - 1)) with 9007199254740992 in B.
    change (2 ^ 54) with 18014398509481984 in B.
    assert (O : Z.odd q = false).
    { rewrite <- Z.negb_even, Zeven_mod, C. reflexivity. }
    assert (S1 : forall r s, r || s = true ->
              shr {| shr_m := q; shr_r := r; shr_s := s |} e 1
              = ({| shr_m := q / 2; shr_r := false; shr_s := true |}, e + 1)).
    { intros r s Hrs. unfold shr. cbv [iter_pos]. rewrite shr_1_spec by lia.
      rewrite O, Hrs. reflexivity. }
    assert (S2 : shr (shr_record_of_loc q (loc_Inexact c)) e 1
                 = ({| shr_m := q / 2; shr_r := false; shr_s := true |}, e + 1)).
    { destruct c; simpl shr_record_of_loc; apply S1; reflexivity. }
    rewrite S2. cbv beta iota.
    cbv [shr_m loc_of_shr_record round_nearest_even].
    rewrite stage2.
    + assert (E : q = q / 2 * 2 ^ 1).
      { change (2 ^ 1) with 2. Z.div_mod_to_equations. lia. }
      rewrite E at 2.
      rewrite enc_shift by (try lia; Z.div_mod_to_equations; lia).
      reflexivity.
    + change (2 ^ 52) with 4503599627370496. change (2 ^ 53) with 9007199254740992.
      Z.div_mod_to_equations. lia.
    + lia.
    + lia.
Qed.

Lemma Fdiv_ratio (i : Z) :
  0 < i < 2 ^ 48 -> Fdiv (enc i 0) ratio = enc (3 * i) (-1).
Proof.
  intros Hi.
  assert (Di : digits i <= 48).
  { pose proof (digits_bounds i ltac:(lia)) as B.
    destruct (Z_le_gt_dec (digits i) 48) as [C|C]; [exact C|exfalso].
    assert (2 ^ 48 <= 2 ^ (digits i - 1)) by (apply Z.pow_le_mono_r; lia). lia. }
  pose proof (digits_pos i ltac:(lia)) as DP.
  destruct (mant_facts i ltac:(lia) ltac:(lia)) as (M1 & M2 & M3).
  rewrite enc_mant, ratio_eq by lia. unfold Fdiv, SFdiv, SFdiv_core_binary.
  rewrite Z2Pos.id by lia.
  rewrite (Zdigits2_digits (mant i)) by lia. rewrite M2.
  change (Zdigits2 (Z.pos 6004799503160661)) with 53.
  set (e1 := 0 + digits i - 53).
  rewrite fexp_normal by (subst e1; lia).
  replace (Z.min (53 + e1 - (53 + -53) - 53) (e1 - -53)) with e1 by lia.
  replace (e1 - -53 - e1) with 53 by lia.
  rewrite Z.shiftl_mul_pow2 by lia.
  rewrite div_eucl_div_mod.
  (* the mantissa is a multiple of four *)
  set (t := 53 - digits i).
  set (w := i * 2 ^ (t - 2)).
  assert (Pw : 0 < 2 ^ (t - 2)) by (apply Z.pow_pos_nonneg; subst t; lia).
  assert (Ew : mant i = 4 * w).
  { unfold mant, w. fold t. replace t with (t - 2 + 2) at 1 by lia.
    rewrite Z.pow_add_r by (subst t; lia). change (2 ^ 2) with 4. lia. }
  pose proof (digits_bounds (mant i) M1) as BA. rewrite M2 in BA.
  change (2 ^ (53 - 1)) with 4503599627370496 in BA.
  change (2 ^ 53) with 9007199254740992 in BA.
  rewrite Ew in *. change (2 ^ 53) with 9007199254740992.
  assert (Q : 4 * w * 9007199254740992 / Z.pos 6004799503160661 = 6 * w).
  { symmetry. apply (Z.div_unique_pos _ _ _ (2 * w)); lia. }
  assert (R : (4 * w * 9007199254740992) mod Z.pos 6004799503160661 = 2 * w).
  { symmetry. apply (Z.mod_unique_pos _ _ (6 * w)); lia. }
  rewrite Q, R. simpl xorb.
  unfold new_location. change (Z.even (Z.pos 6004799503160661)) with false.
  cbv iota. unfold new_location_odd.
  replace (2 * w =? 0) with false by (symmetry; apply Z.eqb_neq; lia).
  rewrite bra_inexact; try (subst e1; lia).
  - replace (6 * w) with (3 * i * 2 ^ (t - 1)).
    + rewrite enc_shift by (subst t; lia). f_equal. subst e1 t. lia.
    + unfold w. replace (t - 1) with (t - 2 + 1) by lia.
      rewrite Z.pow_add_r by (subst t; lia). change (2 ^ 1) with 2. lia.
  - destruct (Z.compare_spec (2 * (2 * w) + 1) (Z.pos 6004799503160661)) as [C|C|C].
    + left. split; [|reflexivity]. apply digits_unique; pow2_consts; lia.
    + left. split; [|reflexivity]. apply digits_unique; pow2_consts; lia.
    + right. split; [|Z.div_mod_to_equations; lia]. apply digits_unique; pow2_consts; lia.
Qed.

Lemma readInt16LE_int16_at (buf : list Byte.byte) (x : number) (o : Z) :
  to_integer x = Some o -> readInt16LE buf x = int16_at buf o.
Proof. intros H. unfold readInt16LE, int16_at. rewrite H. reflexivity. Qed.

Lemma digits_le_bound (a k : Z) : 0 < a -> 0 <= k -> a < 2 ^ k -> digits a <= k.
Proof.
  intros Ha Hk H. pose proof (digits_bounds a Ha) as B.
  destruct (Z_le_gt_dec (digits a) k) as [C|C]; [exact C|exfalso].
  assert (2 ^ k <= 2 ^ (digits a - 1)) by (apply Z.pow_le_mono_r; lia). lia.
Qed.

Lemma digits_mono (a b : Z) : a <= b -> digits a <= digits b.
Proof. intros H. unfold digits. pose proof (Z.log2_le_mono a b H). lia. Qed.

Lemma Math_min_enc (a b e : Z) :
  0 < a -> 0 < b -> digits a <= 53 -> digits b <= 53 ->
  Math_min (enc a e) (enc b e) = enc (Z.min a b) e.
Proof.
  intros Ha Hb Da Db. unfold Math_min. rewrite compare_enc by assumption.
  destruct (Z.compare_spec a b) as [C|C|C].
  - subst. rewrite Z.min_id. reflexivity.
  - rewrite Z.min_l by lia. reflexivity.
  - rewrite Z.min_r by lia. reflexivity.
Qed.

Lemma numInputSamples_enc (buf : list Byte.byte) :
  0 < Z.of_nat (List.length buf) < 2 ^ 48 ->
  numInputSamples buf = enc (Z.of_nat (List.length buf)) (-1).
Proof.
  intros H. unfold numInputSamples.
  set (L := Z.of_nat (List.length buf)) in *.
  assert (D : digits L <= 48) by (apply digits_le_bound; lia).
  rewrite of_Z_enc by lia. rewrite Fdiv_two by lia. reflexivity.
Qed.

Lemma numOutputSamples_eq (buf : list Byte.byte) :
  Z.of_nat (List.length buf) < 2 ^ 48 ->
  numOutputSamples buf = Z.of_nat (List.length buf) / 3.
Proof.
  intros H. unfold numOutputSamples.
  destruct buf as [|b buf].
  - reflexivity.
  - rewrite numInputSamples_enc by (simpl List.length in *; lia).
    apply Fmul_ratio. simpl List.length in *. lia.
Qed.

(** The two offsets [sample] reads at. *)
Lemma sample_offsets (buf : list Byte.byte) (i : Z) :
  let L := Z.of_nat (List.length buf) in
  L < 2 ^ 48 -> 0 <= i < L / 3 ->
  sample buf (numInputSamples buf) ratio i =
  match int16_at buf (2 * (3 * i / 2)) with
  | None => None
  | Some r0 =>
      match int16_at buf (Z.min (2 * (3 * i / 2) + 2) (L - 2)) with
      | None => None
      | Some r1 => Some (mix r0 r1 i)
      end
  end.
Proof.
  intros L HL Hi.
  assert (L3 : 3 <= L) by (Z.div_mod_to_equations; lia).
  assert (DL : digits L <= 48) by (apply digits_le_bound; lia).
  assert (DL2 : digits (L - 2) <= 48) by (apply digits_le_bound; lia).
  rewrite numInputSamples_enc by (fold L; lia). fold L.
  assert (S1 : Fsub (enc L (-1)) (of_Z 1) = enc (L - 2) (-1)).
  { change (of_Z 1) with (enc (1 * 2 ^ 1) (-1)). apply Fsub_same; simpl; lia. }
  unfold sample. rewrite S1. fold (mix).
  assert (I : i = 0 \/ 0 < i) by lia. destruct I as [I|I].
  - subst i. change (3 * 0 / 2) with 0. change (2 * 0) with 0.
    assert (E0 : Fdiv (of_Z 0) ratio = S754_zero false) by (vm_compute; reflexivity).
    assert (E1 : Fadd (of_Z 0) (of_Z 1) = enc (1 * 2 ^ 1) (-1)) by reflexivity.
    assert (E2 : Fmul (of_Z 0) (of_Z 2) = S754_zero false) by reflexivity.
    unfold mix. rewrite E0. change (Math_floor (S754_zero false)) with 0.
    rewrite E1, E2.
    rewrite (readInt16LE_int16_at buf (S754_zero false) 0) by reflexivity.
    assert (D2 : digits (1 * 2 ^ 1) = 2) by reflexivity.
    assert (Dmin : digits (Z.min (1 * 2 ^ 1) (L - 2)) <= 2).
    { rewrite <- D2. apply digits_mono. lia. }
    assert (Pmin : 0 < Z.min (1 * 2 ^ 1) (L - 2)) by (change (1 * 2 ^ 1) with 2; lia).
    rewrite Math_min_enc by (rewrite ?D2; change (1 * 2 ^ 1) with 2; lia).
    rewrite Fmul_two by lia.
    rewrite (readInt16LE_int16_at buf _ (Z.min (1 * 2 ^ 1) (L - 2))).
    2:{ rewrite to_integer_enc by lia. f_equal. change (2 ^ (-1 + 1)) with 1. lia. }
    reflexivity.
  - assert (Hi48 : i < 2 ^ 48) by (Z.div_mod_to_equations; lia).
    assert (Di : digits i <= 48) by (apply digits_le_bound; lia).
    rewrite (of_Z_enc i) by lia. rewrite Fdiv_ratio by lia.
    assert (D3 : digits (3 * i) <= 50).
    { apply digits_le_bound; lia. }
    rewrite floor_enc by lia.
    rewrite Z.shiftl_div_pow2 by lia. change (2 ^ (- -1)) with 2.
    set (z := 3 * i / 2).
    assert (Hz : 0 < z < 2 ^ 49).
    { subst z. Z.div_mod_to_equations. lia. }
    assert (Dz : digits z <= 49) by (apply digits_le_bound; lia).
    assert (Dz1 : digits (z + 1) <= 50).
    { apply digits_le_bound; lia. }
    rewrite (of_Z_enc z) by lia.
    change (of_Z 1) with (enc 1 0).
    rewrite Fadd_same by lia.
    replace (enc (z + 1) 0) with (enc ((z + 1) * 2 ^ 1) (-1))
      by (rewrite enc_shift by lia; reflexivity).
    assert (Dz2 : digits ((z + 1) * 2 ^ 1) <= 51).
    { rewrite digits_mul_pow2 by lia. lia. }
    rewrite Math_min_enc by lia.
    assert (Dmin : digits (Z.min ((z + 1) * 2 ^ 1) (L - 2)) <= 51).
    { apply Z.le_trans with (digits ((z + 1) * 2 ^ 1)); [|lia].
      apply digits_mono. lia. }
    rewrite !Fmul_two by lia.
    rewrite (readInt16LE_int16_at buf _ (2 * z)).
    2:{ rewrite to_integer_enc by lia. f_equal. change (2 ^ (0 + 1)) with 2. lia. }
    rewrite (readInt16LE_int16_at buf _ (Z.min (2 * z + 2) (L - 2))).
    2:{ rewrite to_integer_enc by lia. f_equal. change (2 ^ (-1 + 1)) with 1.
        change (2 ^ 1) with 2. lia. }
    unfold mix. rewrite (of_Z_enc i) by lia. rewrite Fdiv_ratio by lia.
    rewrite floor_enc by lia. rewrite Z.shiftl_div_pow2 by lia.
    change (2 ^ (- -1)) with 2. fold z. rewrite (of_Z_enc z) by lia.
    reflexivity.
Qed.

Lemma int16_at_some (buf : list Byte.byte) (o : Z) :
  0 <= o -> o + 2 <= Z.of_nat (List.length buf) ->
  exists r, int16_at buf o = Some r.
Proof.
  intros H0 H2. unfold int16_at.
  replace ((0 <=? o) && (o + 2 <=? Z.of_nat (List.length buf))) with true
    by (symmetry; apply andb_true_iff; split; apply Z.leb_le; lia).
  destruct (nth_error buf (Z.to_nat o)) as [lo|] eqn:E1.
  - destruct (nth_error buf (Z.to_nat o + 1)) as [hi|] eqn:E2.
    + eexists; reflexivity.
    + apply nth_error_None in E2. lia.
  - apply nth_error_None in E1. lia.
Qed.

Lemma int16_at_firstn (buf : list Byte.byte) (m : nat) (o : Z) :
  0 <= o -> o + 2 <= Z.of_nat m -> (m <= List.length buf)%nat ->
  int16_at (firstn m buf) o = int16_at buf o.
Proof.
  intros H0 H2 Hm. unfold int16_at.
  rewrite length_firstn, Nat.min_l by lia.
  replace ((0 <=? o) && (o + 2 <=? Z.of_nat m)) with true
    by (symmetry; apply andb_true_iff; split; apply Z.leb_le; lia).
  replace ((0 <=? o) && (o + 2 <=? Z.of_nat (List.length buf))) with true
    by (symmetry; apply andb_true_iff; split; apply Z.leb_le; lia).
  rewrite !nth_error_firstn.
  replace (Z.to_nat o <? m)%nat with true by (symmetry; apply Nat.ltb_lt; lia).
  replace (Z.to_nat o + 1 <? m)%nat with true by (symmetry; apply Nat.ltb_lt; lia).
  reflexivity.
Qed.

Lemma sample_some (buf : list Byte.byte) (i : Z) :
  Z.of_nat (List.length buf) < 2 ^ 48 ->
  0 <= i < Z.of_nat (List.length buf) / 3 ->
  exists x, sample buf (numInputSamples buf) ratio i = Some x.
Proof.
  intros HL Hi. rewrite sample_offsets by assumption.
  set (L := Z.of_nat (List.length buf)) in *.
  destruct (int16_at_some buf (2 * (3 * i / 2))) as [r0 E0];
    [Z.div_mod_to_equations; lia | fold L; Z.div_mod_to_equations; lia |].
  destruct (int16_at_some buf (Z.min (2 * (3 * i / 2) + 2) (L - 2))) as [r1 E1];
    [Z.div_mod_to_equations; lia | fold L; Z.div_mod_to_equations; lia |].
  rewrite E0, E1. eexists; reflexivity.
Qed.

Lemma fill_some (buf : list Byte.byte) (n : nat) (i : Z) :
  Z.of_nat (List.length buf) < 2 ^ 48 ->
  0 <= i -> i + Z.of_nat n <= Z.of_nat (List.length buf) / 3 ->
  exists out, fill buf (numInputSamples buf) ratio i n = Some out
              /\ List.length out = n.
Proof.
  intros HL. revert i. induction n as [|n IH]; intros i Hi Hn.
  - exists []. split; reflexivity.
  - destruct (sample_some buf i HL ltac:(lia)) as [x Ex].
    destruct (IH (i + 1) ltac:(lia) ltac:(lia)) as (out & Eo & Lo).
    exists (x :: out). simpl fill. rewrite Ex, Eo. split; [reflexivity|].
    simpl. rewrite Lo. reflexivity.
Qed.

Lemma fill_ext (A B : list Byte.byte) (a b : number) (n : nat) (i : Z) :
  (forall j, i <= j < i + Z.of_nat n -> sample A a ratio j = sample B b ratio j) ->
  fill A a ratio i n = fill B b ratio i n.
Proof.
  revert i. induction n as [|n IH]; intros i H; [reflexivity|].
  simpl fill. rewrite (H i) by lia. rewrite (IH (i + 1)); [reflexivity|].
  intros j Hj. apply H. lia.
Qed.

Lemma fill_app (A : list Byte.byte) (a : number) (n m : nat) (i : Z) :
  fill A a ratio i (n + m) =
  match fill A a ratio i n with
  | None => None
  | Some xs =>
      match fill A a ratio (i + Z.of_nat n) m with
      | None => None
      | Some ys => Some (xs ++ ys)
      end
  end.
Proof.
  revert i. induction n as [|n IH]; intros i.
  - simpl. rewrite Z.add_0_r. destruct (fill A a ratio i m); reflexivity.
  - cbn [Nat.add fill]. destruct (sample A a ratio i) as [x|]; [|reflexivity].
    rewrite IH. replace (i + 1 + Z.of_nat n) with (i + Z.of_nat (S n)) by lia.
    destruct (fill A a ratio (i + 1) n) as [xs|]; [|reflexivity].
    destruct (fill A a ratio (i + Z.of_nat (S n)) m); reflexivity.
Qed.

(** The resampler raises no error, and returns as many samples as a third of
    the byte length, rounded down. *)
Lemma resample_total (buf : list Byte.byte) :
  Z.of_nat (List.length buf) < 2 ^ 48 ->
  exists out, resampleAndConvertToFloat32 buf = Some out
              /\ Z.of_nat (List.length out) = Z.of_nat (List.length buf) / 3.
Proof.
  intros HL. unfold resampleAndConvertToFloat32.
  rewrite numOutputSamples_eq by assumption.
  set (L := Z.of_nat (List.length buf)) in *.
  assert (H3 : 0 <= L / 3) by (Z.div_mod_to_equations; lia).
  destruct (fill_some buf (Z.to_nat (L / 3)) 0 HL ltac:(lia) ltac:(fold L; lia))
    as (out & Eo & Lo).
  exists out. split; [exact Eo|]. rewrite Lo. lia.
Qed.

(* ===================================================================== *)
(** * The resampler: length of the output *)
(* ===================================================================== *)

(** C2. A buffer of [N] 16-bit samples (2N bytes, fewer than 2^48) is
    resampled without error to exactly floor(N * 16000 / 24000) samples, the
    product [numInputSamples * ratio] being computed and floored in binary64;
    a buffer of 24000 samples gives 16000. *)
Theorem resample_output_length :
  (forall (buf : list Byte.byte) (N : nat),
      List.length buf = (2 * N)%nat ->
      Z.of_nat (List.length buf) < 2 ^ 48 ->
      exists out,
        resampleAndConvertToFloat32 buf = Some out
        /\ Z.of_nat (List.length out) = Z.of_nat N * 16000 / 24000)
  /\ (forall buf : list Byte.byte,
        Z.of_nat (List.length buf) = 2 * 24000 ->
        exists out,
          resampleAndConvertToFloat32 buf = Some out
          /\ Z.of_nat (List.length out) = 16000).
Proof.
  split.
  - intros buf N HN HL. destruct (resample_total buf HL) as (out & Eo & Lo).
    exists out. split; [exact Eo|]. rewrite Lo, HN.
    Z.div_mod_to_equations. lia.
  - intros buf HN. destruct (resample_total buf) as (out & Eo & Lo).
    + rewrite HN. reflexivity.
    + exists out. split; [exact Eo|]. rewrite Lo, HN. reflexivity.
Qed.

Lemma resample_output_length_witness :
  exists out,
    resampleAndConvertToFloat32
      [Byte.x00; Byte.x40; Byte.x00; Byte.x20; Byte.xff; Byte.x7f] = Some out
    /\ Z.of_nat (List.length out) = 3 * 16000 / 24000.
Proof.
  apply (proj1 resample_output_length
           [Byte.x00; Byte.x40; Byte.x00; Byte.x20; Byte.xff; Byte.x7f] 3%nat).
  - reflexivity.
  - reflexivity.
Defined.

(** C10, as stated, fails on a buffer of three bytes: the function counts
    1.5 input samples, [1.5 * ratio] is 1 in binary64, and it returns one
    sample (0.5, from the first two bytes), while the first two bytes alone
    give no sample at all. *)
Lemma odd_length_keeps_partial_sample :
  resampleAndConvertToFloat32 three_bytes = Some [S754_finite false 8388608 (-24)]
  /\ resampleAndConvertToFloat32 (firstn 2 three_bytes) = Some [].
Proof. split; vm_compute; reflexivity. Qed.

(** C10, amended. The resampler raises no error on any buffer (of fewer than
    2^48 bytes) and returns a third of the byte length, rounded down, in
    samples.  It does not truncate an odd byte length 2k+1: it counts k + 1/2
    input samples.  Its output is then the output for the first 2k bytes,
    followed by one more sample when k mod 3 = 1; when k mod 3 is not 1 the
    two outputs are equal. *)
Theorem resample_total_and_odd_length :
  (forall buf : list Byte.byte,
      Z.of_nat (List.length buf) < 2 ^ 48 ->
      exists out,
        resampleAndConvertToFloat32 buf = Some out
        /\ Z.of_nat (List.length out) = Z.of_nat (List.length buf) / 3)
  /\ (forall (buf : list Byte.byte) (k : nat),
        List.length buf = (2 * k + 1)%nat ->
        Z.of_nat (List.length buf) < 2 ^ 48 ->
        exists out out' extra,
          resampleAndConvertToFloat32 buf = Some out
          /\ resampleAndConvertToFloat32 (firstn (2 * k) buf) = Some out'
          /\ out = out' ++ extra
          /\ List.length extra = if (Z.of_nat k mod 3 =? 1)%Z then 1%nat else 0%nat).
Proof.
  split; [exact resample_total|].
  intros buf k Hk HL. rewrite Hk in HL.
  set (buf' := firstn (2 * k) buf).
  assert (L' : List.length buf' = (2 * k)%nat)
    by (unfold buf'; rewrite length_firstn; lia).
  set (n' := Z.to_nat (Z.of_nat (2 * k) / 3)).
  set (d := if (Z.of_nat k mod 3 =? 1)%Z then 1%nat else 0%nat).
  assert (Hn : Z.to_nat (Z.of_nat (2 * k + 1) / 3) = (n' + d)%nat).
  { unfold n', d. destruct (Z.eqb_spec (Z.of_nat k mod 3) 1);
      Z.div_mod_to_equations; lia. }
  unfold resampleAndConvertToFloat32.
  rewrite !numOutputSamples_eq by (rewrite ?L', ?Hk; lia).
  rewrite Hk, L', Hn. fold n'. rewrite fill_app.
  assert (Hn' : Z.of_nat n' <= Z.of_nat (2 * k) / 3).
  { unfold n'. rewrite Z2Nat.id; [lia|]. Z.div_mod_to_equations; lia. }
  assert (Hnd : Z.of_nat n' + Z.of_nat d <= Z.of_nat (2 * k + 1) / 3).
  { rewrite <- Nat2Z.inj_add, <- Hn. rewrite Z2Nat.id; [lia|].
    Z.div_mod_to_equations; lia. }
  assert (E : fill buf (numInputSamples buf) ratio 0 n'
              = fill buf' (numInputSamples buf') ratio 0 n').
  { apply fill_ext. intros j Hj.
    rewrite !sample_offsets
      by (rewrite ?L', ?Hk; try lia; Z.div_mod_to_equations; lia).
    rewrite L', Hk.
    assert (O0 : 2 * (3 * j / 2) + 4 <= Z.of_nat (2 * k))
      by (Z.div_mod_to_equations; lia).
    rewrite !Z.min_l by lia.
    unfold buf'. rewrite !int16_at_firstn by (try lia; Z.div_mod_to_equations; lia).
    reflexivity. }
  rewrite E.
  destruct (fill_some buf' n' 0) as (out' & Eo' & Lo'); rewrite ?L'; try lia.
  destruct (fill_some buf d (0 + Z.of_nat n')) as (extra & Ee & Le);
    rewrite ?Hk; try lia.
  rewrite Eo', Ee. exists (out' ++ extra), out', extra. repeat split. exact Le.
Qed.

Lemma resample_total_and_odd_length_witness :
  exists out out' extra,
    resampleAndConvertToFloat32 three_bytes = Some out
    /\ resampleAndConvertToFloat32 (firstn (2 * 1) three_bytes) = Some out'
    /\ out = out' ++ extra
    /\ List.length extra = 1%nat.
Proof.
  apply (proj2 resample_total_and_odd_length three_bytes 1%nat).
  - reflexivity.
  - reflexivity.
Defined.

(* ===================================================================== *)
(** * Further properties of the session *)
(* ===================================================================== *)

Lemma set_lastEmittedText_same (s : Session.t) :
  set_lastEmittedText (lastEmittedText s) s = s.
Proof. destruct s; reflexivity. Qed.

Lemma set_lastEmittedText_twice (a b : jsstring) (s : Session.t) :
  set_lastEmittedText a (set_lastEmittedText b s) = set_lastEmittedText a s.
Proof. reflexivity. Qed.

Lemma emitSegment_unfold (E : env) (seg : Segment.t) (s : Session.t) :
  emitSegment E seg s =
  if truthy (textOf seg) && negb (jsstring_eqb (textOf seg) (lastEmittedText s))
  then (Return tt, set_lastEmittedText (textOf seg) s,
        [Emit (transcription (transcription_of E s seg))])
  else (Return tt, s, []).
Proof.
  unfold emitSegment, bind, get. fold (textOf seg).
  destruct (truthy (textOf seg) && negb (jsstring_eqb (textOf seg) (lastEmittedText s)));
    reflexivity.
Qed.

Lemma for_of_emitSegment_kept (E : env) (l : list Segment.t) (s : Session.t) :
  for_of l (emitSegment E) s =
  (Return tt,
   set_lastEmittedText (last (map textOf (kept (lastEmittedText s) l)) (lastEmittedText s)) s,
   map (fun seg => Emit (transcription (transcription_of E s seg)))
       (kept (lastEmittedText s) l)).
Proof.
  revert s. induction l as [|seg l IH]; intros s.
  - simpl. rewrite set_lastEmittedText_same. reflexivity.
  - cbn [for_of kept]. unfold bind. rewrite emitSegment_unfold.
    destruct (truthy (textOf seg) && negb (jsstring_eqb (textOf seg) (lastEmittedText s))) eqn:C.
    + rewrite IH. cbn [lastEmittedText set_lastEmittedText sessionId map].
      rewrite last_cons_default. reflexivity.
    + rewrite IH. reflexivity.
Qed.

Lemma payloads_app (a b : list action) :
  payloads (a ++ b) = payloads a ++ payloads b.
Proof.
  induction a as [|x a IH]; simpl; auto.
  destruct x as [[p| |]| | | | | | |]; simpl; rewrite ?IH; auto.
Qed.

Lemma payloads_emitted (E : env) (s : Session.t) (l : list Segment.t) :
  payloads (map (fun seg => Emit (transcription (transcription_of E s seg))) l)
  = map (transcription_of E s) l.
Proof. induction l as [|a l IH]; simpl; rewrite ?IH; reflexivity. Qed.

Lemma transcriptions_emitted (E : env) (s : Session.t) (l : list Segment.t) :
  transcriptions (map (fun seg => Emit (transcription (transcription_of E s seg))) l)
  = map textOf l.
Proof. induction l as [|a l IH]; simpl; rewrite ?IH; reflexivity. Qed.

(** [_handleServerMessage] on a message that reaches the loop. *)
Lemma handleServerMessage_segments (E : env) (msg : Msg.t) (s : Session.t)
    (x : Segment.t) (l : list Segment.t) :
  isControl msg = false -> Msg.segments msg = Some (x :: l) ->
  _handleServerMessage E msg s =
  (Return tt,
   set_emittedCompletedCount (List.length (completedOf msg))
     (set_lastEmittedText
        (last (map textOf (kept (lastEmittedText s)
                             (skipn (emittedCompletedCount s) (completedOf msg))))
              (lastEmittedText s)) s),
   map (fun seg => Emit (transcription (transcription_of E s seg)))
       (kept (lastEmittedText s) (skipn (emittedCompletedCount s) (completedOf msg)))).
Proof.
  intros C S. unfold isControl in C.
  apply orb_false_iff in C. destruct C as [C C3].
  apply orb_false_iff in C. destruct C as [C1 C2].
  unfold _handleServerMessage, completedOf. rewrite C1, C2, C3, S.
  unfold bind at 1, get at 1. unfold bind.
  rewrite for_of_emitSegment_kept. unfold modify. rewrite app_nil_r. reflexivity.
Qed.

(** On any other message no transcription is emitted. *)
Lemma handleServerMessage_other (E : env) (msg : Msg.t) (s : Session.t) :
  isControl msg = true \/ Msg.segments msg = None \/ Msg.segments msg = Some [] ->
  payloads (trace_of (_handleServerMessage E msg s)) = [].
Proof.
  intros H. unfold _handleServerMessage, isControl in *.
  destruct (equals (Msg.message msg) "SERVER_READY"); [reflexivity|].
  destruct (equals (Msg.status msg) "WAIT"); [reflexivity|].
  destruct (equals (Msg.message msg) "DISCONNECT").
  - unfold not_awaited, try_catch. rewrite close_unfold. unfold trace_of. simpl.
    destruct (ws s) as [[]|]; try reflexivity.
    destruct (send_throws E END_OF_AUDIO); reflexivity.
  - simpl in H. destruct H as [H|[H|H]]; [discriminate| |]; rewrite H; reflexivity.
Qed.

Lemma subseq_refl {A} (l : list A) : subseq l l.
Proof. induction l; constructor; auto. Qed.

Lemma kept_subseq (prev : jsstring) (l : list Segment.t) : subseq (kept prev l) l.
Proof.
  revert prev; induction l as [|seg l IH]; intros prev; simpl.
  - constructor.
  - destruct (truthy (textOf seg) && negb (jsstring_eqb (textOf seg) prev));
      constructor; apply IH.
Qed.

Lemma subseq_Forall {A} (P : A -> Prop) (l1 l2 : list A) :
  subseq l1 l2 -> Forall P l2 -> Forall P l1.
Proof.
  induction 1 as [|a l1 l2 H IH|a l1 l2 H IH]; intros F; auto.
  - inversion F; subst. constructor; auto.
  - inversion F; subst. auto.
Qed.

Lemma Forall_skipn {A} (P : A -> Prop) (n : nat) (l : list A) :
  Forall P l -> Forall P (skipn n l).
Proof.
  revert l; induction n as [|n IH]; intros l F; simpl; auto.
  destruct l; auto. inversion F; subst. auto.
Qed.

Lemma completedOf_completed (msg : Msg.t) :
  Forall (fun seg => Segment.completed seg = true) (completedOf msg).
Proof.
  unfold completedOf. destruct (Msg.segments msg) as [l|]; [|constructor].
  apply Forall_forall. intros seg H. apply filter_In in H. tauto.
Qed.

(** X4. The transcription events a message gives rise to come, in order,
    from completed segments of the message that lie beyond the counter: each
    carries the trimmed text, [start] and [end] of its segment, the time of
    the runtime and the session's id. *)
Theorem emitted_events_come_from_new_completed_segments
    (E : env) (msg : Msg.t) (s : Session.t) :
  exists segs,
    subseq segs (skipn (emittedCompletedCount s) (completedOf msg))
    /\ Forall (fun seg => Segment.completed seg = true) segs
    /\ payloads (trace_of (_handleServerMessage E msg s))
       = map (transcription_of E s) segs.
Proof.
  destruct (isControl msg) eqn:C.
  - exists []. rewrite handleServerMessage_other by auto.
    split; [|split; [constructor|reflexivity]].
    induction (skipn _ _); constructor; auto.
  - destruct (Msg.segments msg) as [[|x l]|] eqn:S.
    + exists []. rewrite handleServerMessage_other by auto.
      split; [|split; [constructor|reflexivity]].
      induction (skipn _ _); constructor; auto.
    + exists (kept (lastEmittedText s) (skipn (emittedCompletedCount s) (completedOf msg))).
      split; [apply kept_subseq|]. split.
      * eapply subseq_Forall; [apply kept_subseq|].
        apply Forall_skipn, completedOf_completed.
      * rewrite (handleServerMessage_segments E msg s x l C S).
        unfold trace_of. cbn [snd]. apply payloads_emitted.
    + exists []. rewrite handleServerMessage_other by auto.
      split; [|split; [constructor|reflexivity]].
      induction (skipn _ _); constructor; auto.
Qed.

(** ** Completeness of the reconciler *)

Lemma kept_all (prev : jsstring) (l : list Segment.t) :
  Forall (fun seg => textOf seg <> []) l ->
  chain prev (map textOf l) ->
  kept prev l = l.
Proof.
  revert prev; induction l as [|seg l IH]; intros prev F C; [reflexivity|].
  inversion F as [|? ? N F']; subst. simpl in C. destruct C as [D C].
  simpl. destruct (textOf seg) as [|c t] eqn:T; [congruence|].
  simpl truthy. apply jsstring_eqb_neq in D. rewrite D. simpl.
  rewrite IH; auto.
Qed.

(** X5. When the newly completed segments of a message have non-empty
    trimmed texts, each different from the one before it and the first from
    the text emitted last, every one of them is emitted, in order. *)
Theorem new_segments_with_distinct_texts_are_all_emitted
    (E : env) (msg : Msg.t) (s : Session.t) :
  isControl msg = false ->
  Msg.segments msg <> None -> Msg.segments msg <> Some [] ->
  Forall (fun seg => textOf seg <> [])
         (skipn (emittedCompletedCount s) (completedOf msg)) ->
  chain (lastEmittedText s)
        (map textOf (skipn (emittedCompletedCount s) (completedOf msg))) ->
  payloads (trace_of (_handleServerMessage E msg s))
  = map (transcription_of E s) (skipn (emittedCompletedCount s) (completedOf msg)).
Proof.
  intros C N1 N2 F H.
  destruct (Msg.segments msg) as [[|x l]|] eqn:S; try congruence.
  rewrite (handleServerMessage_segments E msg s x l C S).
  unfold trace_of. cbn [snd]. rewrite payloads_emitted.
  rewrite kept_all by assumption. reflexivity.
Qed.

(** ** Delivery in parts *)

Lemma kept_app (prev : jsstring) (l1 l2 : list Segment.t) :
  kept prev (l1 ++ l2)
  = kept prev l1 ++ kept (last (map textOf (kept prev l1)) prev) l2.
Proof.
  revert prev; induction l1 as [|seg l1 IH]; intros prev; [reflexivity|].
  simpl. destruct (truthy (textOf seg) && negb (jsstring_eqb (textOf seg) prev)).
  - rewrite IH. cbn [map app]. rewrite last_cons_default. reflexivity.
  - apply IH.
Qed.

Lemma skipn_app_le {A} (n : nat) (l1 l2 : list A) :
  (n <= List.length l1)%nat -> skipn n (l1 ++ l2) = skipn n l1 ++ l2.
Proof.
  intros H. rewrite skipn_app. replace (n - List.length l1)%nat with 0%nat by lia.
  reflexivity.
Qed.

Lemma skipn_app_length {A} (l1 l2 : list A) : skipn (List.length l1) (l1 ++ l2) = l2.
Proof.
  rewrite skipn_app, skipn_all, Nat.sub_diag. reflexivity.
Qed.

(** What [_handleServerMessage] emits and where it leaves the two fields of
    the reconciler, for a message that is not a control message. *)
Lemma handleServerMessage_texts (E : env) (msg : Msg.t) (s : Session.t) :
  isControl msg = false ->
  (emittedCompletedCount s <= List.length (completedOf msg))%nat ->
  let new := skipn (emittedCompletedCount s) (completedOf msg) in
  transcriptions (trace_of (_handleServerMessage E msg s))
    = map textOf (kept (lastEmittedText s) new)
  /\ state_of (_handleServerMessage E msg s)
     = set_emittedCompletedCount (List.length (completedOf msg))
         (set_lastEmittedText
            (last (map textOf (kept (lastEmittedText s) new)) (lastEmittedText s)) s).
Proof.
  intros C L new.
  destruct (Msg.segments msg) as [[|x l]|] eqn:S.
  - assert (Z0 : completedOf msg = []) by (unfold completedOf; rewrite S; reflexivity).
    subst new. rewrite Z0 in *. simpl in L.
    assert (emittedCompletedCount s = 0%nat) as Hc by lia.
    unfold _handleServerMessage, isControl in *.
    apply orb_false_iff in C. destruct C as [C C3].
    apply orb_false_iff in C. destruct C as [C1 C2].
    rewrite C1, C2, C3, S. rewrite skipn_nil. simpl.
    split; [reflexivity|]. unfold state_of; simpl.
    destruct s; simpl in *; subst; reflexivity.
  - rewrite (handleServerMessage_segments E msg s x l C S).
    unfold trace_of, state_of. cbn [fst snd]. fold new.
    rewrite transcriptions_emitted. split; reflexivity.
  - assert (Z0 : completedOf msg = []) by (unfold completedOf; rewrite S; reflexivity).
    subst new. rewrite Z0 in *. simpl in L.
    assert (emittedCompletedCount s = 0%nat) as Hc by lia.
    unfold _handleServerMessage, isControl in *.
    apply orb_false_iff in C. destruct C as [C C3].
    apply orb_false_iff in C. destruct C as [C1 C2].
    rewrite C1, C2, C3, S. rewrite skipn_nil. simpl.
    split; [reflexivity|]. unfold state_of; simpl.
    destruct s; simpl in *; subst; reflexivity.
Qed.

(** X6. A completed history that grows can be delivered in parts: a message
    and then one that extends its completed list emit the same texts, and
    leave the session in the same state, as the longer message alone. *)
Theorem growing_history_can_be_delivered_in_parts
    (E1 E2 E3 : env) (m1 m2 : Msg.t) (extra : list Segment.t) (s : Session.t) :
  isControl m1 = false -> isControl m2 = false ->
  completedOf m2 = completedOf m1 ++ extra ->
  (emittedCompletedCount s <= List.length (completedOf m1))%nat ->
  let s1 := state_of (_handleServerMessage E1 m1 s) in
  transcriptions (trace_of (_handleServerMessage E1 m1 s))
    ++ transcriptions (trace_of (_handleServerMessage E2 m2 s1))
  = transcriptions (trace_of (_handleServerMessage E3 m2 s))
  /\ state_of (_handleServerMessage E2 m2 s1)
     = state_of (_handleServerMessage E3 m2 s).
Proof.
  intros C1 C2 Eq L s1.
  assert (L2 : (emittedCompletedCount s <= List.length (completedOf m2))%nat)
    by (rewrite Eq, length_app; lia).
  destruct (handleServerMessage_texts E1 m1 s C1 L) as [T1 S1].
  destruct (handleServerMessage_texts E3 m2 s C2 L2) as [T3 S3].
  fold s1 in S1.
  assert (L1 : (emittedCompletedCount s1 <= List.length (completedOf m2))%nat).
  { rewrite S1. simpl. rewrite Eq, length_app. lia. }
  destruct (handleServerMessage_texts E2 m2 s1 C2 L1) as [T2 S2].
  rewrite T1, T2, T3, S2, S3. clear T1 T2 T3 S2 S3.
  rewrite S1. cbn [emittedCompletedCount set_emittedCompletedCount
                   lastEmittedText set_lastEmittedText].
  rewrite Eq. rewrite skipn_app_length. rewrite skipn_app_le by exact L.
  rewrite kept_app. rewrite map_app. split; [reflexivity|].
  rewrite last_app_default. reflexivity.
Qed.

(** ** Trimmed text *)

Lemma trimStart_head (s : jsstring) :
  match trimStart s with [] => True | c :: _ => isWhiteSpace c = false end.
Proof.
  induction s as [|c s IH]; simpl; auto.
  destruct (isWhiteSpace c) eqn:W; auto.
Qed.

Lemma trimStart_suffix (s : jsstring) : exists p, s = p ++ trimStart s.
Proof.
  induction s as [|c s [p IH]]; simpl.
  - exists []; reflexivity.
  - destruct (isWhiteSpace c).
    + exists (c :: p). simpl. f_equal. exact IH.
    + exists []. reflexivity.
Qed.

Lemma last_app_nonempty {A} (p l : list A) (d : A) :
  l <> [] -> last (p ++ l) d = last l d.
Proof.
  intros H. induction p as [|x p IH]; [reflexivity|].
  simpl app. destruct (p ++ l) eqn:E.
  - destruct p; simpl in E; congruence.
  - rewrite <- E in *. change (last (x :: p ++ l) d) with
      (match p ++ l with [] => x | _ :: _ => last (p ++ l) d end).
    rewrite E. rewrite <- E. exact IH.
Qed.

Lemma rev_cons_head {A} (c : A) (r : list A) :
  exists t, rev (c :: r) = last (c :: r) c :: t
            /\ forall d, last (rev (c :: r)) d = c.
Proof.
  destruct (rev (c :: r)) as [|h t] eqn:E.
  - apply (f_equal (@List.length A)) in E. rewrite length_rev in E. discriminate.
  - exists t. assert (R : c :: r = rev t ++ [h]).
    { rewrite <- (rev_involutive (c :: r)), E. reflexivity. }
    split.
    + rewrite R, last_last. reflexivity.
    + intros d. rewrite <- E. simpl rev. apply last_last.
Qed.

Lemma trim_bare (s : jsstring) : bare (trim s).
Proof.
  unfold trim, trimEnd.
  set (u := trimStart s).
  pose proof (trimStart_head s) as Hu. fold u in Hu.
  set (v := trimStart (rev u)).
  pose proof (trimStart_head (rev u)) as Hv. fold v in Hv.
  destruct (trimStart_suffix (rev u)) as [p Hp]. fold v in Hp.
  destruct v as [|c r] eqn:V; [exact I|].
  destruct (rev_cons_head c r) as (t & R1 & R2).
  unfold bare. rewrite R1. split; [|rewrite <- R1, R2; exact Hv].
  (* the last element of [v] is the first of [u] *)
  assert (Lv : last (c :: r) c = last (rev u) c).
  { rewrite Hp. symmetry. apply last_app_nonempty. discriminate. }
  rewrite Lv. destruct u as [|c' r'] eqn:U.
  - destruct p; discriminate.
  - simpl rev. rewrite last_last. exact Hu.
Qed.

Lemma textOf_bare (seg : Segment.t) : bare (textOf seg).
Proof. apply trim_bare. Qed.

(** ** Every event is well formed *)

Lemma well_tagged_refl s : well_tagged s [] s.
Proof. split; [reflexivity|constructor]. Qed.

Lemma well_tagged_trans s tr1 s1 tr2 s2 :
  well_tagged s tr1 s1 -> well_tagged s1 tr2 s2 -> well_tagged s (tr1 ++ tr2) s2.
Proof.
  intros [E1 F1] [E2 F2]. split; [congruence|].
  rewrite payloads_app. apply Forall_app. split; [exact F1|].
  rewrite <- E1. exact F2.
Qed.

Lemma well_tagged_modify (f : Session.t -> Session.t) :
  (forall s, sessionId (f s) = sessionId s) -> respects well_tagged (modify f).
Proof. intros H s. split; [apply H|constructor]. Qed.

Lemma well_tagged_perform (a : action) :
  payloads [a] = [] -> respects well_tagged (perform a).
Proof.
  intros H s. split; [reflexivity|].
  unfold trace_of, perform. cbn [snd]. rewrite H. constructor.
Qed.

Lemma well_tagged_emitSegment (E : env) (seg : Segment.t) :
  respects well_tagged (emitSegment E seg).
Proof.
  intros s. rewrite emitSegment_unfold.
  destruct (truthy (textOf seg) && negb (jsstring_eqb (textOf seg) (lastEmittedText s))) eqn:C.
  - apply andb_true_iff in C. destruct C as [C _].
    split; [reflexivity|]. unfold trace_of. cbn [snd payloads].
    constructor; [|constructor].
    repeat split.
    + simpl. destruct (textOf seg); [discriminate|congruence].
    + apply textOf_bare.
  - apply well_tagged_refl.
Qed.

Ltac well_tagged_leaf :=
  first
    [ apply well_tagged_emitSegment
    | apply well_tagged_modify; intros ?; reflexivity
    | apply well_tagged_modify; intros s0; destruct (connection s0); reflexivity
    | apply well_tagged_perform; reflexivity
    | match goal with
      | |- respects _ (settle_initialized _) =>
          apply (@respects_settle_initialized _ well_tagged_trans);
          [ intros ? | unfold initialize_catch ]
      | |- respects _ (emit _ (error _)) => unfold emit
      | |- respects _ (emit _ (closed _ _)) => unfold emit
      end ].

Ltac well_tagged_body :=
  repeat first [ well_tagged_leaf | respects_step well_tagged_refl well_tagged_trans ].

Lemma well_tagged_initialize (E : env) (svc : service) :
  respects well_tagged (initialize E svc).
Proof.
  intros s. unfold initialize.
  assert (H : respects well_tagged (initialize_connect svc))
    by (unfold initialize_connect; well_tagged_body).
  specialize (H s). unfold trace_of, state_of in *.
  destruct (initialize_connect svc s) as [[[u|e] s1] tr1]; simpl in *; auto.
  assert (H2 : respects well_tagged (settle_initialized (initialize_catch E e)))
    by well_tagged_body.
  specialize (H2 s1). unfold trace_of, state_of in H2.
  destruct (settle_initialized (initialize_catch E e) s1) as [[r s2] tr2].
  simpl in *. eapply well_tagged_trans; eauto.
Qed.

Lemma well_tagged_handler (E : env) (i : input) : respects well_tagged (handler E i).
Proof.
  destruct i; simpl.
  - unfold on_open, clearTimeout, ws_send. well_tagged_body.
  - unfold on_message, _handleServerMessage, not_awaited, close, ws_send, ws_close,
      clearTimeout, resolve.
    well_tagged_body.
  - unfold on_error, clearTimeout, reject. well_tagged_body.
  - unfold on_close, clearTimeout, reject. well_tagged_body.
  - unfold on_timeout, reject. well_tagged_body.
  - apply well_tagged_initialize.
  - unfold sendRealtimeInput, ws_send. well_tagged_body.
  - unfold close, ws_send, ws_close. well_tagged_body.
Qed.

Lemma socket_moves_sessionId (i : input) (s : Session.t) :
  sessionId (socket_moves i s) = sessionId s.
Proof. destruct i; simpl; destruct (ws s); reflexivity. Qed.

Lemma well_tagged_step (E : env) (i : input) : respects well_tagged (step E i).
Proof.
  intros s. unfold step, trace_of, state_of.
  pose proof (well_tagged_handler E i (socket_moves i s)) as H.
  unfold trace_of, state_of in H.
  destruct (handler E i (socket_moves i s)) as [[r s1] tr1]; simpl in *.
  assert (H2 : respects well_tagged (initialize_resume E))
    by (unfold initialize_resume; well_tagged_body).
  specialize (H2 s1). unfold trace_of, state_of in H2.
  destruct (initialize_resume E s1) as [[r2 s2] tr2]; simpl in *.
  unfold well_tagged in H. rewrite socket_moves_sessionId in H.
  eapply well_tagged_trans; eauto.
Qed.



(** ** [sendRealtimeInput] *)

(** X3. [sendRealtimeInput] never raises and never changes the session.  On
    a session that is running with an open socket it writes exactly one audio
    frame per non-empty chunk, holding a third of the chunk's byte length in
    samples (rounded down, so a chunk of one or two bytes gives an empty
    frame), also when [ws.send] throws; otherwise it writes nothing. *)
Theorem sendRealtimeInput_sends_one_resampled_frame
    (E : env) (a : audioData) (s : Session.t) :
  Z.of_nat (List.length (bytesOf E a)) < 2 ^ 48 ->
  exists out,
    Resampler.resampleAndConvertToFloat32 (bytesOf E a) = Some out
    /\ Z.of_nat (List.length out) = Z.of_nat (List.length (bytesOf E a)) / 3
    /\ sendRealtimeInput E a s =
       (Return tt, s,
        if accepting s && negb (Nat.eqb (List.length (bytesOf E a)) 0)
        then [WsSend (Audio out)] else []).
Proof.
  intros HL. destruct (resample_total (bytesOf E a) HL) as (out & Eo & Lo).
  exists out. split; [exact Eo|]. split; [exact Lo|].
  unfold sendRealtimeInput, accepting, bind, get. fold (bytesOf E a).
  destruct (isRunning s); simpl; [|reflexivity].
  destruct (ws s) as [[]|] eqn:W; simpl; try reflexivity.
  destruct (bytesOf E a) as [|b bs] eqn:B; [reflexivity|].
  rewrite Eo. simpl. unfold try_catch, ws_send, bind, get, perform, ret, throw.
  rewrite W. simpl. destruct (send_throws E (Audio out)); reflexivity.
Qed.

(** ** A session without socket *)

Lemma socket_calls_app (a b : list action) :
  socket_calls (a ++ b) = socket_calls a ++ socket_calls b.
Proof. apply filter_app. Qed.

Lemma stays_closed_refl s : stays_closed s [] s.
Proof. intros H; split; [exact H|reflexivity]. Qed.

Lemma stays_closed_trans s tr1 s1 tr2 s2 :
  stays_closed s tr1 s1 -> stays_closed s1 tr2 s2 -> stays_closed s (tr1 ++ tr2) s2.
Proof.
  intros H1 H2 H. destruct (H1 H) as [W1 C1]. destruct (H2 W1) as [W2 C2].
  split; [exact W2|]. rewrite socket_calls_app, C1, C2. reflexivity.
Qed.

Lemma stays_closed_ws_send (E : env) (f : frame) : respects stays_closed (ws_send E f).
Proof.
  intros s H. unfold ws_send, bind, get, trace_of, state_of. rewrite H. simpl. auto.
Qed.

Lemma stays_closed_ws_close (E : env) : respects stays_closed (ws_close E).
Proof.
  intros s H. unfold ws_close, bind, get, trace_of, state_of. rewrite H. simpl. auto.
Qed.

Lemma stays_closed_modify (f : Session.t -> Session.t) :
  (forall s, ws s = None -> ws (f s) = None) -> respects stays_closed (modify f).
Proof. intros H s W. split; [apply H, W|reflexivity]. Qed.

Ltac stays_closed_leaf :=
  first
    [ apply stays_closed_ws_send
    | apply stays_closed_ws_close
    | apply stays_closed_modify; intros s0 W0;
      try (destruct (connection s0)); solve [ exact W0 | reflexivity ]
    | match goal with
      | |- respects _ (perform ?a) =>
          intros ? W0; split; [exact W0|reflexivity]
      | |- respects _ (settle_initialized _) =>
          apply (@respects_settle_initialized _ stays_closed_trans);
          [ intros ? | unfold initialize_catch ]
      | |- respects _ (emit _ _) => unfold emit
      end ].

Ltac stays_closed_body :=
  repeat first [ stays_closed_leaf | respects_step stays_closed_refl stays_closed_trans ].

Lemma stays_closed_handler (E : env) (i : input) :
  is_initialize i = false -> respects stays_closed (handler E i).
Proof.
  intros N. destruct i; simpl handler; try discriminate N.
  - unfold on_open, clearTimeout. stays_closed_body.
  - unfold on_message, _handleServerMessage, not_awaited, close, emitSegment,
      clearTimeout, resolve.
    stays_closed_body.
  - unfold on_error, clearTimeout, reject. stays_closed_body.
  - unfold on_close, clearTimeout, reject. stays_closed_body.
  - unfold on_timeout, reject. stays_closed_body.
  - unfold sendRealtimeInput. stays_closed_body.
  - unfold close. stays_closed_body.
Qed.

Lemma stays_closed_step (E : env) (i : input) :
  is_initialize i = false -> respects stays_closed (step E i).
Proof.
  intros N s W. unfold step, trace_of, state_of.
  assert (M : socket_moves i s = s) by (destruct i; simpl; rewrite ?W; reflexivity).
  rewrite M.
  pose proof (stays_closed_handler E i N s W) as H. unfold trace_of, state_of in H.
  destruct (handler E i s) as [[r s1] tr1]; simpl in *. destruct H as [W1 C1].
  assert (H2 : respects stays_closed (initialize_resume E))
    by (unfold initialize_resume; stays_closed_body).
  specialize (H2 s1 W1). unfold trace_of, state_of in H2.
  destruct (initialize_resume E s1) as [[r2 s2] tr2]; simpl in *.
  destruct H2 as [W2 C2]. split; [exact W2|].
  rewrite socket_calls_app, C1, C2. reflexivity.
Qed.

Lemma stays_closed_run (ins : list (env * input)) (s : Session.t) :
  Forall (fun turn => is_initialize (snd turn) = false) ins ->
  stays_closed s (snd (run s ins)) (fst (run s ins)).
Proof.
  revert s; induction ins as [|[E i] ins IH]; intros s F; simpl.
  - apply stays_closed_refl.
  - inversion F as [|? ? N F']; subst. simpl in N.
    pose proof (stays_closed_step E i N s) as H. unfold trace_of, state_of in H.
    destruct (step E i s) as [[r s1] tr1]; simpl in *.
    specialize (IH s1 F'). destruct (run s1 ins) as [s2 tr2]; simpl in *.
    eapply stays_closed_trans; eauto.
Qed.

Lemma step_close_ws (E : env) (s : Session.t) :
  ws (state_of (step E call_close s)) = None.
Proof.
  rewrite step_state.
  change (handler E call_close (socket_moves call_close s)) with (close E s).
  rewrite close_unfold. unfold state_of at 2. cbn [fst snd].
  match goal with
  | |- ws (state_of (initialize_resume E ?x)) = _ =>
      pose proof (initialize_resume_keeps_ws E x) as K
  end.
  unfold keeps in K. rewrite K.
  destruct (ws s) eqn:W; simpl; auto.
Qed.

(** X9. After [close], and until [initialize] is called again, the session
    has no socket and makes no call on one, whatever events and calls
    follow. *)
Theorem closed_session_makes_no_socket_call
    (E : env) (s : Session.t) (ins : list (env * input)) :
  Forall (fun turn => is_initialize (snd turn) = false) ins ->
  let s1 := state_of (step E call_close s) in
  ws (fst (run s1 ins)) = None /\ socket_calls (snd (run s1 ins)) = [].
Proof.
  intros F s1. apply (stays_closed_run ins s1 F). apply step_close_ws.
Qed.

Lemma closed_session_makes_no_socket_call_witness :
  let s := fst (run session0 [(calm, call_initialize running_service); (calm, ev_open)]) in
  let s1 := state_of (step calm call_close s) in
  let ins := [(calm, ev_open);
              (calm, call_sendRealtimeInput (Binary [Byte.x00; Byte.x40; Byte.x00]));
              (calm, ev_close 1000 None); (calm, call_close)] in
  ws s = Some OPEN
  /\ ws (fst (run s1 ins)) = None /\ socket_calls (snd (run s1 ins)) = [].
Proof.
  intros s s1 ins. split; [reflexivity|].
  apply (closed_session_makes_no_socket_call calm s ins).
  repeat constructor.
Defined.

(** ** The configuration frame goes first *)

Lemma config_first_mono (b1 b2 : bool) (tr : list action) :
  (b1 = true -> b2 = true) -> config_first b1 tr -> config_first b2 tr.
Proof.
  revert b1 b2; induction tr as [|a tr IH]; intros b1 b2 H C; [exact I|].
  destruct a as [ | |[| |]| | | | |]; simpl in *; eauto.
  destruct C as [C1 C2]. split; eauto.
Qed.

Lemma config_first_app (b : bool) (t1 t2 : list action) :
  config_first b t1 -> config_first (b || has_config t1) t2 ->
  config_first b (t1 ++ t2).
Proof.
  revert b; induction t1 as [|a t1 IH]; intros b C1 C2.
  - simpl in *. rewrite orb_false_r in C2. exact C2.
  - destruct a as [ | |[| |]| | | | |]; simpl in *;
      try (apply IH; [exact C1|exact C2]).
    + apply IH; [exact C1|]. rewrite orb_true_r in C2. exact C2.
    + destruct C1 as [C0 C1]. split; [exact C0|]. apply IH; [exact C1|exact C2].
Qed.

Lemma has_config_app (t1 t2 : list action) :
  has_config (t1 ++ t2) = has_config t1 || has_config t2.
Proof. apply existsb_app. Qed.

Lemma configured_refl s : configured s [] s.
Proof. split; [exact I|auto]. Qed.

Lemma configured_trans s tr1 s1 tr2 s2 :
  configured s tr1 s1 -> configured s1 tr2 s2 -> configured s (tr1 ++ tr2) s2.
Proof.
  intros [C1 O1] [C2 O2]. split.
  - apply config_first_app; [exact C1|].
    eapply config_first_mono; [|exact C2].
    intros H. destruct (O1 H) as [K|K]; rewrite K; auto using orb_true_r.
  - intros H. rewrite has_config_app.
    destruct (O2 H) as [K|K]; [|rewrite K; right; apply orb_true_r].
    destruct (O1 K) as [K'|K']; [left; exact K'|rewrite K'; right; reflexivity].
Qed.

Lemma configured_ws_send (E : env) (f : frame) :
  (forall x, f <> Audio x) -> respects configured (ws_send E f).
Proof.
  intros N s. unfold ws_send, bind, get, trace_of, state_of.
  destruct (ws s) as [w|] eqn:W; simpl.
  - destruct (send_throws E f); simpl; (split; [|auto]);
      destruct f; simpl; auto; exfalso; eapply N; reflexivity.
  - split; [exact I|auto].
Qed.

Lemma configured_ws_close (E : env) : respects configured (ws_close E).
Proof.
  intros s. unfold ws_close, bind, get, trace_of, state_of.
  destruct (ws s) as [w|] eqn:W; simpl.
  - destruct (close_throws E); simpl; (split; [exact I|auto]).
  - split; [exact I|auto].
Qed.

Lemma configured_modify (f : Session.t -> Session.t) :
  (forall s, is_open (f s) = true -> is_open s = true) ->
  respects configured (modify f).
Proof. intros H s. split; [exact I|]. intros K. left. apply H, K. Qed.

Lemma configured_perform (a : action) :
  (forall f, a <> WsSend f) -> respects configured (perform a).
Proof.
  intros N s. split; [|auto].
  unfold trace_of, perform. cbn [snd].
  destruct a; simpl; auto. exfalso. eapply N; reflexivity.
Qed.

Lemma configured_sendRealtimeInput (E : env) (a : audioData) :
  respects configured (sendRealtimeInput E a).
Proof.
  intros s. unfold sendRealtimeInput, bind, get.
  destruct (isRunning s); simpl; [|apply configured_refl].
  destruct (ws s) as [[]|] eqn:W; simpl; try apply configured_refl.
  destruct (match a with Base64 text => Buffer_from_base64 E text | Binary b => b end);
    [apply configured_refl|].
  destruct (Resampler.resampleAndConvertToFloat32 _) as [out|]; [|apply configured_refl].
  unfold try_catch, ws_send, bind, get, perform, ret, throw. rewrite W. simpl.
  destruct (send_throws E (Audio out)); simpl;
    (split; [simpl; unfold is_open; rewrite W; auto|auto]).
Qed.

Ltac configured_leaf :=
  first
    [ apply configured_ws_send; intros ?; discriminate
    | apply configured_ws_close
    | apply configured_sendRealtimeInput
    | apply configured_modify; intros s0; unfold is_open;
      try (destruct (connection s0)); simpl; solve [ auto | discriminate ]
    | apply configured_perform; intros ?; discriminate
    | match goal with
      | |- respects _ (settle_initialized _) =>
          apply (@respects_settle_initialized _ configured_trans);
          [ intros ? | unfold initialize_catch ]
      | |- respects _ (emit _ _) => unfold emit
      end ].

Ltac configured_body :=
  repeat first [ configured_leaf | respects_step configured_refl configured_trans ].

Lemma configured_initialize (E : env) (svc : service) :
  respects configured (initialize E svc).
Proof.
  intros s. unfold initialize.
  assert (H : respects configured (initialize_connect svc))
    by (unfold initialize_connect; configured_body).
  specialize (H s). unfold trace_of, state_of in *.
  destruct (initialize_connect svc s) as [[[u|e] s1] tr1]; simpl in *; auto.
  assert (H2 : respects configured (settle_initialized (initialize_catch E e)))
    by configured_body.
  specialize (H2 s1). unfold trace_of, state_of in H2.
  destruct (settle_initialized (initialize_catch E e) s1) as [[r s2] tr2].
  simpl in *. eapply configured_trans; eauto.
Qed.

Lemma configured_handler (E : env) (i : input) : respects configured (handler E i).
Proof.
  destruct i; simpl handler.
  - unfold on_open, clearTimeout. configured_body.
  - unfold on_message, _handleServerMessage, not_awaited, close, emitSegment,
      clearTimeout, resolve.
    configured_body.
  - unfold on_error, clearTimeout, reject. configured_body.
  - unfold on_close, clearTimeout, reject. configured_body.
  - unfold on_timeout, reject. configured_body.
  - apply configured_initialize.
  - apply configured_sendRealtimeInput.
  - unfold close. configured_body.
Qed.

(** The 'open' handler on a socket writes the configuration frame. *)
Lemma on_open_trace (E : env) (s : Session.t) (w : readyState) :
  ws s = Some w ->
  trace_of (on_open E s)
  = [ClearTimeout;
     WsSend (Config (uid s) (str "en") (str "transcribe") (_mapModelName (model s)) true)].
Proof.
  intros W. unfold on_open, clearTimeout, ws_send, bind, get, modify, perform, trace_of.
  simpl. rewrite W. simpl.
  destruct (send_throws E _); reflexivity.
Qed.

Lemma configured_step (E : env) (i : input) : respects configured (step E i).
Proof.
  intros s. unfold step, trace_of, state_of.
  pose proof (configured_handler E i (socket_moves i s)) as H.
  unfold trace_of, state_of in H.
  assert (H2 : respects configured (initialize_resume E))
    by (unfold initialize_resume; configured_body).
  assert (K : configured s (snd (handler E i (socket_moves i s)))
                         (snd (fst (handler E i (socket_moves i s))))).
  { destruct H as [C O].
    destruct i; try exact (conj C O).
    - (* open *)
      destruct (ws s) as [w|] eqn:W.
      + pose proof (on_open_trace E (socket_moves ev_open s) OPEN) as T.
        unfold socket_moves in T. rewrite W in T. specialize (T eq_refl).
        unfold trace_of in T. simpl handler. unfold socket_moves. rewrite W.
        rewrite T. split; [exact I|]. intros _. right. reflexivity.
      + simpl socket_moves in *. rewrite W in *. exact (conj C O).
    - (* close *)
      destruct (ws s) as [w|] eqn:W.
      + simpl socket_moves in *. rewrite W in *. split.
        * eapply config_first_mono; [|exact C]. unfold is_open. simpl. discriminate.
        * intros Q. destruct (O Q) as [Q'|Q']; [|right; exact Q'].
          unfold is_open in Q'. simpl in Q'. discriminate.
      + simpl socket_moves in *. rewrite W in *. exact (conj C O). }
  destruct (handler E i (socket_moves i s)) as [[r s1] tr1]; simpl in *.
  specialize (H2 s1). unfold trace_of, state_of in H2.
  destruct (initialize_resume E s1) as [[r2 s2] tr2]; simpl in *.
  eapply configured_trans; eauto.
Qed.

Lemma configured_run (ins : list (env * input)) (s : Session.t) :
  configured s (snd (run s ins)) (fst (run s ins)).
Proof.
  revert s; induction ins as [|[E i] ins IH]; intros s; simpl.
  - apply configured_refl.
  - pose proof (configured_step E i s) as H. unfold trace_of, state_of in H.
    destruct (step E i s) as [[r s1] tr1]; simpl in *.
    specialize (IH s1). destruct (run s1 ins) as [s2 tr2]; simpl in *.
    eapply configured_trans; eauto.
Qed.

(** X8. In every run of a session, no audio frame is written to the socket
    before the configuration frame of the handshake has been written. *)
Theorem audio_is_written_after_the_configuration
    (model sessionId : jsstring) (ins : list (env * input)) :
  config_first false (snd (run (Session.new model sessionId) ins)).
Proof.
  destruct (configured_run ins (Session.new model sessionId)) as [H _].
  exact H.
Qed.

(** ** The DISCONNECT message *)

Lemma equals_literal (f : option jsstring) (a b : string) :
  equals f a = true -> str a <> str b -> equals f b = false.
Proof.
  destruct f as [v|]; simpl; [|discriminate].
  intros H N. apply jsstring_eqb_eq in H. subst v. apply jsstring_eqb_neq. exact N.
Qed.

(** X10. A DISCONNECT message (whose [status] is not WAIT) does to the
    session exactly what a call of [close] does. *)
Theorem disconnect_message_closes_the_session
    (E : env) (msg : Msg.t) (s : Session.t) :
  equals (Msg.message msg) "DISCONNECT" = true ->
  equals (Msg.status msg) "WAIT" = false ->
  step E (ev_message (Some msg)) s = step E call_close s.
Proof.
  intros D W.
  assert (R : equals (Msg.message msg) "SERVER_READY" = false)
    by (apply (equals_literal _ _ _ D); discriminate).
  unfold step. simpl socket_moves. simpl handler.
  assert (H : on_message E (Some msg) s = close E s).
  { unfold on_message, _handleServerMessage. rewrite R, W, D. simpl when.
    unfold not_awaited, try_catch, bind. rewrite close_unfold. simpl.
    rewrite app_nil_r. reflexivity. }
  rewrite H. reflexivity.
Qed.

Lemma disconnect_message_closes_the_session_witness :
  let msg := {| Msg.message := Some (str "DISCONNECT"); Msg.status := None;
                Msg.segments := None; Msg.language := None |} in
  let s := fst (run session0 [(calm, call_initialize running_service); (calm, ev_open)]) in
  trace_of (step calm (ev_message (Some msg)) s)
    = [WsSend END_OF_AUDIO; WsClose; RemoveAllListeners]
  /\ step calm (ev_message (Some msg)) s = step calm call_close s.
Proof.
  intros msg s. split; [reflexivity|].
  apply (disconnect_message_closes_the_session calm msg s); reflexivity.
Defined.

(** ** Instances *)

Lemma new_segments_with_distinct_texts_are_all_emitted_witness :
  transcriptions (trace_of (_handleServerMessage calm scenarioB_second session0))
    = [str "hi"; str "there"]
  /\ payloads (trace_of (_handleServerMessage calm scenarioB_second session0))
     = map (transcription_of calm session0)
           (skipn (emittedCompletedCount session0) (completedOf scenarioB_second)).
Proof.
  split; [reflexivity|].
  apply (new_segments_with_distinct_texts_are_all_emitted calm scenarioB_second session0).
  - reflexivity.
  - discriminate.
  - discriminate.
  - repeat constructor; discriminate.
  - simpl. repeat split; discriminate.
Defined.

Lemma growing_history_can_be_delivered_in_parts_witness :
  let s1 := state_of (_handleServerMessage calm scenarioB_first session0) in
  transcriptions (trace_of (_handleServerMessage calm scenarioB_first session0))
    ++ transcriptions (trace_of (_handleServerMessage calm scenarioB_second s1))
  = transcriptions (trace_of (_handleServerMessage unheard scenarioB_second session0))
  /\ state_of (_handleServerMessage calm scenarioB_second s1)
     = state_of (_handleServerMessage unheard scenarioB_second session0).
Proof.
  apply (growing_history_can_be_delivered_in_parts calm calm unheard
           scenarioB_first scenarioB_second [segment "there" true 1 2] session0).
  - reflexivity.
  - reflexivity.
  - reflexivity.
  - simpl. lia.
Defined.

Lemma sendRealtimeInput_sends_one_resampled_frame_witness :
  let ready := {| Msg.message := Some (str "SERVER_READY"); Msg.status := None;
                  Msg.segments := None; Msg.language := None |} in
  let s := fst (run session0 [(calm, call_initialize running_service); (calm, ev_open);
                              (calm, ev_message (Some ready))]) in
  let a := Binary [Byte.x00; Byte.x40; Byte.x00; Byte.x20; Byte.xff; Byte.x7f] in
  accepting s = true
  /\ exists out,
       Resampler.resampleAndConvertToFloat32 (bytesOf calm a) = Some out
       /\ Z.of_nat (List.length out) = Z.of_nat (List.length (bytesOf calm a)) / 3
       /\ sendRealtimeInput calm a s =
          (Return tt, s,
           if accepting s && negb (Nat.eqb (List.length (bytesOf calm a)) 0)
           then [WsSend (Audio out)] else []).
Proof.
  intros ready s a. split; [reflexivity|].
  apply (sendRealtimeInput_sends_one_resampled_frame calm a s).
  reflexivity.
Defined.

(* ===================================================================== *)
(** * The provider of sessions: properties *)
(* ===================================================================== *)

Example sessionId_example :
  Provider.sessionId_of (str "listen") 1700000000123 (str "k3x9ab")
  = str "listen_1700000000123_k3x9ab".
Proof. reflexivity. Qed.











(** ** A created session is ready *)

Lemma unresolved_refl s : unresolved s [] s.
Proof. intros H; exact H. Qed.

Lemma unresolved_trans s tr1 s1 tr2 s2 :
  unresolved s tr1 s1 -> unresolved s1 tr2 s2 -> unresolved s (tr1 ++ tr2) s2.
Proof. unfold unresolved; auto. Qed.

Ltac unresolved_body :=
  repeat first
    [ respects_step unresolved_refl unresolved_trans
    | match goal with
      | |- respects _ (modify _) =>
          let s0 := fresh "s" in let H := fresh "H" in let Hc := fresh "Hc" in
          intros s0 H; unfold state_of, modify in *; simpl;
          destruct (connection s0) eqn:Hc; simpl; rewrite ?Hc;
          solve [ exact H | discriminate ]
      | |- respects _ (perform _) => intros ? H; exact H
      | |- respects _ (emit _ _) => unfold emit
      | |- respects _ (settle_initialized _) =>
          apply (@respects_settle_initialized _ unresolved_trans);
          [ intros ? | unfold initialize_catch ]
      end ].

Lemma resume_settled_right (E : env) (s : Session.t) :
  initialized s = Pending ->
  (forall v, connection s <> Fulfilled v) ->
  settled_right (state_of (initialize_resume E s)).
Proof.
  intros I C.
  destruct s as [m sid w run rdy u cnt txt tmo con ini]; simpl in *; subst.
  destruct con as [|v|e]; [| exfalso; eapply C; reflexivity |].
  - split; simpl; [auto|discriminate].
  - unfold initialize_resume, initialize_catch, emit, state_of, settle_initialized,
      bind, get, perform, ret, throw; simpl.
    destruct (unhandled_error E); simpl; split; simpl; discriminate.
Qed.

Lemma settled_right_step (E : env) (i : input) (s : Session.t) :
  initialized s = Pending -> connection s = Pending ->
  settled_right (state_of (step E i s)).
Proof.
  intros I C. rewrite step_state.
  assert (C0 : forall v, connection (socket_moves i s) <> Fulfilled v).
  { intros v. destruct i; simpl; destruct (ws s); simpl; rewrite C; discriminate. }
  assert (I0 : initialized (socket_moves i s) = Pending).
  { destruct i; simpl; destruct (ws s); simpl; exact I. }
  assert (K : forall m : M unit,
             respects unresolved m -> respects (keeps initialized) m ->
             settled_right (state_of (initialize_resume E (state_of (m (socket_moves i s)))))).
  { intros m U Ki. apply resume_settled_right.
    - pose proof (Ki (socket_moves i s)) as Q. unfold keeps in Q.
      rewrite Q. exact I0.
    - apply (U (socket_moves i s)), C0. }
  destruct i as [|[msg|]| | | | | |]; simpl handler.
  - apply K; unfold on_open, clearTimeout, ws_send;
      [unresolved_body|keeps_body initialized].
  - destruct (equals (Msg.message msg) "SERVER_READY") eqn:R.
    + unfold on_message, _handleServerMessage. rewrite R.
      clear C0 I0 K. change (socket_moves (ev_message (Some msg)) s) with s.
      destruct s as [m sid w run rdy u cnt txt tmo con ini]; simpl in I, C; subst.
      split; cbv; intros; try discriminate; auto.
    + apply K; unfold on_message; rewrite R; simpl when;
        unfold _handleServerMessage, not_awaited, close, emitSegment, ws_send, ws_close;
        [unresolved_body|keeps_body initialized].
  - apply K; unfold on_message; [unresolved_body|keeps_body initialized].
  - apply K; unfold on_error, clearTimeout, reject;
      [unresolved_body|keeps_body initialized].
  - apply K; unfold on_close, clearTimeout, reject;
      [unresolved_body|keeps_body initialized].
  - apply K; unfold on_timeout, reject; [unresolved_body|keeps_body initialized].
  - (* initialize *)
    unfold initialize.
    assert (U : respects unresolved (initialize_connect svc))
      by (unfold initialize_connect; unresolved_body).
    assert (Ki : respects (keeps initialized) (initialize_connect svc))
      by (unfold initialize_connect; keeps_body initialized).
    specialize (U (socket_moves (call_initialize svc) s) C0).
    specialize (Ki (socket_moves (call_initialize svc) s)).
    unfold keeps, state_of in *.
    destruct (initialize_connect svc _) as [[[u|e] s1] tr1]; simpl in *.
    + apply resume_settled_right; [congruence|exact U].
    + generalize dependent s1. intros s1 U Ki.
      destruct s1 as [m sid w run rdy u cnt txt tmo con ini]; simpl in *; subst.
      unfold initialize_resume, initialize_catch, emit, state_of, settle_initialized,
        bind, get, perform, ret, throw; simpl.
      destruct (unhandled_error E); simpl; split; simpl; discriminate.
  - apply K; unfold sendRealtimeInput, ws_send;
      [unresolved_body|keeps_body initialized].
  - apply K; unfold close, ws_send, ws_close;
      [unresolved_body|keeps_body initialized].
Qed.

Lemma settled_right_await (events : list (env * input)) (s : Session.t) :
  settled_right s -> settled_right (Provider.await s events).
Proof.
  revert s; induction events as [|[E i] rest IH]; intros s H; simpl.
  - destruct (initialized s); exact H.
  - destruct (initialized s) eqn:I; try exact H.
    apply IH. apply settled_right_step; [exact I|]. apply H, I.
Qed.

Lemma step_keeps_model (E : env) (i : input) (s : Session.t) :
  model (state_of (step E i s)) = model s
  /\ sessionId (state_of (step E i s)) = sessionId s.
Proof.
  split.
  - rewrite step_state.
    assert (R : respects (keeps model) (initialize_resume E))
      by (unfold initialize_resume; keeps_body model).
    pose proof (R (state_of (handler E i (socket_moves i s)))) as Q.
    unfold keeps in Q. rewrite Q. clear Q R.
    assert (H : respects (keeps model) (handler E i)).
    { destruct i; simpl handler.
      - unfold on_open, clearTimeout, ws_send. keeps_body model.
      - unfold on_message, _handleServerMessage, not_awaited, close, emitSegment,
          clearTimeout, resolve, ws_send, ws_close. keeps_body model.
      - unfold on_error, clearTimeout, reject. keeps_body model.
      - unfold on_close, clearTimeout, reject. keeps_body model.
      - unfold on_timeout, reject. keeps_body model.
      - intros s0. unfold initialize.
        assert (H : respects (keeps model) (initialize_connect svc))
          by (unfold initialize_connect; keeps_body model).
        specialize (H s0). unfold keeps, trace_of, state_of in *.
        destruct (initialize_connect svc s0) as [[[u|e] s1] tr1]; simpl in *; auto.
        assert (H2 : respects (keeps model) (settle_initialized (initialize_catch E e)))
          by keeps_body model.
        specialize (H2 s1). unfold keeps, trace_of, state_of in H2.
        destruct (settle_initialized (initialize_catch E e) s1) as [[r s2] tr2].
        simpl in *. congruence.
      - unfold sendRealtimeInput, ws_send. keeps_body model.
      - unfold close, ws_send, ws_close. keeps_body model. }
    pose proof (H (socket_moves i s)) as Q. unfold keeps in Q. rewrite Q.
    destruct i; simpl; destruct (ws s); reflexivity.
  - apply (well_tagged_step E i s).
Qed.

Lemma await_keeps_model (events : list (env * input)) (s : Session.t) :
  model (Provider.await s events) = model s
  /\ sessionId (Provider.await s events) = sessionId s.
Proof.
  revert s; induction events as [|[E i] rest IH]; intros s; simpl.
  - destruct (initialized s); auto.
  - destruct (initialized s); auto.
    destruct (IH (state_of (step E i s))) as [A B].
    destruct (step_keeps_model E i s) as [A' B']. split; congruence.
Qed.

(** X11. A session that [createSTT] returns is running and ready, has the
    model of the configuration (or "whisper-tiny") and the id made of the
    session type, the time and the random suffix. *)
Theorem createSTT_returns_a_ready_session
    (W : Provider.whisper) (svc : service) (cfg : Provider.config) (E : env)
    (random : jsstring) (events : list (env * input)) (p : Provider.t)
    (session : Session.t) (listeners : Provider.callbacks) :
  fst (Provider.createSTT W svc cfg E random events p)
    = Provider.Created session listeners ->
  isRunning session = true /\ serverReady session = true
  /\ model session = Provider.or_else (Provider.model cfg) "whisper-tiny"
  /\ sessionId session
     = Provider.sessionId_of (Provider.or_else (Provider.sessionType cfg) "unknown")
                             (Date_now E) random
  /\ listeners = Provider.listeners_of cfg.
Proof.
  unfold Provider.createSTT.
  destruct (Provider.initialize W p) as [[[u|e] p'] b]; [|discriminate].
  cbn [fst].
  set (s0 := Session.new _ _).
  set (s1 := state_of (step E (call_initialize svc) s0)).
  assert (R : settled_right (Provider.await s1 events)).
  { apply settled_right_await. apply settled_right_step; reflexivity. }
  destruct (await_keeps_model events s1) as [A B].
  destruct (step_keeps_model E (call_initialize svc) s0) as [A' B']. fold s1 in A', B'.
  destruct (initialized (Provider.await s1 events)) as [|[|]|e] eqn:I; try discriminate.
  intros H. injection H as <- <-.
  destruct R as [_ R]. destruct (R I) as [R1 R2].
  repeat split; try assumption.
  - rewrite A, A'. reflexivity.
  - rewrite B, B'. reflexivity.
Qed.

Lemma createSTT_returns_a_ready_session_witness :
  let cfg := {| Provider.model := Some (str "whisper-base");
                Provider.sessionType := Some (str "listen");
                Provider.callbacks_ := None |} in
  let W := {| Provider.isInitialized := true; Provider.initialize_rejects := None |} in
  let ready := {| Msg.message := Some (str "SERVER_READY"); Msg.status := None;
                  Msg.segments := None; Msg.language := None |} in
  exists session,
    fst (Provider.createSTT W running_service cfg unheard (str "k3x9ab")
           [(unheard, ev_open); (unheard, ev_message (Some ready))] Provider.new)
    = Provider.Created session (Provider.listeners_of cfg)
    /\ isRunning session = true /\ model session = str "whisper-base".
Proof.
  intros cfg W ready.
  destruct (fst (Provider.createSTT W running_service cfg unheard (str "k3x9ab")
                   [(unheard, ev_open); (unheard, ev_message (Some ready))] Provider.new))
    as [|session listeners| |e] eqn:H; try (vm_compute in H; discriminate H).
  destruct (createSTT_returns_a_ready_session W running_service cfg unheard
              (str "k3x9ab") [(unheard, ev_open); (unheard, ev_message (Some ready))]
              Provider.new session listeners H)
    as (R1 & _ & R3 & _ & R5).
  exists session. rewrite R5. split; [reflexivity|]. split; [exact R1|exact R3].
Defined.

(** ** The provider initializes its service once *)

(** X13. After a first call of the provider's [initialize], whether it
    succeeded or not, a further call returns without initializing the
    service. *)
Theorem provider_initializes_the_service_at_most_once
    (W W' : Provider.whisper) (p : Provider.t) :
  let p1 := snd (fst (Provider.initialize W p)) in
  Provider.whisperService p1 = true
  /\ Provider.initialize W' p1 = (Return tt, p1, false).
Proof.
  intros p1. subst p1. unfold Provider.initialize.
  destruct p as [[|]]; simpl.
  - split; reflexivity.
  - destruct (Provider.isInitialized W); [split; reflexivity|].
    destruct (Provider.initialize_rejects W); split; reflexivity.
Qed.

(* ===================================================================== *)
(** * The resampler: the values of the output *)
(* ===================================================================== *)

Lemma bra_opp (m e : Z) (l : location) :
  binary_round_aux 53 1024 true m e l = SFopp (binary_round_aux 53 1024 false m e l).
Proof.
  unfold binary_round_aux.
  destruct (shr_fexp 53 1024 m e l) as [mrs' e'].
  destruct (shr_fexp 53 1024 _ e' loc_Exact) as [mrs'' e''].
  destruct (shr_m mrs''); try reflexivity.
  destruct (e'' <=? 1024 - 53); reflexivity.
Qed.

Lemma binary_round_opp (p : positive) (e : Z) :
  binary_round 53 1024 true p e = SFopp (binary_round 53 1024 false p e).
Proof.
  unfold binary_round. destruct (shl_align p e _) as [mz ez]. apply bra_opp.
Qed.

Lemma dyadic_finite (k e : Z) :
  k <> 0 -> digits (Z.abs k) <= 53 ->
  dyadic k e = S754_finite (k <? 0) (Z.to_pos (mant (Z.abs k)))
                           (e + digits (Z.abs k) - 53).
Proof.
  intros N D. destruct k as [|p|p]; [congruence| |]; simpl Z.abs in *; simpl Z.ltb.
  - unfold dyadic. apply enc_mant; lia.
  - unfold dyadic. rewrite enc_mant by lia. reflexivity.
Qed.

Lemma dyadic_opp (k e : Z) : k <> 0 -> dyadic (- k) e = SFopp (dyadic k e).
Proof.
  intros N. destruct k as [|p|p]; [congruence| |]; reflexivity.
Qed.

Lemma dyadic_shift (m k e : Z) :
  0 <= k -> dyadic (m * 2 ^ k) e = dyadic m (e + k).
Proof.
  intros Hk. assert (P : 0 < 2 ^ k) by (apply Z.pow_pos_nonneg; lia).
  destruct m as [|p|p].
  - reflexivity.
  - assert (H : 0 < Zpos p * 2 ^ k) by nia.
    destruct (Zpos p * 2 ^ k) as [|q|q] eqn:E; try lia.
    unfold dyadic. rewrite <- E. apply enc_shift; lia.
  - assert (H : Zneg p * 2 ^ k < 0) by nia.
    destruct (Zneg p * 2 ^ k) as [|q|q] eqn:E; try lia.
    unfold dyadic. f_equal.
    replace (Zpos q) with (Zpos p * 2 ^ k) by lia. apply enc_shift; lia.
Qed.

Lemma normalize_dyadic (c k e : Z) :
  0 <= k -> digits (Z.abs c) <= 53 -> -1000 <= e + k <= 900 ->
  binary_normalize 53 1024 (c * 2 ^ k) e false = dyadic c (e + k).
Proof.
  intros Hk D B. assert (P : 0 < 2 ^ k) by (apply Z.pow_pos_nonneg; lia).
  destruct c as [|p|p].
  - reflexivity.
  - simpl Z.abs in D. pose proof (digits_pos (Zpos p) ltac:(lia)).
    apply normalize_exact; lia.
  - simpl Z.abs in D. pose proof (digits_pos (Zpos p) ltac:(lia)).
    pose proof (normalize_exact (Zpos p) k e ltac:(lia) Hk D ltac:(lia) ltac:(lia)) as N.
    assert (H0 : 0 < Zpos p * 2 ^ k) by nia.
    destruct (Zpos p * 2 ^ k) as [|q|q] eqn:E; try lia.
    replace (Zneg p * 2 ^ k) with (Zneg q) by lia.
    unfold binary_normalize in *. rewrite binary_round_opp, N. reflexivity.
Qed.

Lemma cond_Zopp_abs (k : Z) : cond_Zopp (k <? 0) (Z.abs k) = k.
Proof. destruct k; reflexivity. Qed.

Lemma cond_Zopp_mul (b : bool) (x y : Z) : cond_Zopp b (x * y) = cond_Zopp b x * y.
Proof. destruct b; simpl; lia. Qed.

Lemma digits_abs_bound (a n : Z) :
  a <> 0 -> 0 <= n -> Z.abs a < 2 ^ n -> 0 < digits (Z.abs a) <= n.
Proof.
  intros N Hn H. split.
  - apply digits_pos. lia.
  - apply digits_le_bound; lia.
Qed.

(** The aligned, signed mantissa of a dyadic number. *)
Lemma aligned_mantissa (a e ez : Z) :
  a <> 0 -> digits (Z.abs a) <= 53 -> ez <= e + digits (Z.abs a) - 53 ->
  cond_Zopp (a <? 0)
    (Zpos (fst (shl_align (Z.to_pos (mant (Z.abs a))) (e + digits (Z.abs a) - 53) ez)))
  = a * 2 ^ (e - ez).
Proof.
  intros N D H.
  assert (Pa : 0 < Z.abs a) by lia.
  pose proof (digits_pos (Z.abs a) Pa) as Dp.
  destruct (mant_facts (Z.abs a) Pa D) as (M1 & M2 & M3).
  destruct (shl_align_le (Z.to_pos (mant (Z.abs a))) (e + digits (Z.abs a) - 53) ez H)
    as [SA _].
  rewrite SA, Z2Pos.id by lia.
  unfold mant. rewrite <- Z.mul_assoc, <- Z.pow_add_r by lia.
  replace (53 - digits (Z.abs a) + (e + digits (Z.abs a) - 53 - ez)) with (e - ez) by lia.
  rewrite cond_Zopp_mul, cond_Zopp_abs. reflexivity.
Qed.

Lemma Fsub_dyadic (a b e : Z) :
  Z.abs a < 2 ^ 52 -> Z.abs b < 2 ^ 52 -> -900 <= e <= 900 ->
  Fsub (dyadic a e) (dyadic b e) = dyadic (a - b) e.
Proof.
  intros Ha Hb He.
  destruct (Z.eq_dec b 0) as [Zb|Nb].
  { subst b. rewrite Z.sub_0_r. destruct a as [|p|p]; reflexivity. }
  destruct (digits_abs_bound b 52 Nb ltac:(lia) Hb) as [Db0 Db].
  destruct (Z.eq_dec a 0) as [Za|Na].
  { subst a. simpl Z.sub. rewrite dyadic_opp by exact Nb.
    rewrite (dyadic_finite b) by lia. reflexivity. }
  destruct (digits_abs_bound a 52 Na ltac:(lia) Ha) as [Da0 Da].
  rewrite (dyadic_finite a), (dyadic_finite b) by lia.
  unfold Fsub, SFsub.
  set (ez := Z.min (e + digits (Z.abs a) - 53) (e + digits (Z.abs b) - 53)).
  rewrite (aligned_mantissa a e ez) by (try assumption; subst ez; lia).
  rewrite (aligned_mantissa b e ez) by (try assumption; subst ez; lia).
  rewrite <- Z.mul_sub_distr_r.
  assert (Dc : digits (Z.abs (a - b)) <= 53).
  { destruct (Z.eq_dec (a - b) 0) as [Zc|Nc]; [rewrite Zc; simpl; unfold digits; simpl; lia|].
    apply digits_le_bound; lia. }
  rewrite normalize_dyadic; try (subst ez; lia).
  f_equal. lia.
Qed.

Lemma Fadd_dyadic (a b e : Z) :
  Z.abs a < 2 ^ 52 -> Z.abs b < 2 ^ 52 -> -900 <= e <= 900 ->
  Fadd (dyadic a e) (dyadic b e) = dyadic (a + b) e.
Proof.
  intros Ha Hb He.
  destruct (Z.eq_dec b 0) as [Zb|Nb].
  { subst b. rewrite Z.add_0_r. destruct a as [|p|p]; reflexivity. }
  destruct (digits_abs_bound b 52 Nb ltac:(lia) Hb) as [Db0 Db].
  destruct (Z.eq_dec a 0) as [Za|Na].
  { subst a. simpl Z.add. rewrite (dyadic_finite b) by lia. reflexivity. }
  destruct (digits_abs_bound a 52 Na ltac:(lia) Ha) as [Da0 Da].
  rewrite (dyadic_finite a), (dyadic_finite b) by lia.
  unfold Fadd, SFadd.
  set (ez := Z.min (e + digits (Z.abs a) - 53) (e + digits (Z.abs b) - 53)).
  rewrite (aligned_mantissa a e ez) by (try assumption; subst ez; lia).
  rewrite (aligned_mantissa b e ez) by (try assumption; subst ez; lia).
  rewrite <- Z.mul_add_distr_r.
  assert (Dc : digits (Z.abs (a + b)) <= 53).
  { destruct (Z.eq_dec (a + b) 0) as [Zc|Nc]; [rewrite Zc; simpl; unfold digits; simpl; lia|].
    apply digits_le_bound; lia. }
  rewrite normalize_dyadic; try (subst ez; lia).
  f_equal. lia.
Qed.

(** Division by a power of two and multiplication by one half are exact. *)
Lemma pow2_enc (n : Z) :
  0 <= n <= 52 -> of_Z (2 ^ n) = S754_finite false 4503599627370496 (n - 52).
Proof.
  intros Hn. assert (P : 0 < 2 ^ n) by (apply Z.pow_pos_nonneg; lia).
  assert (D : digits (2 ^ n) = n + 1).
  { unfold digits. rewrite Z.log2_pow2 by lia. reflexivity. }
  rewrite of_Z_enc by (rewrite ?D; lia). unfold enc. rewrite D.
  rewrite Z.shiftl_mul_pow2 by lia. rewrite <- Z.pow_add_r by lia.
  replace (n + (53 - (n + 1))) with 52 by lia. f_equal. lia.
Qed.

Lemma Fdiv_pow2 (a e n : Z) :
  0 < a -> digits a <= 53 -> -800 <= e <= 800 -> 0 <= n <= 52 ->
  SFdiv 53 1024 (enc a e) (S754_finite false 4503599627370496 (n - 52)) = enc a (e - n).
Proof.
  intros Ha D He Hn. pose proof (digits_pos a Ha) as Dp.
  destruct (mant_facts a Ha D) as (M1 & M2 & M3).
  rewrite enc_mant by assumption. unfold SFdiv, SFdiv_core_binary.
  rewrite Z2Pos.id by lia.
  rewrite (Zdigits2_digits (mant a)) by lia. rewrite M2.
  change (Zdigits2 (Z.pos 4503599627370496)) with 53.
  set (e1 := e + digits a - 53).
  rewrite fexp_normal by lia.
  replace (Z.min (53 + e1 - (53 + (n - 52)) - 53) (e1 - (n - 52)))
    with (e1 - n - 1) by lia.
  replace (e1 - (n - 52) - (e1 - n - 1)) with 53 by lia.
  rewrite Z.shiftl_mul_pow2 by lia.
  rewrite div_eucl_div_mod.
  change (Z.pos 4503599627370496) with (2 ^ 52).
  replace (mant a * 2 ^ 53) with (mant a * 2 * 2 ^ 52)
    by (change (2 ^ 53) with (2 * 2 ^ 52); lia).
  rewrite Z.div_mul, Z.mod_mul by (simpl; lia).
  change (new_location (2 ^ 52) 0) with loc_Exact. simpl xorb.
  replace (mant a * 2) with (mant a * 2 ^ 1) by (change (2 ^ 1) with 2; lia).
  rewrite bra_exact; rewrite ?M2; try lia.
  unfold mant. rewrite enc_shift by lia. f_equal. subst e1. lia.
Qed.

Lemma SFdiv_opp (x : number) (m : positive) (e : Z) :
  x <> S754_zero false -> x <> S754_zero true ->
  SFdiv 53 1024 (SFopp x) (S754_finite false m e)
  = SFopp (SFdiv 53 1024 x (S754_finite false m e)).
Proof.
  intros N1 N2. destruct x as [[|]|[|]| |[|] mx ex]; try congruence; try reflexivity;
    unfold SFdiv, SFopp;
    destruct (SFdiv_core_binary 53 1024 (Z.pos mx) ex (Z.pos m) e) as [[mz ez] lz];
    simpl xorb; rewrite ?bra_opp; try reflexivity.
  destruct (binary_round_aux 53 1024 false mz ez lz) as [[|]|[|]| |[|] ? ?]; reflexivity.
Qed.

Lemma Fdiv_dyadic_pow2 (r n : Z) :
  Z.abs r < 2 ^ 52 -> 0 <= n <= 52 ->
  Fdiv (of_Z r) (of_Z (2 ^ n)) = dyadic r (- n).
Proof.
  intros Hr Hn. rewrite pow2_enc by assumption. unfold Fdiv.
  destruct (Z.eq_dec r 0) as [Zr|Nr]; [subst r; reflexivity|].
  destruct (digits_abs_bound r 52 Nr ltac:(lia) Hr) as [D0 D].
  assert (O : of_Z r = dyadic r 0).
  { unfold of_Z. replace r with (r * 2 ^ 0) at 1 by (change (2 ^ 0) with 1; lia).
    rewrite normalize_dyadic by lia. reflexivity. }
  rewrite O. destruct r as [|p|p]; [congruence| |]; unfold dyadic; simpl Z.abs in *.
  - rewrite Fdiv_pow2 by lia. reflexivity.
  - rewrite SFdiv_opp by (unfold enc; discriminate).
    rewrite Fdiv_pow2 by lia. reflexivity.
Qed.

Lemma half_enc : enc 1 (-1) = S754_finite false 4503599627370496 (-53).
Proof. reflexivity. Qed.

Lemma Fmul_half (d e : Z) :
  Z.abs d < 2 ^ 52 -> -800 <= e <= 800 ->
  Fmul (dyadic d e) (enc 1 (-1)) = dyadic d (e - 1).
Proof.
  intros Hd He. rewrite half_enc.
  destruct (Z.eq_dec d 0) as [Zd|Nd]; [subst d; reflexivity|].
  destruct (digits_abs_bound d 52 Nd ltac:(lia) Hd) as [D0 D].
  assert (Pa : 0 < Z.abs d) by lia.
  destruct (mant_facts (Z.abs d) Pa ltac:(lia)) as (M1 & M2 & M3).
  rewrite (dyadic_finite d e) by lia. unfold Fmul, SFmul.
  rewrite xorb_false_r. rewrite Pos2Z.inj_mul, Z2Pos.id by lia.
  change (Z.pos 4503599627370496) with (2 ^ 52).
  assert (B : binary_round_aux 53 1024 false (mant (Z.abs d) * 2 ^ 52)
                (e + digits (Z.abs d) - 53 + -53) loc_Exact
              = enc (Z.abs d) (e - 1)).
  { rewrite bra_exact; rewrite ?M2; try lia.
    unfold mant. rewrite enc_shift by lia. f_equal. lia. }
  destruct d as [|p|p]; [congruence| |]; simpl Z.abs in *.
  - change (Z.pos p <? 0) with false. rewrite B. reflexivity.
  - change (Z.neg p <? 0) with true. rewrite bra_opp, B. reflexivity.
Qed.

(** The fractional part of the source index: none at an even index of the
    output, one half at an odd index. *)
Lemma frac_closed (i : Z) :
  0 <= i < 2 ^ 48 ->
  let srcIdx := Fdiv (of_Z i) ratio in
  Fsub srcIdx (of_Z (Math_floor srcIdx))
  = if Z.even i then S754_zero false else enc 1 (-1).
Proof.
  intros Hi srcIdx. subst srcIdx.
  assert (I : i = 0 \/ 0 < i) by lia. destruct I as [I|I].
  - subst i. vm_compute. reflexivity.
  - assert (Di : digits i <= 48) by (apply digits_le_bound; lia).
    rewrite (of_Z_enc i) by lia. rewrite Fdiv_ratio by lia.
    assert (D3 : digits (3 * i) <= 50) by (apply digits_le_bound; lia).
    rewrite floor_enc by lia. rewrite Z.shiftl_div_pow2 by lia.
    change (2 ^ (- -1)) with 2.
    set (z := 3 * i / 2).
    assert (Hz : 0 < z < 2 ^ 49) by (subst z; Z.div_mod_to_equations; lia).
    assert (Dz : digits z <= 49) by (apply digits_le_bound; lia).
    rewrite (of_Z_enc z) by lia.
    assert (E1 : enc (3 * i) (-1) = dyadic (3 * i) (-1))
      by (destruct (3 * i) eqn:E; try lia; reflexivity).
    assert (E2 : enc z 0 = dyadic (z * 2 ^ 1) (-1)).
    { rewrite dyadic_shift by lia. destruct z; try lia; reflexivity. }
    rewrite E1, E2. rewrite Fsub_dyadic by (change (2 ^ 1) with 2; lia).
    rewrite Zeven_mod.
    destruct (Z.eqb_spec (i mod 2) 0) as [C|C].
    + replace (3 * i - z * 2 ^ 1) with 0; [reflexivity|].
      subst z. change (2 ^ 1) with 2. Z.div_mod_to_equations. lia.
    + replace (3 * i - z * 2 ^ 1) with 1; [reflexivity|].
      subst z. change (2 ^ 1) with 2. Z.div_mod_to_equations. lia.
Qed.

Lemma Fmul_dyadic_zero (d e : Z) :
  digits (Z.abs d) <= 53 -> exists b, Fmul (dyadic d e) (S754_zero false) = S754_zero b.
Proof.
  intros D. destruct (Z.eq_dec d 0) as [Zd|Nd].
  - subst d. exists false. reflexivity.
  - rewrite dyadic_finite by assumption. eexists. reflexivity.
Qed.

Lemma Fadd_dyadic_zero (r e : Z) (b : bool) :
  digits (Z.abs r) <= 53 -> Fadd (dyadic r e) (S754_zero b) = dyadic r e.
Proof.
  intros D. destruct (Z.eq_dec r 0) as [Zr|Nr].
  - subst r. destruct b; reflexivity.
  - rewrite dyadic_finite by assumption. reflexivity.
Qed.

(** The value stored at an index, from the two samples read: the first
    sample at an even index, the mean of the two at an odd index. *)
Lemma mix_closed (r0 r1 i : Z) :
  -32768 <= r0 <= 32767 -> -32768 <= r1 <= 32767 -> 0 <= i < 2 ^ 48 ->
  mix r0 r1 i
  = Math_fround (if Z.even i then dyadic r0 (-15) else dyadic (r0 + r1) (-16)).
Proof.
  intros H0 H1 Hi. unfold mix. rewrite frac_closed by assumption.
  change (of_Z 32768) with (of_Z (2 ^ 15)).
  rewrite !Fdiv_dyadic_pow2 by (change (2 ^ 52) with 4503599627370496; lia).
  change (- (15)) with (-15).
  rewrite Fsub_dyadic by (change (2 ^ 52) with 4503599627370496; lia).
  f_equal. destruct (Z.even i).
  - destruct (Fmul_dyadic_zero (r1 - r0) (-15)) as [b Hb].
    { destruct (Z.eq_dec (r1 - r0) 0) as [Zc|Nc]; [rewrite Zc; cbv; discriminate|].
      apply digits_le_bound; lia. }
    rewrite Hb. apply Fadd_dyadic_zero.
    destruct (Z.eq_dec r0 0) as [Zc|Nc]; [rewrite Zc; cbv; discriminate|].
    apply digits_le_bound; lia.
  - rewrite Fmul_half by (change (2 ^ 52) with 4503599627370496; lia).
    change (-15 - 1) with (-16).
    replace (dyadic r0 (-15)) with (dyadic (r0 * 2 ^ 1) (-16))
      by (rewrite dyadic_shift by lia; reflexivity).
    rewrite Fadd_dyadic by (change (2 ^ 52) with 4503599627370496; change (2 ^ 1) with 2; lia).
    f_equal. change (2 ^ 1) with 2. lia.
Qed.

(** Storing into the [Float32Array] loses nothing: a dyadic number of at
    most 20 significant bits is a binary32 number. *)
Lemma fround_dyadic (k n : Z) :
  k <> 0 -> Z.abs k < 2 ^ 20 -> 0 <= n <= 100 ->
  Math_fround (dyadic k (- n))
  = S754_finite (k <? 0) (Z.to_pos (Z.abs k * 2 ^ (24 - digits (Z.abs k))))
                (- n + digits (Z.abs k) - 24).
Proof.
  intros Nk Hk Hn.
  destruct (digits_abs_bound k 20 Nk ltac:(lia) Hk) as [D0 D].
  assert (Pa : 0 < Z.abs k) by lia.
  destruct (mant_facts (Z.abs k) Pa ltac:(lia)) as (M1 & M2 & M3).
  rewrite dyadic_finite by lia. unfold Math_fround, binary_round.
  set (d := digits (Z.abs k)) in *. set (M := mant (Z.abs k)) in *.
  set (e0 := - n + d - 53).
  rewrite digits2_pos_digits, Z2Pos.id, M2 by lia.
  assert (F1 : fexp 24 128 (53 + e0) = e0 + 29) by (unfold fexp, emin; subst e0; lia).
  rewrite F1. unfold shl_align. replace (e0 + 29 - e0) with 29 by lia. cbv iota.
  unfold binary_round_aux. unfold shr_fexp at 1.
  rewrite Z2Pos.id, Zdigits2_digits, M2, F1 by lia.
  replace (e0 + 29 - e0) with 29 by lia.
  change (shr_record_of_loc M loc_Exact)
    with {| shr_m := M; shr_r := false; shr_s := false |}.
  unfold shr. rewrite iter_shr_1 by lia.
  assert (EM : M = Z.abs k * 2 ^ (24 - d) * 2 ^ 29).
  { subst M. unfold mant. fold d. rewrite <- Z.mul_assoc, <- Z.pow_add_r by lia.
    do 2 f_equal. lia. }
  assert (P24 : 0 < 2 ^ (24 - d)) by (apply Z.pow_pos_nonneg; lia).
  set (M' := Z.abs k * 2 ^ (24 - d)) in *.
  assert (T : Z.testbit M (29 - 1) = false).
  { rewrite EM. apply Z.mul_pow2_bits_low. lia. }
  assert (S0 : M mod 2 ^ (29 - 1) = 0).
  { rewrite EM. change (2 ^ 29) with (2 * 2 ^ (29 - 1)).
    rewrite Z.mul_assoc. apply Z.mod_mul. simpl. lia. }
  assert (Q : M / 2 ^ 29 = M').
  { rewrite EM. apply Z.div_mul. simpl. lia. }
  change (Z.pos 29 - 1) with (29 - 1). change (2 ^ Z.pos 29) with (2 ^ 29).
  rewrite T, S0, Q. cbv beta iota. simpl loc_of_shr_record. cbv beta iota.
  cbv [shr_m round_nearest_even].
  assert (DM' : digits M' = 24).
  { subst M'. rewrite digits_mul_pow2 by lia. fold d. lia. }
  unfold shr_fexp. rewrite Zdigits2_digits by lia. rewrite DM'.
  assert (F2 : fexp 24 128 (24 + (e0 + Z.pos 29)) = e0 + 29)
    by (unfold fexp, emin; subst e0; lia).
  rewrite F2. replace (e0 + 29 - (e0 + Z.pos 29)) with 0 by lia.
  simpl shr_record_of_loc. unfold shr. cbv beta iota. cbv [shr_m].
  destruct M' as [|q|q] eqn:EQ; try lia.
  replace (e0 + Z.pos 29 <=? 128 - 24) with true
    by (symmetry; apply Z.leb_le; subst e0; lia).
  simpl Z.to_pos. f_equal. subst e0; lia.
Qed.

Lemma scaled_fround_dyadic (k n : Z) :
  Z.abs k < 2 ^ 20 -> 0 <= n <= 100 ->
  scaled n (Math_fround (dyadic k (- n))) = Some k.
Proof.
  intros Hk Hn. destruct (Z.eq_dec k 0) as [Zk|Nk]; [subst k; reflexivity|].
  destruct (digits_abs_bound k 20 Nk ltac:(lia) Hk) as [D0 D].
  rewrite fround_dyadic by assumption. unfold scaled.
  set (d := digits (Z.abs k)) in *.
  assert (P24 : 0 < 2 ^ (24 - d)) by (apply Z.pow_pos_nonneg; lia).
  assert (PM : 0 < Z.abs k * 2 ^ (24 - d)) by nia.
  replace (0 <=? - n + d - 24 + n) with false by (symmetry; apply Z.leb_gt; lia).
  rewrite Z2Pos.id by lia.
  replace (- (- n + d - 24 + n)) with (24 - d) by lia.
  rewrite Z.mod_mul by lia. simpl Z.eqb. cbv iota.
  f_equal. unfold signed.
  destruct k as [|p|p]; [congruence| |].
  - change (Z.pos p <? 0) with false. cbv iota. rewrite Z2Pos.id by lia.
    apply Z.div_mul. lia.
  - change (Z.neg p <? 0) with true. cbv iota.
    change (Z.neg (Z.to_pos (Z.abs (Z.neg p) * 2 ^ (24 - d))))
      with (- Z.pos (Z.to_pos (Z.abs (Z.neg p) * 2 ^ (24 - d)))).
    rewrite Z2Pos.id by lia. simpl Z.abs.
    replace (- (Z.pos p * 2 ^ (24 - d))) with (Z.neg p * 2 ^ (24 - d)) by lia.
    apply Z.div_mul. lia.
Qed.

Lemma int16_at_range (buf : list Byte.byte) (o r : Z) :
  int16_at buf o = Some r -> -32768 <= r <= 32767.
Proof.
  unfold int16_at. destruct ((0 <=? o) && _); [|discriminate].
  destruct (nth_error buf (Z.to_nat o)) as [lo|]; [|discriminate].
  destruct (nth_error buf (Z.to_nat o + 1)) as [hi|]; [|discriminate].
  pose proof (Byte.to_N_bounded lo) as Blo. pose proof (Byte.to_N_bounded hi) as Bhi.
  cbv zeta.
  assert (U : 0 <= Z.of_N (Byte.to_N lo) + 256 * Z.of_N (Byte.to_N hi) <= 65535) by lia.
  set (u := Z.of_N (Byte.to_N lo) + 256 * Z.of_N (Byte.to_N hi)) in *.
  intros Hr. injection Hr as <-.
  destruct (Z.ltb_spec u 32768); lia.
Qed.

Lemma fill_nth (buf : list Byte.byte) (a : number) (n : nat) (i : Z) (out : list number) :
  fill buf a ratio i n = Some out ->
  forall k, (k < n)%nat -> nth_error out k = sample buf a ratio (i + Z.of_nat k).
Proof.
  revert i out. induction n as [|n IH]; intros i out H k Hk; [lia|].
  simpl fill in H. destruct (sample buf a ratio i) as [x|] eqn:S; [|discriminate].
  destruct (fill buf a ratio (i + 1) n) as [xs|] eqn:F; [|discriminate].
  injection H as <-. destruct k as [|k].
  - simpl. rewrite Z.add_0_r, S. reflexivity.
  - simpl nth_error. rewrite (IH (i + 1) xs F k) by lia. f_equal. lia.
Qed.

(** What [sample] stores at an even and at an odd index. *)
Lemma sample_even (buf : list Byte.byte) (j : Z) :
  let L := Z.of_nat (List.length buf) in
  L < 2 ^ 48 -> 0 <= 2 * j < L / 3 ->
  exists x, pcm buf (3 * j) = Some x
            /\ sample buf (numInputSamples buf) ratio (2 * j)
               = Some (Math_fround (dyadic x (-15))).
Proof.
  intros L HL Hj. rewrite sample_offsets by (fold L; lia). fold L.
  replace (3 * (2 * j) / 2) with (3 * j) by (Z.div_mod_to_equations; lia).
  unfold pcm.
  destruct (int16_at_some buf (2 * (3 * j))) as [r0 E0];
    [lia | fold L; Z.div_mod_to_equations; lia |].
  destruct (int16_at_some buf (Z.min (2 * (3 * j) + 2) (L - 2))) as [r1 E1];
    [Z.div_mod_to_equations; lia | fold L; Z.div_mod_to_equations; lia |].
  rewrite E0, E1. exists r0. split; [reflexivity|].
  rewrite mix_closed; try (eapply int16_at_range; eassumption).
  - replace (Z.even (2 * j)) with true; [reflexivity|].
    symmetry. rewrite Z.even_mul. reflexivity.
  - Z.div_mod_to_equations. lia.
Qed.

Lemma sample_odd (buf : list Byte.byte) (j : Z) :
  let L := Z.of_nat (List.length buf) in
  L < 2 ^ 48 -> 0 <= j -> 2 * j + 1 < L / 3 ->
  exists x1 x2, pcm buf (3 * j + 1) = Some x1 /\ pcm buf (3 * j + 2) = Some x2
            /\ sample buf (numInputSamples buf) ratio (2 * j + 1)
               = Some (Math_fround (dyadic (x1 + x2) (-16))).
Proof.
  intros L HL H0 Hj. rewrite sample_offsets by (fold L; lia). fold L.
  replace (3 * (2 * j + 1) / 2) with (3 * j + 1) by (Z.div_mod_to_equations; lia).
  rewrite Z.min_l by (Z.div_mod_to_equations; lia).
  replace (2 * (3 * j + 1) + 2) with (2 * (3 * j + 2)) by lia.
  unfold pcm.
  destruct (int16_at_some buf (2 * (3 * j + 1))) as [r0 E0];
    [lia | fold L; Z.div_mod_to_equations; lia |].
  destruct (int16_at_some buf (2 * (3 * j + 2))) as [r1 E1];
    [lia | fold L; Z.div_mod_to_equations; lia |].
  rewrite E0, E1. exists r0, r1. split; [reflexivity|]. split; [reflexivity|].
  rewrite mix_closed; try (eapply int16_at_range; eassumption).
  - replace (Z.even (2 * j + 1)) with false; [reflexivity|].
    symmetry. rewrite Z.even_add, Z.even_mul. reflexivity.
  - Z.div_mod_to_equations. lia.
Qed.

Lemma resample_nth (buf : list Byte.byte) (out : list number) (i : Z) :
  Z.of_nat (List.length buf) < 2 ^ 48 ->
  resampleAndConvertToFloat32 buf = Some out ->
  0 <= i < Z.of_nat (List.length out) ->
  Z.of_nat (List.length out) = Z.of_nat (List.length buf) / 3
  /\ nth_error out (Z.to_nat i) = sample buf (numInputSamples buf) ratio i.
Proof.
  intros HL R Hi.
  destruct (resample_total buf HL) as (out' & R' & Lo).
  rewrite R in R'. injection R' as <-. split; [exact Lo|].
  unfold resampleAndConvertToFloat32 in R.
  rewrite (fill_nth _ _ _ _ _ R (Z.to_nat i)).
  - f_equal. lia.
  - rewrite numOutputSamples_eq by assumption. lia.
Qed.

(** X1. The resampler computes its output without rounding error: output
    sample [2j] is input sample [3j] divided by 32768, and output sample
    [2j+1] is the sum of input samples [3j+1] and [3j+2] divided by 65536
    (their mean, scaled), both exactly as binary32 numbers. *)
Theorem resampled_samples_are_exact
    (buf : list Byte.byte) (out : list number) (j : Z) :
  Z.of_nat (List.length buf) < 2 ^ 48 ->
  resampleAndConvertToFloat32 buf = Some out ->
  0 <= j ->
  (2 * j < Z.of_nat (List.length out) ->
   exists x y,
     pcm buf (3 * j) = Some x /\ -32768 <= x <= 32767
     /\ nth_error out (Z.to_nat (2 * j)) = Some y
     /\ scaled 15 y = Some x)
  /\ (2 * j + 1 < Z.of_nat (List.length out) ->
      exists x1 x2 y,
        pcm buf (3 * j + 1) = Some x1 /\ pcm buf (3 * j + 2) = Some x2
        /\ nth_error out (Z.to_nat (2 * j + 1)) = Some y
        /\ scaled 16 y = Some (x1 + x2)).
Proof.
  intros HL R Hj. split; intros Hi.
  - destruct (resample_nth buf out (2 * j) HL R ltac:(lia)) as [Lo N].
    destruct (sample_even buf j HL ltac:(lia)) as (x & Px & Sx).
    pose proof (int16_at_range _ _ _ Px) as Rx.
    exists x, (Math_fround (dyadic x (-15))).
    split; [exact Px|]. split; [exact Rx|]. split; [rewrite N; exact Sx|].
    apply (scaled_fround_dyadic x 15); [change (2 ^ 20) with 1048576|]; lia.
  - destruct (resample_nth buf out (2 * j + 1) HL R ltac:(lia)) as [Lo N].
    destruct (sample_odd buf j HL Hj ltac:(lia)) as (x1 & x2 & P1 & P2 & Sx).
    pose proof (int16_at_range _ _ _ P1) as R1.
    pose proof (int16_at_range _ _ _ P2) as R2.
    exists x1, x2, (Math_fround (dyadic (x1 + x2) (-16))).
    split; [exact P1|]. split; [exact P2|]. split; [rewrite N; exact Sx|].
    apply (scaled_fround_dyadic (x1 + x2) 16); [change (2 ^ 20) with 1048576|]; lia.
Qed.

(** ** Chunks *)

Lemma int16_at_app_left (A B : list Byte.byte) (o : Z) :
  0 <= o -> o + 2 <= Z.of_nat (List.length A) ->
  int16_at (A ++ B) o = int16_at A o.
Proof.
  intros H0 H2. unfold int16_at. rewrite length_app.
  replace ((0 <=? o) && (o + 2 <=? Z.of_nat (List.length A + List.length B))) with true
    by (symmetry; apply andb_true_iff; split; apply Z.leb_le; lia).
  replace ((0 <=? o) && (o + 2 <=? Z.of_nat (List.length A))) with true
    by (symmetry; apply andb_true_iff; split; apply Z.leb_le; lia).
  rewrite !nth_error_app1 by lia. reflexivity.
Qed.

Lemma int16_at_app_right (A B : list Byte.byte) (o : Z) :
  0 <= o ->
  int16_at (A ++ B) (Z.of_nat (List.length A) + o) = int16_at B o.
Proof.
  intros H0. unfold int16_at. rewrite length_app.
  replace (0 <=? Z.of_nat (List.length A) + o) with true
    by (symmetry; apply Z.leb_le; lia).
  replace (0 <=? o) with true by (symmetry; apply Z.leb_le; lia).
  replace (Z.of_nat (List.length A) + o + 2 <=? Z.of_nat (List.length A + List.length B))
    with (o + 2 <=? Z.of_nat (List.length B)).
  2:{ destruct (Z.leb_spec (o + 2) (Z.of_nat (List.length B)));
        symmetry; [apply Z.leb_le|apply Z.leb_gt]; lia. }
  rewrite !nth_error_app2 by lia.
  replace (Z.to_nat (Z.of_nat (List.length A) + o) - List.length A)%nat
    with (Z.to_nat o) by lia.
  replace (Z.to_nat (Z.of_nat (List.length A) + o) + 1 - List.length A)%nat
    with (Z.to_nat o + 1)%nat by lia.
  reflexivity.
Qed.

Lemma fill_ext_shift (A B : list Byte.byte) (a b : number) (n : nat) (i i' : Z) :
  (forall k, 0 <= k < Z.of_nat n ->
             sample A a ratio (i + k) = sample B b ratio (i' + k)) ->
  fill A a ratio i n = fill B b ratio i' n.
Proof.
  revert i i'. induction n as [|n IH]; intros i i' H; [reflexivity|].
  simpl fill. pose proof (H 0 ltac:(lia)) as H0. rewrite !Z.add_0_r in H0.
  rewrite H0. rewrite (IH (i + 1) (i' + 1)); [reflexivity|].
  intros k Hk. replace (i + 1 + k) with (i + (k + 1)) by lia.
  replace (i' + 1 + k) with (i' + (k + 1)) by lia. apply H. lia.
Qed.

(** X2. Resampling a buffer in two chunks gives the same samples as
    resampling it at once, when the first chunk holds a multiple of three
    input samples (six bytes). *)
Theorem resampling_commutes_with_chunking (A B : list Byte.byte) (m : nat) :
  List.length A = (6 * m)%nat ->
  Z.of_nat (List.length (A ++ B)) < 2 ^ 48 ->
  exists outA outB,
    resampleAndConvertToFloat32 A = Some outA
    /\ resampleAndConvertToFloat32 B = Some outB
    /\ resampleAndConvertToFloat32 (A ++ B) = Some (outA ++ outB).
Proof.
  intros LA HL. rewrite length_app in HL.
  set (LB := Z.of_nat (List.length B)).
  assert (HA : Z.of_nat (List.length A) < 2 ^ 48) by lia.
  assert (HB : Z.of_nat (List.length B) < 2 ^ 48) by lia.
  assert (HAB : Z.of_nat (List.length (A ++ B)) < 2 ^ 48) by (rewrite length_app; lia).
  set (nA := (2 * m)%nat). set (nB := Z.to_nat (LB / 3)).
  assert (B3 : 0 <= LB / 3) by (subst LB; Z.div_mod_to_equations; lia).
  assert (NA : Z.to_nat (numOutputSamples A) = nA).
  { rewrite numOutputSamples_eq by assumption. rewrite LA. subst nA.
    Z.div_mod_to_equations. lia. }
  assert (NB : Z.to_nat (numOutputSamples B) = nB).
  { rewrite numOutputSamples_eq by assumption. reflexivity. }
  assert (NAB : Z.to_nat (numOutputSamples (A ++ B)) = (nA + nB)%nat).
  { rewrite numOutputSamples_eq by assumption. rewrite length_app, LA.
    subst nA nB LB. Z.div_mod_to_equations. lia. }
  unfold resampleAndConvertToFloat32. rewrite NA, NB, NAB. rewrite fill_app.
  destruct (fill_some A nA 0 HA ltac:(lia)) as (outA & EA & _).
  { rewrite LA. subst nA. Z.div_mod_to_equations. lia. }
  destruct (fill_some B nB 0 HB ltac:(lia)) as (outB & EB & _).
  { subst nB. fold LB. lia. }
  exists outA, outB. split; [exact EA|]. split; [exact EB|].
  assert (E1 : fill (A ++ B) (numInputSamples (A ++ B)) ratio 0 nA
               = fill A (numInputSamples A) ratio 0 nA).
  { apply fill_ext. intros j Hj.
    rewrite !sample_offsets
      by (rewrite ?length_app, ?LA; subst nA; try lia; Z.div_mod_to_equations; lia).
    rewrite length_app, LA.
    assert (O0 : 2 * (3 * j / 2) + 4 <= Z.of_nat (6 * m))
      by (subst nA; Z.div_mod_to_equations; lia).
    rewrite !Z.min_l by lia.
    rewrite !int16_at_app_left by (rewrite ?LA; try lia; Z.div_mod_to_equations; lia).
    reflexivity. }
  assert (E2 : fill (A ++ B) (numInputSamples (A ++ B)) ratio (0 + Z.of_nat nA) nB
               = fill B (numInputSamples B) ratio 0 nB).
  { apply fill_ext_shift. intros k Hk.
    rewrite !sample_offsets
      by (rewrite ?length_app, ?LA; fold LB; subst nA nB; try lia;
          Z.div_mod_to_equations; lia).
    rewrite length_app, LA. fold LB.
    replace (2 * (3 * (0 + Z.of_nat nA + k) / 2))
      with (Z.of_nat (List.length A) + 2 * (3 * (0 + k) / 2))
      by (rewrite LA; subst nA; Z.div_mod_to_equations; lia).
    replace (Z.min (Z.of_nat (List.length A) + 2 * (3 * (0 + k) / 2) + 2)
                   (Z.of_nat (6 * m + List.length B) - 2))
      with (Z.of_nat (List.length A) + Z.min (2 * (3 * (0 + k) / 2) + 2) (LB - 2))
      by (rewrite LA; subst LB; lia).
    rewrite !int16_at_app_right by (subst LB nB; Z.div_mod_to_equations; lia).
    destruct (int16_at B (2 * (3 * (0 + k) / 2))) as [r0|] eqn:R0; [|reflexivity].
    destruct (int16_at B (Z.min (2 * (3 * (0 + k) / 2) + 2) (LB - 2))) as [r1|] eqn:R1;
      [|reflexivity].
    pose proof (int16_at_range _ _ _ R0). pose proof (int16_at_range _ _ _ R1).
    rewrite !mix_closed by (subst nA nB LB; try lia; Z.div_mod_to_equations; lia).
    replace (Z.even (0 + Z.of_nat nA + k)) with (Z.even (0 + k)); [reflexivity|].
    subst nA. rewrite !Z.add_0_l, Nat2Z.inj_mul, Z.even_add, Z.even_mul.
    destruct (Z.even k); reflexivity. }
  rewrite E1, E2, EA, EB. reflexivity.
Qed.

Lemma resampling_commutes_with_chunking_witness :
  exists outA outB,
    resampleAndConvertToFloat32 [Byte.x00; Byte.x40; Byte.x00; Byte.x20; Byte.xff; Byte.x7f]
      = Some outA
    /\ resampleAndConvertToFloat32 [Byte.x00; Byte.xc0; Byte.x01; Byte.x00; Byte.x02] = Some outB
    /\ resampleAndConvertToFloat32
         ([Byte.x00; Byte.x40; Byte.x00; Byte.x20; Byte.xff; Byte.x7f]
          ++ [Byte.x00; Byte.xc0; Byte.x01; Byte.x00; Byte.x02])
       = Some (outA ++ outB).
Proof.
  apply (resampling_commutes_with_chunking
           [Byte.x00; Byte.x40; Byte.x00; Byte.x20; Byte.xff; Byte.x7f]
           [Byte.x00; Byte.xc0; Byte.x01; Byte.x00; Byte.x02] 1%nat).
  - reflexivity.
  - reflexivity.
Defined.

Lemma resampled_samples_are_exact_witness :
  let buf := [Byte.x00; Byte.x40; Byte.x00; Byte.x20; Byte.xff; Byte.x7f] in
  let out := [S754_finite false 8388608 (-24); S754_finite false 10485504 (-24)] in
  resampleAndConvertToFloat32 buf = Some out
  /\ (exists x y, pcm buf 0 = Some x /\ -32768 <= x <= 32767
        /\ nth_error out 0 = Some y /\ scaled 15 y = Some x)
  /\ (exists x1 x2 y, pcm buf 1 = Some x1 /\ pcm buf 2 = Some x2
        /\ nth_error out 1 = Some y /\ scaled 16 y = Some (x1 + x2)).
Proof.
  intros buf out.
  assert (R : resampleAndConvertToFloat32 buf = Some out) by (vm_compute; reflexivity).
  split; [exact R|].
  destruct (resampled_samples_are_exact buf out 0 ltac:(reflexivity) R ltac:(lia))
    as [H0 H1].
  split; [apply H0; reflexivity|apply H1; reflexivity].
Defined.

(* ===================================================================== *)
(** * The Zen provider: properties *)
(* ===================================================================== *)

Lemma trimStart_nil_iff (s : jsstring) :
  trimStart s = [] <-> forallb isWhiteSpace s = true.
Proof.
  induction s as [|c s IH]; simpl; [tauto|].
  destruct (isWhiteSpace c); simpl; [exact IH|].
  split; discriminate.
Qed.

Lemma forallb_rev {A} (f : A -> bool) (l : list A) :
  forallb f (rev l) = forallb f l.
Proof.
  induction l as [|a l IH]; [reflexivity|].
  simpl rev. rewrite forallb_app, IH. simpl. rewrite andb_true_r. apply andb_comm.
Qed.

Lemma trim_nil_iff (s : jsstring) :
  trim s = [] <-> forallb isWhiteSpace s = true.
Proof.
  unfold trim, trimEnd. split.
  - intros H. apply (f_equal (@rev N)) in H. rewrite rev_involutive in H. simpl in H.
    apply trimStart_nil_iff in H. rewrite forallb_rev in H.
    pose proof (trimStart_head s) as Hd.
    destruct (trimStart s) as [|c r] eqn:E.
    + apply trimStart_nil_iff. exact E.
    + simpl in H. rewrite Hd in H. discriminate.
  - intros H. apply trimStart_nil_iff in H. rewrite H. reflexivity.
Qed.

Lemma truthy_or (a b : Zen.value) :
  Zen.truthy (Zen.or_else a b) = Zen.truthy a || Zen.truthy b.
Proof. unfold Zen.or_else. destruct (Zen.truthy a) eqn:T; simpl; auto. Qed.

Lemma errorMessage_truthy (r : Zen.response) (fallback : jsstring) :
  fallback <> [] -> Zen.truthy (Zen.errorMessage r fallback) = true.
Proof.
  intros N. unfold Zen.errorMessage. rewrite !truthy_or.
  destruct fallback; [congruence|]. simpl. rewrite !orb_true_r. reflexivity.
Qed.

(** X14. [validateApiKey] answers 'API key cannot be empty.' without any
    request when the key is not a string or holds white space only.
    Otherwise it makes exactly one request, carrying the key as given; it
    succeeds exactly when the server answers with [ok], and a failure always
    carries a truthy error. *)
Theorem validateApiKey_asks_the_server_only_for_a_nonblank_key
    (fetch : Zen.network) (key : Zen.value) :
  if blank key then
    Zen.validateApiKey fetch key
    = (Zen.Failure (Zen.string_value "API key cannot be empty."), [])
  else
    exists k,
      key = Some (Zen.JString k)
      /\ snd (Zen.validateApiKey fetch key) = [Zen.GetModels (str "Bearer " ++ k)]
      /\ (fst (Zen.validateApiKey fetch key) = Zen.Success
          <-> exists r, fetch (Zen.GetModels (str "Bearer " ++ k)) = Some r
                        /\ Zen.ok r = true)
      /\ (forall e, fst (Zen.validateApiKey fetch key) = Zen.Failure e ->
                     Zen.truthy e = true).
Proof.
  destruct key as [[| | |k| |]|]; simpl blank; try reflexivity.
  destruct (forallb isWhiteSpace k) eqn:B.
  - unfold Zen.validateApiKey. apply trim_nil_iff in B. rewrite B. reflexivity.
  - exists k. split; [reflexivity|].
    assert (T : jsstring_eqb (trim k) [] = false).
    { apply jsstring_eqb_neq. intros H. apply trim_nil_iff in H. congruence. }
    unfold Zen.validateApiKey. rewrite T.
    destruct (fetch (Zen.GetModels (str "Bearer " ++ k))) as [r|] eqn:F.
    + destruct (Zen.ok r) eqn:O; simpl.
      * split; [reflexivity|]. split; [|discriminate].
        split; [intros _; exists r; auto|reflexivity].
      * split; [reflexivity|]. split.
        -- split; [discriminate|]. intros (r' & E & O'). congruence.
        -- intros e H. injection H as <-. apply errorMessage_truthy.
           discriminate.
    + simpl. split; [reflexivity|]. split.
      * split; [discriminate|]. intros (r' & E & _). discriminate.
      * intros e H. injection H as <-. reflexivity.
Qed.

(** ** [callApi] *)

(** X15. [callApi] makes one request.  When it returns, the server has
    answered [ok] with the raw result returned, and the content is a string
    with no white space at either end, whatever the result held.  When it
    raises an API error, the server has not answered [ok] and the message of
    the error is truthy. *)
Theorem callApi_answers_with_bare_content
    (ToString : Zen.json -> option jsstring) (fetch : Zen.network)
    (cfg : Zen.config) (m : Zen.messages) :
  let req := Zen.PostChat (str "Bearer " ++ Zen.apiKey cfg) (Zen.bodyOf cfg m false) in
  snd (Zen.callApi ToString fetch cfg m) = [req]
  /\ (forall content raw,
        fst (Zen.callApi ToString fetch cfg m) = inl (content, raw) ->
        bare content
        /\ exists r, fetch req = Some r /\ Zen.ok r = true /\ Zen.json_ r = Some raw)
  /\ (forall message,
        fst (Zen.callApi ToString fetch cfg m) = inr (Zen.ApiError message) ->
        Zen.truthy message = true
        /\ exists r, fetch req = Some r /\ Zen.ok r = false).
Proof.
  intros req. unfold Zen.callApi. fold req.
  destruct (fetch req) as [r|] eqn:F; [|repeat split; intros; discriminate].
  destruct (Zen.ok r) eqn:O; simpl negb; cbv iota.
  - destruct (Zen.json_ r) as [result|] eqn:J; [|repeat split; intros; discriminate].
    set (content := Zen.get "content" _).
    assert (K : forall s content' raw,
               (inl (trim s, result) : jsstring * Zen.json + Zen.zen_error)
               = inl (content', raw) ->
               bare content'
               /\ exists r0, Some r = Some r0 /\ Zen.ok r0 = true /\ Zen.json_ r0 = Some raw).
    { intros s c raw H. injection H as <- <-. split; [apply trim_bare|].
      exists r. auto. }
    destruct content as [[| | |s| |]|];
      try (destruct (Zen.String_ ToString _) as [s|]);
      simpl; (split; [reflexivity|]);
      (split; [intros c raw H; try discriminate; eapply K; exact H
              |intros msg H; discriminate]).
  - simpl. split; [reflexivity|]. split; [intros c raw H; discriminate|].
    intros msg H. injection H as <-. split.
    + apply errorMessage_truthy. intros E.
      apply app_eq_nil in E. destruct E as [_ E]. discriminate.
    + exists r. auto.
Qed.

(** ** [generateContent] *)

Lemma includes_nonempty (s pattern : jsstring) :
  pattern <> [] -> Zen.includes s pattern = true -> s <> [].
Proof.
  intros N H E. subst s. destruct pattern; [congruence|]. discriminate.
Qed.

Lemma collect_after_prompt (l : list Zen.part) (sp : jsstring) (uc : list Zen.item) :
  sp <> [] ->
  fold_left Zen.collect l (sp, uc) = (sp, uc ++ flat_map itemsOf l).
Proof.
  intros N. revert uc. induction l as [|p l IH]; intros uc; simpl.
  - rewrite app_nil_r. reflexivity.
  - assert (E : jsstring_eqb sp [] = false) by (apply jsstring_eqb_neq; exact N).
    destruct p as [s|mt d|]; simpl; rewrite ?E; simpl; rewrite IH, <- ?app_assoc;
      reflexivity.
Qed.

Lemma collect_before_prompt (l : list Zen.part) (uc : list Zen.item) :
  forallb (fun p => negb (is_prompt p)) l = true ->
  fold_left Zen.collect l ([], uc) = ([], uc ++ flat_map itemsOf l).
Proof.
  revert uc. induction l as [|p l IH]; intros uc H; simpl.
  - rewrite app_nil_r. reflexivity.
  - simpl in H. apply andb_true_iff in H. destruct H as [H1 H2].
    destruct p as [s|mt d|]; simpl in *.
    + apply negb_true_iff in H1. rewrite H1. simpl.
      rewrite IH by exact H2. rewrite <- app_assoc. reflexivity.
    + rewrite IH by exact H2. rewrite <- app_assoc. reflexivity.
    + apply IH. exact H2.
Qed.

Lemma fold_left_collect_app (l1 l2 : list Zen.part) (acc : jsstring * list Zen.item) :
  fold_left Zen.collect (l1 ++ l2) acc
  = fold_left Zen.collect l2 (fold_left Zen.collect l1 acc).
Proof. apply fold_left_app. Qed.

Lemma first_prompt (l : list Zen.part) :
  forallb (fun p => negb (is_prompt p)) l = true
  \/ exists l1 sp l2,
       l = l1 ++ Zen.Text sp :: l2
       /\ forallb (fun p => negb (is_prompt p)) l1 = true
       /\ Zen.includes sp (str "You are") = true.
Proof.
  induction l as [|p l IH]; [left; reflexivity|].
  destruct (is_prompt p) eqn:P.
  - right. destruct p as [s|mt d|]; try discriminate.
    exists [], s, l. repeat split. exact P.
  - destruct IH as [IH|(l1 & sp & l2 & E & F & I)].
    + left. simpl. rewrite P. exact IH.
    + right. exists (p :: l1), sp, l2. subst l. repeat split; try assumption.
      simpl. rewrite P. exact F.
Qed.

(** X16. [generateContent] makes the first string part that contains
    "You are" the system message, and puts all other string parts and inline
    data, in their order, into one user message (none when there are none);
    with no such part there is no system message. *)
Theorem generateContent_takes_the_first_prompt_as_system_message
    (parts : list Zen.part) :
  (forallb (fun p => negb (is_prompt p)) parts = true
   /\ Zen.messagesOf parts = user_message (flat_map itemsOf parts))
  \/ exists before prompt after,
       parts = before ++ Zen.Text prompt :: after
       /\ forallb (fun p => negb (is_prompt p)) before = true
       /\ Zen.includes prompt (str "You are") = true
       /\ Zen.messagesOf parts
          = Zen.system prompt :: user_message (flat_map itemsOf (before ++ after)).
Proof.
  destruct (first_prompt parts) as [H|(l1 & sp & l2 & E & F & I)].
  - left. split; [exact H|]. unfold Zen.messagesOf.
    rewrite collect_before_prompt by exact H. reflexivity.
  - right. exists l1, sp, l2. repeat split; try assumption.
    unfold Zen.messagesOf. rewrite E, fold_left_collect_app.
    rewrite collect_before_prompt by exact F. cbn [fold_left Zen.collect].
    rewrite I. simpl andb. cbv iota.
    assert (N : sp <> []) by (eapply includes_nonempty; [|exact I]; discriminate).
    rewrite collect_after_prompt by exact N.
    rewrite flat_map_app. simpl app at 1.
    destruct sp; [congruence|]. reflexivity.
Qed.

(* ===================================================================== *)
(** * The preset repositories: properties *)
(* ===================================================================== *)

Lemma filter_map_same {A} (f : A -> bool) (g : A -> A) (l : list A) :
  (forall x, f (g x) = f x) -> (forall x, f x = true -> g x = x) ->
  filter f (map g l) = filter f l.
Proof.
  intros H1 H2. induction l as [|x l IH]; simpl; [reflexivity|].
  rewrite H1. destruct (f x) eqn:E; rewrite IH; [rewrite H2 by exact E|]; reflexivity.
Qed.

Lemma filter_filter_disjoint {A} (f g : A -> bool) (l : list A) :
  (forall x, f x = true -> g x = true) ->
  filter f (filter g l) = filter f l.
Proof.
  intros H. induction l as [|x l IH]; simpl; [reflexivity|].
  destruct (g x) eqn:G; simpl.
  - rewrite IH. reflexivity.
  - destruct (f x) eqn:F; [rewrite (H x F) in G; discriminate|exact IH].
Qed.

Lemma selected_uid (id0 uid0 other : jsstring) (r : Presets.row) :
  other <> uid0 -> jsstring_eqb (Presets.uid r) other = true ->
  Presets.selected id0 uid0 r = false.
Proof.
  intros N H. apply jsstring_eqb_eq in H. unfold Presets.selected.
  destruct (jsstring_eqb (Presets.uid r) uid0) eqn:E; [|apply andb_false_r].
  apply jsstring_eqb_eq in E. congruence.
Qed.

(** X17. No [create], [update] or [delete] of one user changes what
    [getPresets] returns to another user. *)
Theorem presets_of_other_users_are_untouched
    (title_leb : jsstring -> jsstring -> bool)
    (uid other : jsstring) (o : operation) (db : Presets.table) :
  other <> uid ->
  Presets.getPresets title_leb other (run_operation uid o db)
  = Presets.getPresets title_leb other db.
Proof.
  intros N. unfold Presets.getPresets. f_equal.
  destruct o as [pid now t p|i t p|i]; simpl.
  - rewrite filter_app. simpl.
    destruct (jsstring_eqb uid other) eqn:E.
    + apply jsstring_eqb_eq in E. congruence.
    + apply app_nil_r.
  - apply filter_map_same.
    + intros r. destruct (Presets.selected i uid r); reflexivity.
    + intros r H. rewrite (selected_uid i uid other r N H). reflexivity.
  - apply filter_filter_disjoint. intros r H.
    rewrite (selected_uid i uid other r N H). reflexivity.
Qed.

(** ** Reading *)

Section Reading.

Variable title_leb : jsstring -> jsstring -> bool.

Lemma insert_perm (r : Presets.row) (l : list Presets.row) :
  Permutation (Presets.insert title_leb r l) (r :: l).
Proof.
  induction l as [|x l IH]; simpl; [apply Permutation_refl|].
  destruct (title_leb (Presets.title r) (Presets.title x)); [apply Permutation_refl|].
  eapply Permutation_trans; [apply perm_skip, IH|apply perm_swap].
Qed.

Lemma order_by_title_perm (l : list Presets.row) :
  Permutation (Presets.order_by_title title_leb l) l.
Proof.
  induction l as [|x l IH]; simpl; [apply perm_nil|].
  eapply Permutation_trans; [apply insert_perm|apply perm_skip, IH].
Qed.

Lemma getPresets_perm (uid0 : jsstring) (db : Presets.table) :
  Permutation (Presets.getPresets title_leb uid0 db)
              (filter (fun r => jsstring_eqb (Presets.uid r) uid0) db).
Proof. apply order_by_title_perm. Qed.

Lemma getPresets_In (uid0 : jsstring) (db : Presets.table) (r : Presets.row) :
  In r (Presets.getPresets title_leb uid0 db) <-> In r db /\ Presets.uid r = uid0.
Proof.
  split.
  - intros H. apply (Permutation_in _ (getPresets_perm uid0 db)) in H.
    apply filter_In in H. rewrite jsstring_eqb_eq in H. exact H.
  - intros [H E]. apply (Permutation_in _ (Permutation_sym (getPresets_perm uid0 db))).
    apply filter_In. rewrite jsstring_eqb_eq. auto.
Qed.

Hypothesis title_leb_total : forall a b, title_leb a b = false -> title_leb b a = true.

Lemma insert_sorted (r : Presets.row) (l : list Presets.row) :
  Sorted (by_title title_leb) l ->
  Sorted (by_title title_leb) (Presets.insert title_leb r l).
Proof.
  induction l as [|x l IH]; intros S; simpl.
  - repeat constructor.
  - destruct (title_leb (Presets.title r) (Presets.title x)) eqn:C.
    + constructor; [exact S|]. constructor. exact C.
    + inversion S as [|? ? S' H]; subst. constructor; [apply IH, S'|].
      destruct l as [|y l]; simpl.
      * constructor. apply title_leb_total, C.
      * destruct (title_leb (Presets.title r) (Presets.title y)).
        -- constructor. apply title_leb_total, C.
        -- inversion H; subst. constructor. assumption.
Qed.

Lemma order_by_title_sorted (l : list Presets.row) :
  Sorted (by_title title_leb) (Presets.order_by_title title_leb l).
Proof.
  induction l as [|x l IH]; simpl; [constructor|]. apply insert_sorted, IH.
Qed.

End Reading.

(** X18. [getPresets] returns the rows of the user, all of them, in the
    order of their titles. *)
Theorem getPresets_returns_the_rows_of_the_user_by_title
    (title_leb : jsstring -> jsstring -> bool) (uid : jsstring) (db : Presets.table) :
  (forall a b, title_leb a b = false -> title_leb b a = true) ->
  Sorted (by_title title_leb) (Presets.getPresets title_leb uid db)
  /\ Permutation (Presets.getPresets title_leb uid db)
                 (filter (fun r => jsstring_eqb (Presets.uid r) uid) db).
Proof.
  intros T. split.
  - apply order_by_title_sorted, T.
  - apply getPresets_perm.
Qed.

Lemma binary_leb_total (a b : jsstring) : binary_leb a b = false -> binary_leb b a = true.
Proof.
  revert b; induction a as [|x a IH]; intros [|y b]; simpl; try discriminate; auto.
  intros H. apply orb_false_iff in H. destruct H as [H1 H2].
  apply N.ltb_ge in H1.
  destruct (N.eqb_spec x y) as [E|E].
  - subst. simpl in H2. rewrite N.eqb_refl, (IH b H2). apply orb_true_r.
  - replace (y <? x)%N with true; [reflexivity|]. symmetry. apply N.ltb_lt. lia.
Qed.

Lemma getPresets_returns_the_rows_of_the_user_by_title_witness :
  Presets.getPresets binary_leb (str "ann") two_users
  = [preset "3" "ann" "ant"; preset "1" "ann" "zebra"]
  /\ Sorted (by_title binary_leb) (Presets.getPresets binary_leb (str "ann") two_users).
Proof.
  split; [reflexivity|].
  apply (getPresets_returns_the_rows_of_the_user_by_title binary_leb (str "ann") two_users).
  exact binary_leb_total.
Defined.

(** ** Writing *)

Lemma selected_count_zero (id0 uid0 : jsstring) (db : Presets.table) :
  List.length (filter (Presets.selected id0 uid0) db) = 0%nat
  <-> forall r, In r db -> Presets.selected id0 uid0 r = false.
Proof.
  induction db as [|x db IH]; simpl.
  - split; [intros _ r []|reflexivity].
  - destruct (Presets.selected id0 uid0 x) eqn:E; simpl.
    + split; [discriminate|]. intros H. rewrite (H x) in E by auto. discriminate.
    + rewrite IH. split.
      * intros H r [<-|I]; auto.
      * intros H r I. apply H. auto.
Qed.

Lemma map_unselected (id0 uid0 : jsstring) (g : Presets.row -> Presets.row)
    (db : Presets.table) :
  (forall r, In r db -> Presets.selected id0 uid0 r = false) ->
  map (fun r => if Presets.selected id0 uid0 r then g r else r) db = db.
Proof.
  induction db as [|x db IH]; intros H; simpl; [reflexivity|].
  rewrite (H x) by (left; reflexivity). cbv iota. f_equal. apply IH.
  intros r I. apply H. right. exact I.
Qed.

Lemma filter_unselected (id0 uid0 : jsstring) (db : Presets.table) :
  (forall r, In r db -> Presets.selected id0 uid0 r = false) ->
  filter (fun r => negb (Presets.selected id0 uid0 r)) db = db.
Proof.
  induction db as [|x db IH]; intros H; simpl; [reflexivity|].
  rewrite (H x) by (left; reflexivity). simpl. f_equal. apply IH.
  intros r I. apply H. right. exact I.
Qed.

(** X19. [update] throws exactly when no row has this id and owner, and
    then changes nothing.  After it, the user's presets with this id have the
    new title and prompt and are marked dirty, and the user's other presets
    are as before. *)
Theorem update_rewrites_the_presets_with_this_id_and_owner
    (title_leb : jsstring -> jsstring -> bool)
    (id title prompt uid : jsstring) (db : Presets.table) :
  let res := fst (Presets.update id title prompt uid db) in
  let db' := snd (Presets.update id title prompt uid db) in
  (res = Presets.Throws_not_found
   <-> forall r, In r db -> Presets.selected id uid r = false)
  /\ (res = Presets.Throws_not_found -> db' = db)
  /\ (forall r, In r (Presets.getPresets title_leb uid db') -> Presets.id r = id ->
                 Presets.title r = title /\ Presets.prompt r = prompt
                 /\ Presets.sync_state r = str "dirty")
  /\ (forall r, Presets.id r <> id ->
                 (In r (Presets.getPresets title_leb uid db')
                  <-> In r (Presets.getPresets title_leb uid db))).
Proof.
  intros res db'. subst res db'. unfold Presets.update. cbn [fst snd].
  assert (Z0 : (if Nat.eqb (List.length (filter (Presets.selected id uid) db)) 0
                then @Presets.Throws_not_found nat
                else Presets.Returns (List.length (filter (Presets.selected id uid) db)))
               = Presets.Throws_not_found
               <-> forall r, In r db -> Presets.selected id uid r = false).
  { rewrite <- selected_count_zero.
    destruct (Nat.eqb_spec (List.length (filter (Presets.selected id uid) db)) 0);
      split; intros; try assumption; try reflexivity; try discriminate; congruence. }
  split; [exact Z0|]. split; [|split].
  - intros H. apply map_unselected, Z0, H.
  - intros r H E. apply getPresets_In in H. destruct H as [H U].
    apply in_map_iff in H. destruct H as (x & Hx & I).
    destruct (Presets.selected id uid x) eqn:S.
    + subst r. auto.
    + subst x. unfold Presets.selected in S. rewrite E, U, !jsstring_eqb_refl in S.
      discriminate.
  - intros r N. rewrite !getPresets_In. split.
    + intros [H U]. split; [|exact U].
      apply in_map_iff in H. destruct H as (x & Hx & I).
      destruct (Presets.selected id uid x) eqn:S.
      * exfalso. subst r. apply N. simpl.
        unfold Presets.selected in S. apply andb_true_iff in S.
        destruct S as [S _]. apply jsstring_eqb_eq in S. exact S.
      * subst x. exact I.
    + intros [H U]. split; [|exact U].
      apply in_map_iff. exists r. split; [|exact H].
      replace (Presets.selected id uid r) with false; [reflexivity|].
      symmetry. unfold Presets.selected.
      destruct (jsstring_eqb (Presets.id r) id) eqn:E; [|reflexivity].
      apply jsstring_eqb_eq in E. congruence.
Qed.

(** X20. [delete] throws exactly when no row has this id and owner, and
    then changes nothing.  After it, the user's presets are those they had
    under other ids, and the table has lost as many rows as had this id and
    owner. *)
Theorem delete_removes_the_presets_with_this_id_and_owner
    (title_leb : jsstring -> jsstring -> bool)
    (id uid : jsstring) (db : Presets.table) :
  let res := fst (Presets.del id uid db) in
  let db' := snd (Presets.del id uid db) in
  (res = Presets.Throws_not_found
   <-> forall r, In r db -> Presets.selected id uid r = false)
  /\ (res = Presets.Throws_not_found -> db' = db)
  /\ (forall r, In r (Presets.getPresets title_leb uid db')
                 <-> In r (Presets.getPresets title_leb uid db) /\ Presets.id r <> id)
  /\ (List.length db' + List.length (filter (Presets.selected id uid) db)
       = List.length db)%nat.
Proof.
  intros res db'. subst res db'. unfold Presets.del. cbn [fst snd].
  assert (Z0 : (if Nat.eqb (List.length (filter (Presets.selected id uid) db)) 0
                then @Presets.Throws_not_found nat
                else Presets.Returns (List.length (filter (Presets.selected id uid) db)))
               = Presets.Throws_not_found
               <-> forall r, In r db -> Presets.selected id uid r = false).
  { rewrite <- selected_count_zero.
    destruct (Nat.eqb_spec (List.length (filter (Presets.selected id uid) db)) 0);
      split; intros; try assumption; try reflexivity; try discriminate; congruence. }
  split; [exact Z0|]. split; [|split].
  - intros H. apply filter_unselected, Z0, H.
  - intros r. rewrite !getPresets_In, filter_In. split.
    + intros [[H S] U]. split; [auto|]. intros E.
      unfold Presets.selected in S. rewrite E, U, !jsstring_eqb_refl in S. discriminate.
    + intros [[H U] N]. split; [|exact U]. split; [exact H|].
      unfold Presets.selected.
      destruct (jsstring_eqb (Presets.id r) id) eqn:E; [|reflexivity].
      apply jsstring_eqb_eq in E. congruence.
  - clear Z0. induction db as [|x db IH]; simpl; [reflexivity|].
    destruct (Presets.selected id uid x); simpl; lia.
Qed.

(** X21. [create] returns the new id and adds one preset to those of the
    user: not a default, marked dirty, created at the time in seconds. *)
Theorem create_adds_one_dirty_preset_for_the_user
    (title_leb : jsstring -> jsstring -> bool)
    (presetId : jsstring) (now : Z) (uid title prompt : jsstring) (db : Presets.table) :
  let new := {| Presets.id := presetId; Presets.uid := uid; Presets.title := title;
                Presets.prompt := prompt; Presets.is_default := 0;
                Presets.created_at := now / 1000;
                Presets.sync_state := str "dirty" |} in
  fst (Presets.create presetId now uid title prompt db) = presetId
  /\ Permutation
       (Presets.getPresets title_leb uid
          (snd (Presets.create presetId now uid title prompt db)))
       (new :: Presets.getPresets title_leb uid db).
Proof.
  intros new. split; [reflexivity|].
  eapply Permutation_trans; [apply getPresets_perm|].
  simpl. rewrite filter_app. simpl. rewrite jsstring_eqb_refl.
  eapply Permutation_trans; [apply Permutation_app_comm|]. simpl.
  apply perm_skip, Permutation_sym, getPresets_perm.
Qed.

Lemma presets_of_other_users_are_untouched_witness :
  run_operation (str "ann") (op_delete (str "2")) two_users = two_users
  /\ Presets.getPresets binary_leb (str "bob")
       (run_operation (str "ann") (op_delete (str "2")) two_users)
     = Presets.getPresets binary_leb (str "bob") two_users.
Proof.
  split; [reflexivity|].
  apply (presets_of_other_users_are_untouched binary_leb (str "ann") (str "bob")
           (op_delete (str "2")) two_users).
  discriminate.
Defined.

Lemma write_same (id : jsstring) (v : option FirestorePresets.doc)
    (db : FirestorePresets.collection) :
  FirestorePresets.write id v db id = v.
Proof. unfold FirestorePresets.write. rewrite jsstring_eqb_refl. reflexivity. Qed.

Lemma write_other (id k : jsstring) (v : option FirestorePresets.doc)
    (db : FirestorePresets.collection) :
  k <> id -> FirestorePresets.write id v db k = db k.
Proof.
  intros N. unfold FirestorePresets.write.
  apply jsstring_eqb_neq in N. rewrite N. reflexivity.
Qed.

(** A write to the document of its owner. *)
Lemma owner_write (uid id : jsstring) (d : FirestorePresets.doc)
    (v : option FirestorePresets.doc) (db : FirestorePresets.collection) :
  db id = Some d -> FirestorePresets.uid d = uid ->
  (forall d', v = Some d' -> FirestorePresets.uid d' = FirestorePresets.uid d) ->
  (forall k d0, db k = Some d0 -> FirestorePresets.uid d0 <> uid ->
                FirestorePresets.write id v db k = Some d0)
  /\ (forall k d', FirestorePresets.write id v db k = Some d' ->
         exists d0, db k = Some d0
                    /\ FirestorePresets.uid d' = FirestorePresets.uid d0).
Proof.
  intros D U V. split.
  - intros k d0 K N. destruct (list_eq_dec N.eq_dec k id) as [->|Nk].
    + congruence.
    + rewrite write_other by exact Nk. exact K.
  - intros k d' K. destruct (list_eq_dec N.eq_dec k id) as [->|Nk].
    + rewrite write_same in K. exists d. split; [exact D|]. apply V, K.
    + rewrite write_other in K by exact Nk. exists d'. split; [exact K|reflexivity].
Qed.

(** X22. On Firestore, [update] and [delete] succeed exactly when the
    document exists and belongs to the user; otherwise they change nothing.
    In either case the documents of other users stay as they are, no document
    appears and none changes its owner. *)
Theorem firestore_writes_need_the_owner
    (encrypt : jsstring -> jsstring) (uid : jsstring) (c : firestore_call)
    (db : FirestorePresets.collection) :
  let id := match c with fs_update _ id _ _ => id | fs_delete id => id end in
  let res := fst (run_firestore_call encrypt uid c db) in
  let db' := snd (run_firestore_call encrypt uid c db) in
  (res = FirestorePresets.Changes_1
   <-> exists d, db id = Some d /\ FirestorePresets.uid d = uid)
  /\ (res <> FirestorePresets.Changes_1 -> db' = db)
  /\ (forall k d, db k = Some d -> FirestorePresets.uid d <> uid -> db' k = Some d)
  /\ (forall k d', db' k = Some d' ->
        exists d, db k = Some d /\ FirestorePresets.uid d' = FirestorePresets.uid d).
Proof.
  intros id res db'. subst res db'.
  assert (Denied : forall r,
            r <> FirestorePresets.Changes_1 ->
            ~ (exists d, db id = Some d /\ FirestorePresets.uid d = uid) ->
            (r = FirestorePresets.Changes_1
             <-> exists d, db id = Some d /\ FirestorePresets.uid d = uid)
            /\ (r <> FirestorePresets.Changes_1 -> db = db)
            /\ (forall k d, db k = Some d -> FirestorePresets.uid d <> uid -> db k = Some d)
            /\ (forall k d', db k = Some d' ->
                  exists d, db k = Some d
                            /\ FirestorePresets.uid d' = FirestorePresets.uid d)).
  { intros r Nr Nd. split; [split; [congruence|intros H; contradiction]|].
    split; [reflexivity|]. split; [auto|]. intros k d' K. exists d'. auto. }
  destruct c as [now i t p|i]; subst id; simpl;
    unfold FirestorePresets.update, FirestorePresets.del;
    destruct (db i) as [d|] eqn:D.
  - destruct (jsstring_eqb (FirestorePresets.uid d) uid) eqn:U; cbn [fst snd].
    + apply jsstring_eqb_eq in U.
      split; [split; [intros _; exists d; auto|reflexivity]|].
      split; [congruence|].
      apply (owner_write uid i d); auto.
      intros d' E. injection E as <-. reflexivity.
    + apply jsstring_eqb_neq in U. apply Denied; [discriminate|].
      intros (d0 & E & O). congruence.
  - cbn [fst snd]. apply Denied; [discriminate|]. intros (d0 & E & O). discriminate.
  - destruct (jsstring_eqb (FirestorePresets.uid d) uid) eqn:U; cbn [fst snd].
    + apply jsstring_eqb_eq in U.
      split; [split; [intros _; exists d; auto|reflexivity]|].
      split; [congruence|].
      apply (owner_write uid i d); auto. intros d' E. discriminate.
    + apply jsstring_eqb_neq in U. apply Denied; [discriminate|].
      intros (d0 & E & O). congruence.
  - cbn [fst snd]. apply Denied; [discriminate|]. intros (d0 & E & O). discriminate.
Qed.
